(** * EduSense backend: content intake and answer synthesis

    A shallow embedding of the ingestion and retrieval-augmented answering
    pipeline (chunker, retriever, generation clients, diagram repair, media
    controller, ask service) together with the properties stated about it. *)

From Stdlib Require Import ZArith NArith List String Ascii Bool Lia SpecFloat Sorted.
From stdpp Require Import gmap.
Import ListNotations.

Unset Default Proof Using.
Set Warnings "-register-all".

(** ** JavaScript strings

    A JavaScript string is a sequence of UTF-16 code units; [length] counts
    code units, exactly as [String.prototype.length] does. *)

Module JS.

Definition jsstring := list N.

(** A literal written with Rocq's byte strings (used for ASCII text). *)
Definition js (s : string) : jsstring :=
  List.map N_of_ascii (list_ascii_of_string s).

(** WhiteSpace and LineTerminator code units: the set removed by
    [String.prototype.trim] and matched by the regular expression class
    [\s]. *)
Definition is_ws (c : N) : bool :=
  ((9 <=? c) && (c <=? 13) || (c =? 32) || (c =? 160) || (c =? 5760)
   || (8192 <=? c) && (c <=? 8202) || (c =? 8232) || (c =? 8233)
   || (c =? 8239) || (c =? 8287) || (c =? 12288) || (c =? 65279))%N.

Fixpoint trimStart (s : jsstring) : jsstring :=
  match s with
  | c :: s' => if is_ws c then trimStart s' else s
  | [] => []
  end.

Definition trimEnd (s : jsstring) : jsstring := rev (trimStart (rev s)).

Definition trim (s : jsstring) : jsstring := trimEnd (trimStart s).

(** [s.substring(a, b)]: both indices are clamped to [0, length] and
    swapped when out of order. *)
Definition substring (s : jsstring) (a b : Z) : jsstring :=
  let len := Z.of_nat (length s) in
  let a' := Z.min (Z.max a 0) len in
  let b' := Z.min (Z.max b 0) len in
  let lo := Z.min a' b' in
  let hi := Z.max a' b' in
  firstn (Z.to_nat (hi - lo)) (skipn (Z.to_nat lo) s).

End JS.
Import JS.

(** ** Chunker ([Embedder.chunkText]) *)

Module Embedder.

Record t := {
  chunkSize : Z;        (* target tokens per chunk *)
  overlapSize : Z;      (* overlap between chunks, in tokens *)
  avgCharsPerToken : Z  (* approximate characters per token *)
}.

(** The values set by the constructor. *)
Definition default : t :=
  {| chunkSize := 400; overlapSize := 50; avgCharsPerToken := 4 |}.

Definition chunkSizeChars (e : t) : Z := chunkSize e * avgCharsPerToken e.
Definition overlapChars (e : t) : Z := overlapSize e * avgCharsPerToken e.

(** A chunk; the random [uuidv4()] identity carries no information and is
    left out, the caller's metadata is kept abstract. *)
Record Chunk (M : Type) := {
  text : jsstring;
  metadata : M;
  chunkIndex : nat;
  startChar : Z;
  endChar : Z
}.
Arguments text {M}. Arguments metadata {M}. Arguments chunkIndex {M}.
Arguments startChar {M}. Arguments endChar {M}.

Section Chunking.
Context {M : Type}.
Variable e : t.

(** The [while] loop of [chunkText]; [fuel] bounds the number of
    iterations and [None] means the bound was reached. *)
Fixpoint chunk_loop (fuel : nat) (txt : jsstring) (meta : M)
    (startIndex : Z) (chunks : list (Chunk M)) : option (list (Chunk M)) :=
  match fuel with
  | O => None
  | S fuel' =>
    let len := Z.of_nat (length txt) in
    if (startIndex <? len)%Z then
      let endIndex := Z.min (startIndex + chunkSizeChars e) len in
      let chunkText := trim (substring txt startIndex endIndex) in
      let chunks' :=
        if (0 <? length chunkText)%nat then
          chunks ++ [ {| text := chunkText; metadata := meta;
                         chunkIndex := length chunks;
                         startChar := startIndex; endChar := endIndex |} ]
        else chunks in
      let startIndex' := (endIndex - overlapChars e)%Z in
      if (startIndex' >=? len - overlapChars e)%Z then Some chunks'
      else chunk_loop fuel' txt meta startIndex' chunks'
    else Some chunks
  end.

Definition chunkText (fuel : nat) (txt : jsstring) (meta : M)
  : option (list (Chunk M)) :=
  chunk_loop fuel txt meta 0 [].

End Chunking.
End Embedder.

(** ** JavaScript numbers

    A JavaScript number is an IEEE 754 binary64 value; the operations are
    those of the Standard Library's executable specification of binary
    floating point, at precision 53 and maximal exponent 1024. *)

Module Num.

Definition number := spec_float.

Definition prec : Z := 53.
Definition emax : Z := 1024.

Definition NaN : number := S754_nan.
Definition of_Z (z : Z) : number := binary_normalize prec emax z 0 false.
Definition div : number -> number -> number := SFdiv prec emax.
Definition add : number -> number -> number := SFadd prec emax.

(** The decimal literal [m / 10^k] (both exactly representable), rounded to
    nearest as the lexer does. *)
Definition dec (m : Z) (k : nat) : number := div (of_Z m) (of_Z (10 ^ Z.of_nat k)).

Definition zero : number := Eval cbv in of_Z 0.
Definition one : number := Eval cbv in of_Z 1.
Definition two : number := Eval cbv in of_Z 2.
Definition hundred : number := Eval cbv in of_Z 100.

Definition ltb : number -> number -> bool := SFltb.   (* a < b *)
Definition leb : number -> number -> bool := SFleb.   (* a <= b *)
Definition eqb : number -> number -> bool := SFeqb.   (* a == b *)
Definition gtb (a b : number) : bool := ltb b a.      (* a > b *)
Definition geb (a b : number) : bool := leb b a.      (* a >= b *)

Definition is_nan (x : number) : bool :=
  match x with S754_nan => true | _ => false end.
Definition is_pos_zero (x : number) : bool :=
  match x with S754_zero false => true | _ => false end.
Definition is_neg_zero (x : number) : bool :=
  match x with S754_zero true => true | _ => false end.

(** ToBoolean on a number: NaN, +0 and -0 are falsy. *)
Definition truthy (x : number) : bool :=
  match x with S754_nan | S754_zero _ => false | _ => true end.

(** [a || b] on numbers. *)
Definition or_else (a b : number) : number := if truthy a then a else b.

(** [Math.max(...)]: NaN if any argument is NaN; otherwise the running
    highest value starts at -Infinity, and +0 counts as larger than -0. *)
Definition Math_max (args : list number) : number :=
  if List.existsb is_nan args then NaN
  else fold_left
         (fun highest n =>
            if is_pos_zero n && is_neg_zero highest then S754_zero false
            else if gtb n highest then n else highest)
         args (S754_infinity true).

(** [Math.min(...)], symmetrically from +Infinity, -0 smaller than +0. *)
Definition Math_min (args : list number) : number :=
  if List.existsb is_nan args then NaN
  else fold_left
         (fun lowest n =>
            if is_neg_zero n && is_pos_zero lowest then S754_zero true
            else if ltb n lowest then n else lowest)
         args (S754_infinity false).

(** Membership in the closed unit interval. *)
Definition in_unit (x : number) : bool := leb zero x && leb x one.

End Num.

(** ** Results of calls that may throw *)

Record Error := { message : jsstring }.

Inductive Result (A : Type) :=
| Returned (a : A)
| Threw (e : Error).
Arguments Returned {A}. Arguments Threw {A}.

Definition threw {A} (r : Result A) : bool :=
  match r with Threw _ => true | Returned _ => false end.

(** ** Vector index client and retriever *)

Module Retriever.

(** What the vector index sends back for one point. The payload is absent
    on points stored without one. *)
Record Payload (M : Type) := { p_text : jsstring; p_metadata : M }.
Arguments p_text {M}. Arguments p_metadata {M}.

Record ScoredPoint (M : Type) := {
  sp_id : jsstring;
  sp_score : Num.number;
  sp_payload : option (Payload M)
}.
Arguments sp_id {M}. Arguments sp_score {M}. Arguments sp_payload {M}.

Record Hit (M : Type) := {
  id : jsstring;
  score : Num.number;
  text : jsstring;
  metadata : M
}.
Arguments id {M}. Arguments score {M}. Arguments text {M}. Arguments metadata {M}.

Definition defaultTopK : nat := 5.
Definition minScore : Num.number := Num.dec 5 1.   (* 0.5 *)

Section Retrieval.
Context {M Vec Filter : Type}.

(** Collaborators: the embedding provider and the vector index. *)
Variable embedQuery : jsstring -> Result Vec.
Variable client_search : Vec -> nat -> option Filter -> Result (list (ScoredPoint M)).

(** [results.map(result => ({id, score, text: result.payload.text, ...}))]:
    reading [payload.text] of a point without payload is a TypeError. *)
Fixpoint map_hits (rs : list (ScoredPoint M)) : Result (list (Hit M)) :=
  match rs with
  | [] => Returned []
  | r :: rs' =>
    match sp_payload r with
    | None => Threw {| message := js "Cannot read properties of undefined (reading 'text')" |}
    | Some p =>
      match map_hits rs' with
      | Threw e => Threw e
      | Returned hs =>
        Returned ({| id := sp_id r; score := sp_score r;
                     text := p_text p; metadata := p_metadata p |} :: hs)
      end
    end
  end.

(** [QdrantService.search]: [limit: topK], the filter only when given;
    every error is logged and rethrown. *)
Definition search (queryEmbedding : Vec) (topK : nat) (filter : option Filter)
  : Result (list (Hit M)) :=
  match client_search queryEmbedding topK filter with
  | Threw e => Threw e
  | Returned results => map_hits results
  end.

(** [Retriever.retrieve]; an omitted [topK] defaults to [defaultTopK]. *)
Definition retrieve (question : jsstring) (topK : option nat) (filter : option Filter)
  : list (Hit M) :=
  let topK := match topK with Some k => k | None => defaultTopK end in
  match embedQuery question with
  | Threw _ => []
  | Returned queryEmbedding =>
    match search queryEmbedding topK filter with
    | Threw _ => []
    | Returned results =>
      List.filter (fun result => Num.geb (score result) minScore) results
    end
  end.

End Retrieval.

(** Descending order of a sequence of scores: every element is [>=] all
    later ones. *)
Definition descending (l : list Num.number) : Prop :=
  StronglySorted (fun a b => Num.geb a b = true) l.

End Retriever.

(** ** JSON values and [JSON.parse]

    The built-in parser, following the JSON grammar (ECMA-404); [None]
    stands for the SyntaxError it throws. Objects keep their members in
    source order, a repeated key being overridden by its last occurrence. *)

Module Json.

Inductive json :=
| JNull
| JBool (b : bool)
| JNum (n : Num.number)
| JStr (s : jsstring)
| JArr (l : list json)
| JObj (members : list (jsstring * json)).

Definition jsstring_eqb (a b : jsstring) : bool :=
  if decide (a = b) then true else false.

(** Property read [o.key]; [None] is [undefined]. Only own members of
    objects answer; arrays, strings, numbers and booleans have no such
    property. Reading from [null] throws and is handled by the callers. *)
Fixpoint lookup_last (key : jsstring) (ms : list (jsstring * json)) (found : option json)
  : option json :=
  match ms with
  | [] => found
  | (k, v) :: ms' =>
    lookup_last key ms' (if jsstring_eqb k key then Some v else found)
  end.

Definition get (key : jsstring) (v : json) : option json :=
  match v with
  | JObj ms => lookup_last key ms None
  | _ => None
  end.

(** ToBoolean, on a possibly undefined value. *)
Definition truthy (v : option json) : bool :=
  match v with
  | None | Some JNull => false
  | Some (JBool b) => b
  | Some (JNum n) => Num.truthy n
  | Some (JStr s) => negb (Nat.eqb (length s) 0)
  | Some (JArr _) | Some (JObj _) => true
  end.

(** [a || b] where the last operand is a defined value. *)
Definition or_default (a : option json) (b : json) : json :=
  match a with
  | Some v => if truthy a then v else b
  | None => b
  end.

(** *** Lexical helpers *)

Definition is_json_ws (c : N) : bool :=
  ((c =? 32) || (c =? 9) || (c =? 10) || (c =? 13))%N.

Fixpoint skip_ws (s : jsstring) : jsstring :=
  match s with
  | c :: s' => if is_json_ws c then skip_ws s' else s
  | [] => []
  end.

Definition is_digit (c : N) : bool := ((48 <=? c) && (c <=? 57))%N.

Definition hex_value (c : N) : option N :=
  if is_digit c then Some (c - 48)%N
  else if ((97 <=? c) && (c <=? 102))%N then Some (c - 87)%N
  else if ((65 <=? c) && (c <=? 70))%N then Some (c - 55)%N
  else None.

(** The characters of a string literal after its opening quote, up to and
    including the closing quote; escapes are decoded. *)
Fixpoint parse_string (s : jsstring) (acc : jsstring) : option (jsstring * jsstring) :=
  match s with
  | [] => None
  | 34%N :: rest => Some (acc, rest)
  | 92%N :: rest =>
    match rest with
    | 34%N :: r => parse_string r (acc ++ [34%N])
    | 92%N :: r => parse_string r (acc ++ [92%N])
    | 47%N :: r => parse_string r (acc ++ [47%N])
    | 98%N :: r => parse_string r (acc ++ [8%N])
    | 102%N :: r => parse_string r (acc ++ [12%N])
    | 110%N :: r => parse_string r (acc ++ [10%N])
    | 114%N :: r => parse_string r (acc ++ [13%N])
    | 116%N :: r => parse_string r (acc ++ [9%N])
    | 117%N :: h1 :: h2 :: h3 :: h4 :: r =>
      match hex_value h1, hex_value h2, hex_value h3, hex_value h4 with
      | Some a, Some b, Some c, Some d =>
        parse_string r (acc ++ [(((a * 16 + b) * 16 + c) * 16 + d)%N])
      | _, _, _, _ => None
      end
    | _ => None
    end
  | c :: rest => if (c <? 32)%N then None else parse_string rest (acc ++ [c])
  end.

(** A maximal run of decimal digits: their value, how many, and the rest. *)
Fixpoint digits (s : jsstring) (val : Z) (count : nat) : Z * nat * jsstring :=
  match s with
  | c :: s' =>
    if is_digit c then digits s' (val * 10 + Z.of_N (c - 48)) (S count)
    else (val, count, s)
  | [] => (val, count, s)
  end.

(** The binary64 value nearest to [(-1)^neg * m * 10^e10]. *)
Definition decimal_to_number (neg : bool) (m : Z) (e10 : Z) : Num.number :=
  match m with
  | Zpos p =>
    if (0 <=? e10)%Z then
      binary_normalize Num.prec Num.emax (cond_Zopp neg (m * 10 ^ e10)) 0 neg
    else
      match (10 ^ (- e10))%Z with
      | Zpos q => Num.div (S754_finite neg p 0) (S754_finite false q 0)
      | _ => Num.NaN
      end
  | _ => S754_zero neg
  end.

(** A number token: [-? int frac? exp?] with no superfluous leading zero. *)
Definition parse_number (s : jsstring) : option (Num.number * jsstring) :=
  let '(neg, s1) := match s with 45%N :: r => (true, r) | _ => (false, s) end in
  let '(ival, icount, s2) := digits s1 0 0 in
  let leading_zero :=
    match s1 with 48%N :: _ => Nat.ltb 1 icount | _ => false end in
  if Nat.eqb icount 0 || leading_zero then None
  else
    let frac :=
      match s2 with
      | 46%N :: r =>
        let '(fval, fcount, s3) := digits r ival 0 in
        if Nat.eqb fcount 0 then None else Some (fval, fcount, s3)
      | _ => Some (ival, O, s2)
      end in
    match frac with
    | None => None
    | Some (m, fcount, s3) =>
      let after_exp (eneg : bool) (r : jsstring) :=
        let '(ev, ecount, s4) := digits r 0 0 in
        if Nat.eqb ecount 0 then None
        else Some (decimal_to_number neg m
                     (cond_Zopp eneg ev - Z.of_nat fcount), s4) in
      match s3 with
      | c :: r =>
        if ((c =? 101) || (c =? 69))%N then
          match r with
          | 43%N :: r' => after_exp false r'
          | 45%N :: r' => after_exp true r'
          | _ => after_exp false r
          end
        else Some (decimal_to_number neg m (- Z.of_nat fcount), s3)
      | [] => Some (decimal_to_number neg m (- Z.of_nat fcount), s3)
      end
    end.

Definition strip_prefix (p s : jsstring) : option jsstring :=
  if decide (firstn (length p) s = p) then Some (skipn (length p) s) else None.

Section Values.
(** The parser of the nested values, one level of fuel down. *)
Variable parse_inner : jsstring -> option (json * jsstring).

(** Elements of an array after the first, up to the closing bracket. *)
Fixpoint parse_elements (fuel : nat) (s : jsstring) (acc : list json)
  : option (list json * jsstring) :=
  match fuel with
  | O => None
  | S fuel' =>
    match skip_ws s with
    | 93%N :: r => Some (acc, r)
    | 44%N :: r =>
      match parse_inner r with
      | Some (v, r') => parse_elements fuel' r' (acc ++ [v])
      | None => None
      end
    | _ => None
    end
  end.

Definition parse_member (s : jsstring) : option (jsstring * json * jsstring) :=
  match skip_ws s with
  | 34%N :: r =>
    match parse_string r [] with
    | Some (k, r1) =>
      match skip_ws r1 with
      | 58%N :: r2 =>
        match parse_inner r2 with
        | Some (v, r3) => Some (k, v, r3)
        | None => None
        end
      | _ => None
      end
    | None => None
    end
  | _ => None
  end.

(** Members of an object after the first, up to the closing brace. *)
Fixpoint parse_members (fuel : nat) (s : jsstring) (acc : list (jsstring * json))
  : option (list (jsstring * json) * jsstring) :=
  match fuel with
  | O => None
  | S fuel' =>
    match skip_ws s with
    | 125%N :: r => Some (acc, r)
    | 44%N :: r =>
      match parse_member r with
      | Some (k, v, r') => parse_members fuel' r' (acc ++ [(k, v)])
      | None => None
      end
    | _ => None
    end
  end.
End Values.

Fixpoint parse_value (fuel : nat) (s : jsstring) : option (json * jsstring) :=
  match fuel with
  | O => None
  | S fuel' =>
    let s := skip_ws s in
    match s with
    | 123%N :: r =>
      match skip_ws r with
      | 125%N :: r' => Some (JObj [], r')
      | _ =>
        match parse_member (parse_value fuel') r with
        | Some (k, v, r') =>
          match parse_members (parse_value fuel') (length r') r' [(k, v)] with
          | Some (ms, r'') => Some (JObj ms, r'')
          | None => None
          end
        | None => None
        end
      end
    | 91%N :: r =>
      match skip_ws r with
      | 93%N :: r' => Some (JArr [], r')
      | _ =>
        match parse_value fuel' r with
        | Some (v, r') =>
          match parse_elements (parse_value fuel') (length r') r' [v] with
          | Some (vs, r'') => Some (JArr vs, r'')
          | None => None
          end
        | None => None
        end
      end
    | 34%N :: r =>
      match parse_string r [] with
      | Some (str, r') => Some (JStr str, r')
      | None => None
      end
    | _ =>
      match strip_prefix (js "true") s, strip_prefix (js "false") s,
            strip_prefix (js "null") s with
      | Some r, _, _ => Some (JBool true, r)
      | _, Some r, _ => Some (JBool false, r)
      | _, _, Some r => Some (JNull, r)
      | _, _, _ =>
        match parse_number s with
        | Some (n, r) => Some (JNum n, r)
        | None => None
        end
      end
    end
  end.

(** [JSON.parse(text)]: one value, surrounded by optional white space. *)
Definition JSON_parse (text : jsstring) : option json :=
  match parse_value (S (length text)) text with
  | Some (v, rest) => match skip_ws rest with [] => Some v | _ => None end
  | None => None
  end.

End Json.

(** ** String operations used by the clients and by the diagram repair *)

Module Str.

Definition NL : N := 10.

Definition starts_with (p s : jsstring) : bool :=
  if decide (firstn (length p) s = p) then true else false.

Definition ends_with (p s : jsstring) : bool :=
  starts_with (rev p) (rev s).

(** [s.includes(p)]. *)
Fixpoint includes (p s : jsstring) : bool :=
  starts_with p s || match s with [] => false | _ :: s' => includes p s' end.

(** [s.split(sep)] for a one-unit separator: never empty, [""] for [""]. *)
Fixpoint split (sep : N) (s : jsstring) : list jsstring :=
  match s with
  | [] => [[]]
  | c :: s' =>
    if (c =? sep)%N then [] :: split sep s'
    else match split sep s' with
         | l :: ls => (c :: l) :: ls
         | [] => [[c]]
         end
  end.

(** [lines.join(sep)]. *)
Fixpoint join (sep : jsstring) (ls : list jsstring) : jsstring :=
  match ls with
  | [] => []
  | [l] => l
  | l :: ls' => l ++ sep ++ join sep ls'
  end.

(** [s.replace(/pat/g, rep)] for a literal, non-empty pattern: leftmost
    matches, not overlapping; [skip] counts the units of a match still to
    be dropped. *)
Fixpoint replace_all_from (pat rep : jsstring) (skip : nat) (s : jsstring) : jsstring :=
  match s with
  | [] => []
  | c :: s' =>
    match skip with
    | S k => replace_all_from pat rep k s'
    | O =>
      if starts_with pat s then rep ++ replace_all_from pat rep (length pat - 1) s'
      else c :: replace_all_from pat rep 0 s'
    end
  end.

Definition replace_all (pat rep s : jsstring) : jsstring :=
  replace_all_from pat rep 0 s.

Definition is_digit (c : N) : bool := ((48 <=? c) && (c <=? 57))%N.

(** The regular expression class [\w]. *)
Definition is_word (c : N) : bool :=
  ((97 <=? c) && (c <=? 122) || (65 <=? c) && (c <=? 90)
   || (48 <=? c) && (c <=? 57) || (c =? 95))%N.

Fixpoint drop_digits (s : jsstring) : jsstring :=
  match s with
  | c :: s' => if is_digit c then drop_digits s' else s
  | [] => []
  end.

(** What follows a non-empty run of digits at the start of [s]. *)
Definition after_digits (s : jsstring) : option jsstring :=
  match s with
  | c :: s' => if is_digit c then Some (drop_digits s') else None
  | [] => None
  end.

Definition after_prefix (p s : jsstring) : option jsstring :=
  if starts_with p s then Some (skipn (length p) s) else None.

End Str.

(** ** Generation clients *)

Module Gen.
Import Json.

(** The structured answer built by the Claude and Gemini clients. *)
Definition answer_object (steps finalAnswer confidence : json) (rawResponse : jsstring)
  : json :=
  JObj [ (js "steps", steps); (js "finalAnswer", finalAnswer);
         (js "confidence", confidence); (js "rawResponse", JStr rawResponse) ].

Definition strings (l : list jsstring) : json := JArr (List.map JStr l).

(** The test of a line against the step pattern: at its start, [Step ]
    and a digit run, or a digit run and a dot, or an asterisk. *)
Definition is_step_line (line : jsstring) : bool :=
  match Str.after_prefix (js "Step ") line with
  | Some r => match Str.after_digits r with Some _ => true | None => false end
  | None =>
    match Str.after_digits line with
    | Some (46%N :: _) => true
    | _ => match line with 42%N :: _ => true | _ => false end
    end
  end.

(** The removal of the step label and of the white space after it. The
    replace pattern differs from the test pattern: after [Step ] and the
    digits it requires a colon, so a label without colon stays. *)
Definition strip_step_label (line : jsstring) : jsstring :=
  let labelled :=
    match Str.after_prefix (js "Step ") line with
    | Some r =>
      match Str.after_digits r with
      | Some (58%N :: r') => Some r'
      | _ => None
      end
    | None => None
    end in
  match labelled with
  | Some r => trimStart r
  | None =>
    match Str.after_digits line with
    | Some (46%N :: r) => trimStart r
    | _ => match line with 42%N :: r => trimStart r | _ => line end
    end
  end.

(** The [for] loop of [structureNonJsonResponse]. *)
Fixpoint structure_lines (lines : list jsstring) (steps : list jsstring)
    (finalAnswer : jsstring) : list jsstring * jsstring :=
  match lines with
  | [] => (steps, finalAnswer)
  | line :: rest =>
    if is_step_line line then
      structure_lines rest (steps ++ [strip_step_label line]) finalAnswer
    else if (50 <? length line)%nat then
      structure_lines rest steps (finalAnswer ++ line ++ js " ")
    else structure_lines rest steps finalAnswer
  end.

Definition nonblank (line : jsstring) : bool :=
  negb (Nat.eqb (length (trim line)) 0).

(** [structureNonJsonResponse], shared verbatim by the Claude and Gemini
    clients. *)
Definition structureNonJsonResponse (content : jsstring) : json :=
  let lines := List.filter nonblank (Str.split Str.NL content) in
  let '(steps, finalAnswer) := structure_lines lines [] [] in
  answer_object
    (strings (match steps with [] => [content] | _ => steps end))
    (JStr (match trim finalAnswer with
           | [] => substring content 0 200
           | t => t
           end))
    (JNum (Num.dec 75 2))
    content.

(** The object built from a successfully parsed value; reading a property
    of [null] is a TypeError. *)
Definition from_parsed (parsed : json) (default_confidence : Num.number)
    (raw : jsstring) : Result json :=
  match parsed with
  | JNull => Threw {| message := js "Cannot read properties of null (reading 'steps')" |}
  | _ =>
    Returned
      (answer_object
         (or_default (get (js "steps") parsed) (JArr []))
         (if truthy (get (js "final_answer") parsed)
          then or_default (get (js "final_answer") parsed) (JStr [])
          else or_default (get (js "finalAnswer") parsed) (JStr []))
         (or_default (get (js "confidence") parsed) (JNum default_confidence))
         raw)
  end.

Definition syntax_error : Error := {| message := js "Unexpected token in JSON" |}.

Definition parse_or_throw (text : jsstring) : Result json :=
  match JSON_parse text with
  | Some v => Returned v
  | None => Threw syntax_error
  end.

Module Claude.

(** [content.match(/\{[\s\S]*\}/)]: from the first opening brace to the
    last closing brace after it. *)
Fixpoint upto_last_close (s : jsstring) : option jsstring :=
  match s with
  | [] => None
  | c :: s' =>
    match upto_last_close s' with
    | Some m => Some (c :: m)
    | None => if (c =? 125)%N then Some [c] else None
    end
  end.

Fixpoint jsonMatch (content : jsstring) : option jsstring :=
  match content with
  | [] => None
  | c :: s' =>
    if (c =? 123)%N then
      match upto_last_close s' with
      | Some m => Some (c :: m)
      | None => None
      end
    else jsonMatch s'
  end.

(** The parsing block of [askWithContext] (its inner [try]/[catch] and
    the statement after it). *)
Definition parseContent (content : jsstring) : json :=
  match jsonMatch content with
  | Some m =>
    match parse_or_throw m with
    | Returned parsed =>
      match from_parsed parsed (Num.dec 8 1) content with
      | Returned a => a
      | Threw _ => structureNonJsonResponse content
      end
    | Threw _ => structureNonJsonResponse content
    end
  | None => structureNonJsonResponse content
  end.

Definition apology : list jsstring :=
  [ js "I apologize, but I encountered an issue generating a detailed response.";
    js "This could be due to the complexity of the question or a temporary service issue.";
    js "Please try rephrasing your question or asking something more specific." ].

Definition getFallbackResponse (question : jsstring) : json :=
  answer_object (strings apology)
    (JStr (js "I'm having trouble answering " ++ [34%N] ++ question ++ [34%N]
           ++ js " right now. Please try again with a more specific question."))
    (JNum (Num.dec 3 1))
    (js "Fallback response due to empty Claude output").

Section Ask.
Context {Ctx : Type}.
Variable buildPrompt : jsstring -> list Ctx -> jsstring.
(** [client.messages.create]: the [content] blocks of the response, each
    with its [text] when it has one. *)
Variable create : jsstring -> Result (option (list (option jsstring))).

Definition askWithContext (question : jsstring) (context : list Ctx) : Result json :=
  let outcome : Result json :=
    match create (buildPrompt question context) with
    | Threw e => Threw e
    | Returned None | Returned (Some []) => Returned (getFallbackResponse question)
    | Returned (Some (block :: _)) =>
      match block with
      | None => Returned (getFallbackResponse question)
      | Some content =>
        if Nat.eqb (length (trim content)) 0
        then Returned (getFallbackResponse question)
        else Returned (parseContent content)
      end
    end in
  match outcome with
  | Returned a => Returned a
  | Threw error =>
    if Str.includes (js "model output must contain") (message error)
    then Returned (getFallbackResponse question)
    else Threw error
  end.
End Ask.
End Claude.

Module Gemini.

Definition modelsToTry : list jsstring :=
  [ js "gemini-1.5-flash-001"; js "gemini-1.5-flash"; js "gemini-pro";
    js "gemini-1.0-pro" ].

Definition fence : jsstring := js "```".

(** [parseResponse]: code fences removed, then parsed; any failure falls
    back to the line-based structuring of the original text. *)
Definition parseResponse (text : jsstring) : json :=
  let cleanText :=
    trim (Str.replace_all fence [] (Str.replace_all (fence ++ js "json") [] text)) in
  match parse_or_throw cleanText with
  | Returned parsed =>
    match from_parsed parsed (Num.dec 85 2) text with
    | Returned a => a
    | Threw _ => structureNonJsonResponse text
    end
  | Threw _ => structureNonJsonResponse text
  end.

Definition apology : list jsstring :=
  [ js "I apologize, but I encountered an issue generating a detailed response.";
    js "Please try asking your question again." ].

Definition getFallbackResponse (question : jsstring) : json :=
  answer_object (strings apology)
    (JStr (js "I'm having trouble answering " ++ [34%N] ++ question ++ [34%N]
           ++ js " right now."))
    (JNum (Num.dec 3 1))
    (js "Fallback response").

Section Ask.
Context {Ctx : Type}.
Variable buildPrompt : jsstring -> list Ctx -> jsstring.
(** [getGenerativeModel({model}).generateContent(prompt)] followed by
    [response.text()]. *)
Variable generate : jsstring -> jsstring -> Result jsstring.

(** The [for ... of modelsToTry] loop; [None] is the [undefined] returned
    when the loop runs off its end. *)
Fixpoint try_models (models : list jsstring) (last_model : option jsstring)
    (question : jsstring) (context : list Ctx) : option json :=
  match models with
  | [] => None
  | modelName :: rest =>
    match generate modelName (buildPrompt question context) with
    | Returned text => Some (parseResponse text)
    | Threw _ =>
      if decide (Some modelName = last_model)
      then Some (getFallbackResponse question)
      else try_models rest last_model question context
    end
  end.

Definition askWithContext (question : jsstring) (context : list Ctx) : option json :=
  try_models modelsToTry (last modelsToTry) question context.
End Ask.
End Gemini.

Module Groq.

(** [parseResponse]: the parsed value itself, whatever it is, or a fixed
    object carrying the raw text. *)
Definition parseResponse (text : jsstring) : json :=
  match parse_or_throw text with
  | Returned v => v
  | Threw _ =>
    JObj [ (js "explanation", JStr text);
           (js "steps", strings [js "See explanation above."]);
           (js "finalAnswer", JStr (js "Could not parse structured answer."));
           (js "confidence", JNum Num.zero);
           (js "meta", JObj [ (js "subject", JStr (js "General"));
                              (js "difficulty", JStr (js "Unknown"));
                              (js "type", JStr (js "General")) ]) ]
  end.

Definition getFallbackResponse (question : jsstring) : json :=
  JObj [ (js "explanation",
          JStr (js "I'm having trouble connecting to my brain right now. It might be a network issue."));
         (js "steps", strings [ js "Please check your internet connection.";
                                js "Try again in a moment." ]);
         (js "finalAnswer", JStr (js "Temporary connection issue."));
         (js "confidence", JNum Num.zero);
         (js "meta", JObj [ (js "subject", JStr (js "System"));
                            (js "difficulty", JStr (js "N/A"));
                            (js "category", JStr (js "Error")) ]) ].

Section Ask.
Context {Ctx : Type}.
Variable buildPrompt : jsstring -> list Ctx -> jsstring.
(** [groq.chat.completions.create]: the [content] of the first choice's
    message, when there is one. *)
Variable create : jsstring -> Result (option jsstring).

Definition askWithContext (question : jsstring) (context : list Ctx) : json :=
  match create (buildPrompt question context) with
  | Returned (Some content) =>
    match content with
    | [] => getFallbackResponse question
    | _ => parseResponse content
    end
  | Returned None | Threw _ => getFallbackResponse question
  end.
End Ask.

(** [generateEmbedding]: the mock implementation, an array of 768 zeros
    whatever the text. *)
Definition generateEmbedding (text : jsstring) : list Num.number :=
  repeat Num.zero 768.

Section Raw.
(** [groq.chat.completions.create] for a single user message: the
    [content] of the first choice's message, when there is one. *)
Variable create : jsstring -> Result (option jsstring).

(** [askRaw]: [content || ''], every error rethrown. *)
Definition askRaw (prompt : jsstring) : Result jsstring :=
  match create prompt with
  | Returned (Some content) => Returned content
  | Returned None => Returned []
  | Threw error => Threw error
  end.
End Raw.
End Groq.

End Gen.

(** ** The parsing policy of the specification

    Kept beside the clients to be compared with them. *)

(** The parsing policy as the specification words it: direct parsing of
    the raw text, then parsing of the first balanced brace-delimited
    substring, then line-based structuring. *)
Module Policy.
Import Json.

(** The rest of a balanced substring, [depth] braces being open besides
    the outermost one. *)
Fixpoint balanced_rest (depth : nat) (s : jsstring) : option jsstring :=
  match s with
  | [] => None
  | c :: s' =>
    if (c =? 123)%N then option_map (cons c) (balanced_rest (S depth) s')
    else if (c =? 125)%N then
      match depth with
      | O => Some [c]
      | S d => option_map (cons c) (balanced_rest d s')
      end
    else option_map (cons c) (balanced_rest depth s')
  end.

Fixpoint first_balanced (s : jsstring) : option jsstring :=
  match s with
  | [] => None
  | c :: s' =>
    if (c =? 123)%N then
      match balanced_rest 0 s' with
      | Some m => Some (c :: m)
      | None => first_balanced s'
      end
    else first_balanced s'
  end.

Inductive Outcome :=
| Direct (parsed : json)
| Extracted (parsed : json)
| Heuristic (step_lines long_lines : list jsstring).

Definition parse (text : jsstring) : Outcome :=
  match JSON_parse text with
  | Some v => Direct v
  | None =>
    let lines := Str.split Str.NL text in
    let heuristic :=
      Heuristic (List.filter Gen.is_step_line lines)
        (List.filter (fun l => negb (Gen.is_step_line l) && (50 <? length l)%nat) lines) in
    match first_balanced text with
    | Some sub =>
      match JSON_parse sub with
      | Some v => Extracted v
      | None => heuristic
      end
    | None => heuristic
    end
  end.

End Policy.

(** ** Embedding of chunks and queries (the rest of [Embedder]) *)

Module Qdrant.

Definition collectionName : jsstring := js "academic_chunks".

(** The dimension the collection is created with. *)
Definition vectorSize : nat := 1536.

End Qdrant.

Module Embedding.

(** A chunk with its embedding: [{...chunk, embedding}]. *)
Record Embedded (M Vec : Type) := {
  chunk : Embedder.Chunk M;
  embedding : Vec
}.
Arguments chunk {M Vec}. Arguments embedding {M Vec}.

Section Embedding.
Context {M Vec : Type}.
Variable e : Embedder.t.

(** The provider the embedder imports ([generateEmbedding] of the
    generation client). *)
Variable client_generateEmbedding : jsstring -> Result Vec.

(** [generateEmbedding]: every error is logged and rethrown. *)
Definition generateEmbedding (text : jsstring) : Result Vec :=
  match client_generateEmbedding text with
  | Returned v => Returned v
  | Threw error => Threw error
  end.

(** [embedChunks]: [Promise.all] over the chunks, in order; it rejects as
    soon as one embedding does (reported here for the first such chunk). *)
Fixpoint embedChunks (chunks : list (Embedder.Chunk M))
  : Result (list (Embedded M Vec)) :=
  match chunks with
  | [] => Returned []
  | c :: rest =>
    match generateEmbedding (Embedder.text c) with
    | Threw error => Threw error
    | Returned v =>
      match embedChunks rest with
      | Threw error => Threw error
      | Returned out => Returned ({| chunk := c; embedding := v |} :: out)
      end
    end
  end.

(** [processDocument]: chunk, then embed; [None] when the chunking loop
    runs out of fuel. *)
Definition processDocument (fuel : nat) (txt : jsstring) (meta : M)
  : option (Result (list (Embedded M Vec))) :=
  match Embedder.chunkText e fuel txt meta with
  | Some chunks => Some (embedChunks chunks)
  | None => None
  end.

(** [embedQuery]: no chunking. *)
Definition embedQuery (query : jsstring) : Result Vec := generateEmbedding query.

End Embedding.
End Embedding.

(** ** Diagram repair ([validateAndFixMermaid]) *)

Module Mermaid.

Definition fence : jsstring := js "```".

(** [s.replace(/PAT\n?/, '')] for a literal [PAT]: the first occurrence
    only, together with one line feed right after it. *)
Fixpoint remove_first_with_newline (pat s : jsstring) : jsstring :=
  match s with
  | [] => []
  | c :: s' =>
    if Str.starts_with pat s then
      match skipn (length pat) s with
      | 10%N :: r => r
      | r => r
      end
    else c :: remove_first_with_newline pat s'
  end.

(** [s.replace(/```$/, '')]: a fence at the very end of the text. *)
Definition remove_trailing_fence (s : jsstring) : jsstring :=
  if Str.ends_with fence s then firstn (length s - 3) s else s.

(** [s.replace(/\n\n+/g, '\n')]; [prev] tells that the previous unit was a
    line feed already emitted. *)
Fixpoint collapse_from (prev : bool) (s : jsstring) : jsstring :=
  match s with
  | [] => []
  | c :: s' =>
    if (c =? Str.NL)%N then
      if prev then collapse_from true s' else c :: collapse_from true s'
    else c :: collapse_from false s'
  end.

Definition collapse_newlines (s : jsstring) : jsstring := collapse_from false s.

Definition diagram_types : list jsstring :=
  [ js "graph"; js "sequenceDiagram"; js "classDiagram"; js "stateDiagram";
    js "mindmap" ].

(** [s.match(/^(graph|sequenceDiagram|classDiagram|stateDiagram|mindmap)/)] *)
Definition has_diagram_type (s : jsstring) : bool :=
  List.existsb (fun k => Str.starts_with k s) diagram_types.

(** The units kept in a node line: word characters, white space, square
    brackets, parentheses, braces, hyphen, angle brackets, colon, double
    and single quote, and the vertical bar. *)
Definition allowed (c : N) : bool :=
  Str.is_word c || is_ws c
  || List.existsb (N.eqb c) [91; 93; 40; 41; 123; 125; 45; 62; 60; 58; 34; 39; 124]%N.

Definition blank (s : jsstring) : bool := Nat.eqb (length (trim s)) 0.

(** The callback mapped over the lines. *)
Definition fix_line (line : jsstring) : jsstring :=
  if blank line || has_diagram_type (trim line) then line
  else List.filter allowed line.

Definition validateAndFixMermaid (mermaidCode : jsstring) : jsstring :=
  if blank mermaidCode then []
  else
    let fixed := trim mermaidCode in
    let fixed :=
      if Str.starts_with (fence ++ js "mermaid") fixed then
        trim (remove_trailing_fence
                (remove_first_with_newline (fence ++ js "mermaid") fixed))
      else if Str.starts_with fence fixed then
        trim (remove_trailing_fence (remove_first_with_newline fence fixed))
      else fixed in
    let fixed := Str.replace_all (js ";") [Str.NL] fixed in
    let fixed := Str.replace_all (js "-->") (js " --> ") fixed in
    let fixed := Str.replace_all (js "---") (js " --- ") fixed in
    let lines := Str.split Str.NL fixed in
    let fixedLines := List.map fix_line lines in
    let fixed := Str.join [Str.NL] fixedLines in
    let fixed :=
      if has_diagram_type fixed then fixed else js "graph TD" ++ [Str.NL] ++ fixed in
    let fixed := collapse_newlines fixed in
    trim fixed.

End Mermaid.

(** ** Answer orchestrator ([AskService.askTextQuestion]) *)

Module AskService.

Inductive DoubtStatus := answered | pending | failed.

Record Code := { language : option jsstring; snippet : option jsstring }.

(** The answer object as the service reads it. [confidence] is
    [Number(answer.confidence)]: NaN when the field is absent or not
    numeric. [steps] is absent when the object has no such field. *)
Record Answer := {
  steps : option (list jsstring);
  explanation : option jsstring;
  finalAnswer : option jsstring;
  confidence : Num.number;
  mermaidCode : option jsstring;
  code : option Code
}.

Record Doubt (Ctx User : Type) := {
  userId : User;
  questionText : jsstring;
  answerSteps : list jsstring;
  d_explanation : option jsstring;
  d_finalAnswer : option jsstring;
  d_confidence : Num.number;
  retrievedContext : list Ctx;
  status : DoubtStatus;
  d_mermaidCode : jsstring;
  d_code : option Code;
  tags : list jsstring
}.
Arguments userId {Ctx User}. Arguments questionText {Ctx User}.
Arguments answerSteps {Ctx User}. Arguments d_explanation {Ctx User}.
Arguments d_finalAnswer {Ctx User}. Arguments d_confidence {Ctx User}.
Arguments retrievedContext {Ctx User}. Arguments status {Ctx User}.
Arguments d_mermaidCode {Ctx User}. Arguments d_code {Ctx User}.
Arguments tags {Ctx User}.

Record Options (Filter : Type) := {
  topK : option nat;
  filter : option Filter;
  o_tags : option (list jsstring)
}.
Arguments topK {Filter}. Arguments filter {Filter}. Arguments o_tags {Filter}.

(** The confidence written on an answered record:
    [Math.min(1, Math.max(0, (v > 1 ? v / 100 : v) || 0))]. *)
Definition rescale (v : Num.number) : Num.number :=
  if Num.gtb v Num.one then Num.div v Num.hundred else v.

Definition normalizeConfidence (v : Num.number) : Num.number :=
  Num.Math_min [Num.one; Num.Math_max [Num.zero; Num.or_else (rescale v) Num.zero]].

Definition codeToSave (c : option Code) : option Code :=
  match c with
  | Some c' =>
    match snippet c' with
    | Some s => if Mermaid.blank s then None else Some c'
    | None => None
    end
  | None => None
  end.

Definition failure_message : jsstring :=
  js "Failed to generate answer. Please try again.".

Section Ask.
Context {Ctx User Filter : Type}.

(** Collaborators. [create n d] is the [n]-th call of [Doubt.create] made
    by the request: [None] when the record is stored, the error thrown
    otherwise (validation or storage). *)
Variable retrieve : jsstring -> nat -> option Filter -> Result (list Ctx).
Variable askWithContext : jsstring -> list Ctx -> Result (option Answer).
Variable create : nat -> Doubt Ctx User -> option Error.

Definition answered_doubt (questionText : jsstring) (user : User)
    (options : Options Filter) (context : list Ctx) (answer : Answer)
    (answer_steps : list jsstring) : Doubt Ctx User :=
  {| userId := user;
     questionText := questionText;
     answerSteps := answer_steps;
     d_explanation := explanation answer;
     d_finalAnswer := finalAnswer answer;
     d_confidence := normalizeConfidence (confidence answer);
     retrievedContext := context;
     status := answered;
     d_mermaidCode :=
       Mermaid.validateAndFixMermaid
         (match mermaidCode answer with Some m => m | None => [] end);
     d_code := codeToSave (code answer);
     tags := match o_tags options with Some t => t | None => [] end |}.

Definition failed_doubt (questionText : jsstring) (user : User) : Doubt Ctx User :=
  {| userId := user;
     questionText := questionText;
     answerSteps := [];
     d_explanation := None;
     d_finalAnswer := Some failure_message;
     d_confidence := Num.zero;
     retrievedContext := [];
     status := failed;
     d_mermaidCode := [];
     d_code := None;
     tags := [] |}.

(** The body of the [try] block: the record stored and the answer, or the
    error thrown. *)
Definition pipeline (questionText : jsstring) (user : User) (options : Options Filter)
    (doubts : list (Doubt Ctx User))
  : Result (Doubt Ctx User * Answer) * list (Doubt Ctx User) :=
  let context :=
    match retrieve questionText
            (match topK options with Some (S k) => S k | _ => 5 end)
            (filter options) with
    | Returned c => c
    | Threw _ => []
    end in
  match askWithContext questionText context with
  | Threw e => (Threw e, doubts)
  | Returned None =>
    (Threw {| message := js "Cannot read properties of null (reading 'steps')" |}, doubts)
  | Returned (Some answer) =>
    match steps answer with
    | None =>
      (Threw {| message := js "Cannot read properties of undefined (reading 'length')" |},
       doubts)
    | Some answer_steps =>
      let doubt := answered_doubt questionText user options context answer answer_steps in
      match create 0 doubt with
      | Some e => (Threw e, doubts)
      | None => (Returned (doubt, answer), doubts ++ [doubt])
      end
    end
  end.

(** [askTextQuestion]: the [catch] block stores a failed record, ignoring
    a failure to do so, and rethrows. *)
Definition askTextQuestion (questionText : jsstring) (user : User)
    (options : Options Filter) (doubts : list (Doubt Ctx User))
  : Result (Doubt Ctx User * Answer) * list (Doubt Ctx User) :=
  match pipeline questionText user options doubts with
  | (Returned r, doubts') => (Returned r, doubts')
  | (Threw error, doubts') =>
    let doubts'' :=
      match create 1 (failed_doubt questionText user) with
      | None => doubts' ++ [failed_doubt questionText user]
      | Some _ => doubts'
      end in
    (Threw error, doubts'')
  end.

End Ask.

(** *** Streak and points ([updateUserStreak])

    Instants are milliseconds since the epoch; [points] and [streak] are
    whole numbers, far below the range where a JavaScript number stops
    being exact. *)

Record UserDoc := {
  points : Z;
  streak : Z;
  lastActiveDate : option Z
}.

(** The schema defaults of a new user. *)
Definition new_user : UserDoc :=
  {| points := 0; streak := 0; lastActiveDate := None |}.

Section Streak.
(** [date.setHours(0, 0, 0, 0)]: the start of the day of an instant, in
    the time zone of the server. *)
Variable startOfDay : Z -> Z.

(** The document as [updateUserStreak] saves it; [now] and [later] are the
    instants of its two [new Date()]. *)
Definition streak_update (user : UserDoc) (now later : Z) : UserDoc :=
  let today := startOfDay now in
  let streak1 :=
    match lastActiveDate user with
    | None => 1%Z
    | Some d =>
      let lastActive := startOfDay d in
      if (lastActive =? today)%Z then streak user
      else if (today - lastActive =? 86400000)%Z then (streak user + 1)%Z
      else 1%Z
    end in
  let points1 := (points user + 10)%Z in
  let points2 := if (1 <? streak1)%Z then (points1 + 5)%Z else points1 in
  let points3 := if (Z.rem streak1 7 =? 0)%Z then (points2 + 50)%Z else points2 in
  let points4 := if (Z.rem streak1 30 =? 0)%Z then (points3 + 200)%Z else points3 in
  {| points := points4; streak := streak1; lastActiveDate := Some later |}.

(** [updateUserStreak]: nothing for an unknown user; an error of
    [user.save()] is logged and swallowed. *)
Definition updateUserStreak (save : UserDoc -> option Error)
    (users : gmap positive UserDoc) (userId : positive) (now later : Z)
  : gmap positive UserDoc :=
  match users !! userId with
  | None => users
  | Some user =>
    let user := streak_update user now later in
    match save user with
    | None => <[userId := user]> users
    | Some _ => users
    end
  end.
End Streak.

(** *** Requests on stored doubts *)

(** A stored doubt, with the two schema paths the requests below write
    besides the diagram. *)
Record Stored (Ctx User : Type) := {
  doc : Doubt Ctx User;
  isBookmarked : bool;
  rating : option Num.number
}.
Arguments doc {Ctx User}. Arguments isBookmarked {Ctx User}.
Arguments rating {Ctx User}.

Definition with_mermaidCode {Ctx User} (d : Doubt Ctx User) (m : jsstring)
  : Doubt Ctx User :=
  {| userId := userId d; questionText := questionText d;
     answerSteps := answerSteps d; d_explanation := d_explanation d;
     d_finalAnswer := d_finalAnswer d; d_confidence := d_confidence d;
     retrievedContext := retrievedContext d; status := status d;
     d_mermaidCode := m; d_code := d_code d; tags := tags d |}.

Section Doubts.
Context {Ctx User : Type} `{EqDecision User}.

(** [doubt.save()] of the document stored under an id: [None] when it is
    stored, the error thrown otherwise. *)
Variable save : positive -> Stored Ctx User -> option Error.
(** The generation client's [askRaw], and the prompt assembled from the
    diagram type and the doubt. *)
Variable askRaw : jsstring -> Result jsstring.
Variable diagramPrompt : jsstring -> Stored Ctx User -> jsstring.

(** The owner-scoped [Doubt.findOne({ _id: doubtId, userId })]. *)
Definition findOne (doubts : gmap positive (Stored Ctx User)) (doubtId : positive)
    (user : User) : option (Stored Ctx User) :=
  match doubts !! doubtId with
  | Some d => if decide (userId (doc d) = user) then Some d else None
  | None => None
  end.

Definition getDoubtById (doubts : gmap positive (Stored Ctx User)) (doubtId : positive)
    (user : User) : Result (Stored Ctx User) :=
  match findOne doubts doubtId user with
  | Some doubt => Returned doubt
  | None => Threw {| message := js "Doubt not found" |}
  end.

Definition toggleBookmark (doubts : gmap positive (Stored Ctx User)) (doubtId : positive)
    (user : User) : Result (Stored Ctx User) * gmap positive (Stored Ctx User) :=
  match findOne doubts doubtId user with
  | None => (Threw {| message := js "Doubt not found" |}, doubts)
  | Some doubt =>
    let doubt := {| doc := doc doubt; isBookmarked := negb (isBookmarked doubt);
                    rating := rating doubt |} in
    match save doubtId doubt with
    | Some error => (Threw error, doubts)
    | None => (Returned doubt, <[doubtId := doubt]> doubts)
    end
  end.

Definition rateDoubt (doubts : gmap positive (Stored Ctx User)) (doubtId : positive)
    (user : User) (r : Num.number)
  : Result (Stored Ctx User) * gmap positive (Stored Ctx User) :=
  match findOne doubts doubtId user with
  | None => (Threw {| message := js "Doubt not found" |}, doubts)
  | Some doubt =>
    if Num.ltb r Num.one || Num.gtb r (Num.of_Z 5) then
      (Threw {| message := js "Rating must be between 1 and 5" |}, doubts)
    else
      let doubt := {| doc := doc doubt; isBookmarked := isBookmarked doubt;
                      rating := Some r |} in
      match save doubtId doubt with
      | Some error => (Threw error, doubts)
      | None => (Returned doubt, <[doubtId := doubt]> doubts)
      end
  end.

(** [deleteDoubt]: [Doubt.deleteOne({ _id: doubtId, userId })], an error
    when nothing was deleted. *)
Definition deleteDoubt (doubts : gmap positive (Stored Ctx User)) (doubtId : positive)
    (user : User) : Result bool * gmap positive (Stored Ctx User) :=
  match findOne doubts doubtId user with
  | Some _ => (Returned true, delete doubtId doubts)
  | None => (Threw {| message := js "Doubt not found or unauthorized" |}, doubts)
  end.

(** [generateDiagram]: the diagram asked from the model, repaired, stored
    on the doubt and returned. *)
Definition generateDiagram (doubts : gmap positive (Stored Ctx User)) (doubtId : positive)
    (user : User) (diagramType : jsstring)
  : Result jsstring * gmap positive (Stored Ctx User) :=
  match findOne doubts doubtId user with
  | None => (Threw {| message := js "Doubt not found or unauthorized" |}, doubts)
  | Some doubt =>
    match askRaw (diagramPrompt diagramType doubt) with
    | Threw error => (Threw error, doubts)
    | Returned response =>
      let validatedMermaidCode := Mermaid.validateAndFixMermaid response in
      let doubt := {| doc := with_mermaidCode (doc doubt) validatedMermaidCode;
                      isBookmarked := isBookmarked doubt; rating := rating doubt |} in
      match save doubtId doubt with
      | Some error => (Threw error, doubts)
      | None => (Returned validatedMermaidCode, <[doubtId := doubt]> doubts)
      end
    end
  end.

End Doubts.
End AskService.

(** ** Ingestion orchestrator (media controller)

    The frame collection is a finite map from [_id] to document. Requests
    are handled one at a time; the processing that [extractCrop] starts
    without awaiting it is kept as a pending task and run by a step of its
    own. The document store rejects the documents that fail the schema
    validators and is otherwise assumed not to fail; the storage, OCR,
    rasterizer and vision collaborators may throw. *)

Module Media.

Inductive SourceType := image | pdf_page | crop.
Inductive Status := queued | processing | completed | failed.

#[global] Instance SourceType_eq_dec : EqDecision SourceType.
Proof. solve_decision. Defined.
#[global] Instance Status_eq_dec : EqDecision Status.
Proof. solve_decision. Defined.

Definition FrameId := positive.
Definition User := positive.

Record BBox := { x0 : Num.number; y0 : Num.number; x1 : Num.number; y1 : Num.number }.

Record Word := {
  w_text : jsstring;
  w_confidence : Num.number;
  bbox : option BBox
}.

(** What [ocrService.extractText] resolves to; [o_words] is [raw.words]. *)
Record OcrResult := {
  o_text : jsstring;
  o_confidence : Num.number;
  o_words : list Word
}.

(** What [visionService.extractConcepts] resolves to, the tags and the
    difficulty being what the schema casts them to. *)
Record Concepts := { c_conceptTags : list jsstring; c_difficulty : jsstring }.

(** A frame document. [ocrWords] is [ocrRaw.words], absent on the default
    [ocrRaw] ([{}]). Upload bookkeeping (lecture, dimensions, file size,
    mime type, crop rectangle, timestamps) is left out: a request carries
    no [lectureId] or a well-formed one, and numbers where the schema has
    numbers. *)
Record Frame := {
  createdBy : User;
  sourceType : SourceType;
  sourceUrl : jsstring;
  cropUrl : option jsstring;
  pdfId : option FrameId;
  pageNumber : option nat;
  status : Status;
  processingError : option jsstring;
  ocrText : jsstring;
  ocrWords : option (list Word);
  ocrConfidence : Num.number;
  conceptTags : list jsstring;
  difficulty : jsstring
}.

(** The collection, the next fresh [_id], the processing started but not
    awaited, and the history of every status written (a ghost record, in
    order). *)
Record Store := {
  frames : gmap positive Frame;
  next_id : positive;
  pending : list (FrameId * jsstring);
  writes : list (FrameId * Status)
}.

Definition empty_store : Store :=
  {| frames := ∅; next_id := 1%positive; pending := []; writes := [] |}.

Record Rect := {
  r_x : option Num.number;
  r_y : option Num.number;
  r_width : option Num.number;
  r_height : option Num.number
}.

(** A rasterized page of a document. *)
Record Page := { p_pageNumber : nat; p_imageBuffer : jsstring }.

(** The collaborators, as they answer during one request; buffers are
    byte strings. [validationError] is the error the document store raises
    for a document that the schema validators reject (its message names
    the failing paths). *)
Record Env := {
  upload : jsstring -> jsstring -> Result jsstring;           (* buffer, folder: url *)
  extractText : option jsstring -> Result OcrResult;          (* image url *)
  extractConcepts : jsstring -> jsstring -> Result Concepts;  (* url, text *)
  getMetadata : jsstring -> Result unit;                      (* buffer *)
  convertToImages : jsstring -> Result (list Page);           (* buffer *)
  download : jsstring -> Result jsstring;                     (* url: buffer *)
  cropImage : jsstring -> Rect -> Result jsstring;            (* buffer, rectangle *)
  validationError : Frame -> Error                            (* rejected document *)
}.

Inductive Reply (A : Type) :=
| Success (code : nat) (data : A)
| Failure (code : nat).
Arguments Success {A}. Arguments Failure {A}.

Definition with_status (f : Frame) (s : Status) : Frame :=
  {| createdBy := createdBy f; sourceType := sourceType f; sourceUrl := sourceUrl f;
     cropUrl := cropUrl f; pdfId := pdfId f; pageNumber := pageNumber f;
     status := s; processingError := processingError f; ocrText := ocrText f;
     ocrWords := ocrWords f; ocrConfidence := ocrConfidence f;
     conceptTags := conceptTags f; difficulty := difficulty f |}.

Definition with_failure (f : Frame) (msg : jsstring) : Frame :=
  {| createdBy := createdBy f; sourceType := sourceType f; sourceUrl := sourceUrl f;
     cropUrl := cropUrl f; pdfId := pdfId f; pageNumber := pageNumber f;
     status := failed; processingError := Some msg; ocrText := ocrText f;
     ocrWords := ocrWords f; ocrConfidence := ocrConfidence f;
     conceptTags := conceptTags f; difficulty := difficulty f |}.

Definition with_ocr (f : Frame) (r : OcrResult) : Frame :=
  {| createdBy := createdBy f; sourceType := sourceType f; sourceUrl := sourceUrl f;
     cropUrl := cropUrl f; pdfId := pdfId f; pageNumber := pageNumber f;
     status := completed; processingError := processingError f; ocrText := o_text r;
     ocrWords := Some (o_words r); ocrConfidence := o_confidence r;
     conceptTags := conceptTags f; difficulty := difficulty f |}.

Definition with_concepts (f : Frame) (c : Concepts) : Frame :=
  {| createdBy := createdBy f; sourceType := sourceType f; sourceUrl := sourceUrl f;
     cropUrl := cropUrl f; pdfId := pdfId f; pageNumber := pageNumber f;
     status := status f; processingError := processingError f; ocrText := ocrText f;
     ocrWords := ocrWords f; ocrConfidence := ocrConfidence f;
     conceptTags := c_conceptTags c; difficulty := c_difficulty c |}.

(** The document handed to [Frame.create], with the schema defaults for
    what the caller does not give. *)
Definition new_frame (user : User) (ty : SourceType) (url : jsstring)
    (crop_url : option jsstring) (parent : option FrameId) (page : option nat)
    (s : Status) : Frame :=
  {| createdBy := user; sourceType := ty; sourceUrl := url; cropUrl := crop_url;
     pdfId := parent; pageNumber := page; status := s; processingError := None;
     ocrText := []; ocrWords := None; ocrConfidence := Num.zero;
     conceptTags := []; difficulty := js "unknown" |}.

(** The validators of the Frame schema that can reject a document of this
    model: [sourceUrl] is required, which an empty string does not
    satisfy; [ocrConfidence] has [min: 0] and [max: 1]; [difficulty] is
    one of the enum values. The other paths of the model are given by
    the handlers with values their validators accept. *)
Definition difficulties : list jsstring :=
  [js "easy"; js "medium"; js "hard"; js "unknown"].

Definition valid (f : Frame) : bool :=
  negb (Nat.eqb (length (sourceUrl f)) 0)
  && Num.in_unit (ocrConfidence f)
  && bool_decide (difficulty f ∈ difficulties).

(** The insertion of a document under a fresh [_id]. *)
Definition insertOne (st : Store) (f : Frame) : FrameId * Store :=
  (next_id st,
   {| frames := <[next_id st := f]> (frames st);
      next_id := Pos.succ (next_id st);
      pending := pending st;
      writes := writes st ++ [(next_id st, status f)] |}).

(** The write of document [f] under [id], which sets its status. *)
Definition updateOne (st : Store) (id : FrameId) (f : Frame) : Store :=
  {| frames := <[id := f]> (frames st);
     next_id := next_id st;
     pending := pending st;
     writes := writes st ++ [(id, status f)] |}.

(** [Frame.create]: the document is validated, then inserted. *)
Definition create (env : Env) (st : Store) (f : Frame) : Result (FrameId * Store) :=
  if valid f then Returned (insertOne st f) else Threw (validationError env f).

(** [frame.save()]: the document is validated, then written. *)
Definition save (env : Env) (st : Store) (id : FrameId) (f : Frame) : Result Store :=
  if valid f then Returned (updateOne st id f) else Threw (validationError env f).

(** [Frame.findByIdAndUpdate(id, {status, ...})]: nothing when absent; no
    validator runs. *)
Definition findByIdAndUpdate (st : Store) (id : FrameId) (upd : Frame -> Frame) : Store :=
  match frames st !! id with
  | Some f => updateOne st id (upd f)
  | None => st
  end.

Definition default_concepts : Concepts :=
  {| c_conceptTags := []; c_difficulty := js "unknown" |}.

(** [processImageImmediately]: the processed frame, or [None] for the
    [undefined] and [null] it returns otherwise. Every throw inside the
    [try], those of the two [frame.save()] included, reaches the [catch],
    which marks the frame failed with the message of the error. *)
Definition processImageImmediately (env : Env) (st : Store) (frameId : FrameId)
    (imageUrl : jsstring) : Store * option Frame :=
  match frames st !! frameId with
  | None => (st, None)
  | Some frame =>
    let caught (st : Store) (error : Error) : Store * option Frame :=
      (findByIdAndUpdate st frameId (fun f => with_failure f (message error)), None) in
    match save env st frameId (with_status frame processing) with
    | Threw error => caught st error
    | Returned st =>
      match extractText env (Some imageUrl) with
      | Threw error => caught st error
      | Returned ocrResult =>
        let concepts :=
          match extractConcepts env imageUrl (o_text ocrResult) with
          | Returned c => c
          | Threw _ => default_concepts
          end in
        let frame := with_concepts (with_ocr frame ocrResult) concepts in
        match save env st frameId frame with
        | Threw error => caught st error
        | Returned st => (st, Some frame)
        end
      end
    end
  end.

(** The page loop of [processPdfImmediately]; an upload or a
    [Frame.create] that throws leaves the loop for the outer [catch]. *)
Fixpoint process_pages (env : Env) (st : Store) (pdfFrameId : FrameId) (user : User)
    (pages : list Page) (pageFrames : list (FrameId * option Frame))
  : Store * Result (list (FrameId * option Frame)) :=
  match pages with
  | [] => (st, Returned pageFrames)
  | page :: rest =>
    match upload env (p_imageBuffer page) (js "ayursetu/pdf-pages") with
    | Threw e => (st, Threw e)
    | Returned url =>
      match create env st (new_frame user pdf_page url None (Some pdfFrameId)
                             (Some (p_pageNumber page)) queued) with
      | Threw e => (st, Threw e)
      | Returned (pageId, st) =>
        let '(st, processed) := processImageImmediately env st pageId url in
        process_pages env st pdfFrameId user rest (pageFrames ++ [(pageId, processed)])
      end
    end
  end.

Definition processPdfImmediately (env : Env) (st : Store) (pdfFrameId : FrameId)
    (pdfBuffer : jsstring) (user : User) : Store * list (FrameId * option Frame) :=
  let fail st (e : Error) :=
    (findByIdAndUpdate st pdfFrameId (fun f => with_failure f (message e)), []) in
  match convertToImages env pdfBuffer with
  | Threw e => fail st e
  | Returned pages =>
    match process_pages env st pdfFrameId user pages [] with
    | (st, Threw e) => fail st e
    | (st, Returned pageFrames) =>
      (findByIdAndUpdate st pdfFrameId (fun f => with_status f completed), pageFrames)
    end
  end.

(** [POST /api/media/upload-image] *)
Definition uploadImage (env : Env) (st : Store) (user : User) (file : option jsstring)
  : Store * Reply (option Frame) :=
  match file with
  | None => (st, Failure 400)
  | Some buffer =>
    match upload env buffer (js "ayursetu/images") with
    | Threw _ => (st, Failure 500)
    | Returned url =>
      match create env st (new_frame user image url None None None queued) with
      | Threw _ => (st, Failure 500)
      | Returned (id, st) =>
        let '(st, _) := processImageImmediately env st id url in
        (st, Success 201 (frames st !! id))
      end
    end
  end.

(** [POST /api/media/upload-pdf] *)
Definition uploadPdf (env : Env) (st : Store) (user : User) (file : option jsstring)
  : Store * Reply (FrameId * list (FrameId * option Frame)) :=
  match file with
  | None => (st, Failure 400)
  | Some buffer =>
    match upload env buffer (js "ayursetu/pdfs") with
    | Threw _ => (st, Failure 500)
    | Returned url =>
      match getMetadata env buffer with
      | Threw _ => (st, Failure 500)
      | Returned _ =>
        match create env st (new_frame user pdf_page url None None None processing) with
        | Threw _ => (st, Failure 500)
        | Returned (id, st) =>
          let '(st, pageFrames) := processPdfImmediately env st id buffer user in
          (st, Success 201 (id, pageFrames))
        end
      end
    end
  end.

(** The owner-scoped [Frame.findOne({ _id, createdBy })]. *)
Definition findOne (st : Store) (id : FrameId) (user : User) : option Frame :=
  match frames st !! id with
  | Some f => if decide (createdBy f = user) then Some f else None
  | None => None
  end.

Definition falsy (v : option Num.number) : bool :=
  match v with Some n => negb (Num.truthy n) | None => true end.

(** [POST /api/media/extract-crop]; the crop is processed without being
    awaited, and the reply carries the crop as created. *)
Definition extractCrop (env : Env) (st : Store) (user : User)
    (frameId : option FrameId) (rect : Rect) : Store * Reply FrameId :=
  match frameId, r_x rect, r_y rect with
  | Some frameId, Some _, Some _ =>
    if falsy (r_width rect) || falsy (r_height rect) then (st, Failure 400)
    else
      match findOne st frameId user with
      | None => (st, Failure 404)
      | Some sourceFrame =>
        match download env (sourceUrl sourceFrame) with
        | Threw _ => (st, Failure 500)
        | Returned imageBuffer =>
          match cropImage env imageBuffer rect with
          | Threw _ => (st, Failure 500)
          | Returned croppedBuffer =>
            match upload env croppedBuffer (js "ayursetu/crops") with
            | Threw _ => (st, Failure 500)
            | Returned url =>
              match create env st (new_frame user crop (sourceUrl sourceFrame) (Some url)
                                     (Some frameId) None queued) with
              | Threw _ => (st, Failure 500)
              | Returned (id, st) =>
                ({| frames := frames st; next_id := next_id st;
                    pending := pending st ++ [(id, url)];
                    writes := writes st |},
                 Success 201 id)
              end
            end
          end
        end
      end
  | _, _, _ => (st, Failure 400)
  end.

(** The [n]-th processing started by [extractCrop] runs. *)
Definition runPending (env : Env) (st : Store) (n : nat) : Store :=
  match pending st !! n with
  | None => st
  | Some (id, url) =>
    fst (processImageImmediately env
           {| frames := frames st; next_id := next_id st;
              pending := delete n (pending st); writes := writes st |}
           id url)
  end.

(** The filter callback of the region extraction: the centre of the
    word's box against the rectangle. *)
Definition in_region (x y width height : Num.number) (word : Word) : bool :=
  match bbox word with
  | None => false
  | Some b =>
    let centerX := Num.div (Num.add (x0 b) (x1 b)) Num.two in
    let centerY := Num.div (Num.add (y0 b) (y1 b)) Num.two in
    Num.geb centerX x && Num.leb centerX (Num.add x width)
    && Num.geb centerY y && Num.leb centerY (Num.add y height)
  end.

Definition selectWords (x y width height : Num.number) (words : list Word) : list Word :=
  List.filter (in_region x y width height) words.

Definition has_words (f : Frame) : bool :=
  match ocrWords f with
  | Some (_ :: _) => true
  | _ => false
  end.

(** [POST /api/media/extract-region]: the extracted text and the word
    count. The frame has no [previewUrl] path, so the on-demand OCR is
    called with [undefined]; a throw of the OCR or of [frame.save()]
    reaches the [catch] of the handler. *)
Definition extractTextFromRegion (env : Env) (st : Store) (user : User)
    (frameId : option FrameId) (rect : Rect) : Store * Reply (jsstring * nat) :=
  match frameId, r_x rect, r_y rect, r_width rect, r_height rect with
  | Some frameId, Some x, Some y, Some width, Some height =>
    match frames st !! frameId with
    | None => (st, Failure 404)
    | Some frame =>
      if negb (bool_decide (createdBy frame = user)) then (st, Failure 403)
      else
        let fetched : Result (Store * Frame) :=
          if has_words frame then Returned (st, frame)
          else
            match extractText env None with
            | Threw e => Threw e
            | Returned ocrResult =>
              let frame := with_ocr frame ocrResult in
              match save env st frameId frame with
              | Threw e => Threw e
              | Returned st => Returned (st, frame)
              end
            end in
        match fetched with
        | Threw _ => (st, Failure 500)
        | Returned (st, frame) =>
          let selectedWords :=
            selectWords x y width height
              (match ocrWords frame with Some ws => ws | None => [] end) in
          let extractedText := Str.join (js " ") (List.map w_text selectedWords) in
          (st, Success 200 (extractedText, length selectedWords))
        end
    end
  | _, _, _, _, _ => (st, Failure 400)
  end.

(** [DELETE /api/media/frames/:id]. The schema has no [parentPdfId] path,
    so [!frame.parentPdfId] holds for every frame. *)
Definition parentPdfId (f : Frame) : option FrameId := None.

Definition deleteMany_pdfId (st : Store) (id : FrameId) : Store :=
  {| frames := filter (fun kv => pdfId (snd kv) <> Some id) (frames st);
     next_id := next_id st; pending := pending st; writes := writes st |}.

Definition findByIdAndDelete (st : Store) (id : FrameId) : Store :=
  {| frames := delete id (frames st);
     next_id := next_id st; pending := pending st; writes := writes st |}.

Definition deleteFrame (st : Store) (user : User) (id : FrameId) : Store * Reply unit :=
  match findOne st id user with
  | None => (st, Failure 404)
  | Some frame =>
    let st :=
      if bool_decide (sourceType frame = pdf_page)
         && negb (bool_decide (is_Some (parentPdfId frame)))
      then deleteMany_pdfId st id else st in
    (findByIdAndDelete st id, Success 200 tt)
  end.

(** One request, or one run of a pending processing. *)
Inductive Op :=
| UploadImage (env : Env) (user : User) (file : option jsstring)
| UploadPdf (env : Env) (user : User) (file : option jsstring)
| ExtractCrop (env : Env) (user : User) (frameId : option FrameId) (rect : Rect)
| ExtractRegion (env : Env) (user : User) (frameId : option FrameId) (rect : Rect)
| DeleteFrame (user : User) (id : FrameId)
| RunPending (env : Env) (n : nat).

Definition step (st : Store) (op : Op) : Store :=
  match op with
  | UploadImage env user file => fst (uploadImage env st user file)
  | UploadPdf env user file => fst (uploadPdf env st user file)
  | ExtractCrop env user frameId rect => fst (extractCrop env st user frameId rect)
  | ExtractRegion env user frameId rect =>
    fst (extractTextFromRegion env st user frameId rect)
  | DeleteFrame user id => fst (deleteFrame st user id)
  | RunPending env n => runPending env st n
  end.

Definition run (ops : list Op) : Store := fold_left step ops empty_store.

(** The statuses written to frame [id], in order. *)
Definition history (id : FrameId) (st : Store) : list Status :=
  List.map snd (List.filter (fun e => bool_decide (fst e = id)) (writes st)).

(** The transitions of the ingestion state machine. *)
Definition transition (a b : Status) : bool :=
  match a, b with
  | queued, processing | processing, completed | processing, failed => true
  | _, _ => false
  end.

Fixpoint follows_machine (h : list Status) : bool :=
  match h with
  | a :: ((b :: _) as h') => transition a b && follows_machine h'
  | _ => true
  end.

(** [completed] never occurs without an earlier [processing]. *)
Fixpoint completed_after_processing (seen : bool) (h : list Status) : bool :=
  match h with
  | [] => true
  | s :: h' =>
    match s with
    | completed => seen && completed_after_processing seen h'
    | processing => completed_after_processing true h'
    | _ => completed_after_processing seen h'
    end
  end.

End Media.

(** ** OCR service

    The recognition engine is a collaborator; the image is the URL the
    controller passes, or [None] for [undefined]. *)

Module Ocr.

(** What the engine resolves to ([result.data]); confidences are
    percentages and [d_words] may be absent. The [lines] of the result,
    which no caller reads, are left out. *)
Record EngineWord := {
  ew_text : jsstring;
  ew_confidence : Num.number;
  ew_bbox : option Media.BBox
}.

Record EngineData := {
  d_text : jsstring;
  d_confidence : Num.number;
  d_words : option (list EngineWord)
}.

(** The result of a vision model: text and confidence, no boxes. *)
Record Vision := { v_text : jsstring; v_confidence : Num.number }.

(** The two environment variables the service reads. *)
Record Config := {
  CLAUDE_API_KEY : option jsstring;
  OPENAI_API_KEY : option jsstring
}.

(** ToBoolean on an environment variable. *)
Definition is_set (v : option jsstring) : bool :=
  match v with Some (_ :: _) => true | _ => false end.

Section Service.
Variable recognize : option jsstring -> Result EngineData.
Variable config : Config.

Definition percent (c : Num.number) : Num.number := Num.div c Num.hundred.

Definition extractWithTesseract (image : option jsstring) : Result Media.OcrResult :=
  match recognize image with
  | Returned data =>
    Returned
      {| Media.o_text := trim (d_text data);
         Media.o_confidence := percent (d_confidence data);
         Media.o_words :=
           List.map
             (fun w => {| Media.w_text := ew_text w;
                          Media.w_confidence := percent (ew_confidence w);
                          Media.bbox := ew_bbox w |})
             (match d_words data with Some ws => ws | None => [] end) |}
  | Threw error =>
    Threw {| message := js "Tesseract OCR failed: " ++ message error |}
  end.

(** The class defines no [extractWithGPT4V]: calling it is a TypeError. *)
Definition extractWithGPT4V (imageUrl : jsstring) : Result (option Vision) :=
  Threw {| message := js "this.extractWithGPT4V is not a function" |}.

(** [extractWithVision]: [null] without a key; the Claude branch only
    logs; every error is answered with [null]. *)
Definition extractWithVision (imageUrl : jsstring) : option Vision :=
  if negb (is_set (CLAUDE_API_KEY config) || is_set (OPENAI_API_KEY config)) then None
  else if is_set (OPENAI_API_KEY config) then
    match extractWithGPT4V imageUrl with
    | Returned v => v
    | Threw _ => None
    end
  else None.

(** [extractText]: the engine first; on a web URL and with a key set, the
    vision text replaces the text and the higher confidence is kept. *)
Definition extractText (image : option jsstring) : Result Media.OcrResult :=
  match extractWithTesseract image with
  | Threw error => Threw error
  | Returned tesseractResult =>
    match image with
    | Some url =>
      if Str.starts_with (js "http") url
         && (is_set (CLAUDE_API_KEY config) || is_set (OPENAI_API_KEY config))
      then
        match extractWithVision url with
        | Some visionResult =>
          match v_text visionResult with
          | [] => Returned tesseractResult
          | _ =>
            Returned
              {| Media.o_text := v_text visionResult;
                 Media.o_confidence :=
                   Num.Math_max [Media.o_confidence tesseractResult;
                                 v_confidence visionResult];
                 Media.o_words := Media.o_words tesseractResult |}
          end
        | None => Returned tesseractResult
        end
      else Returned tesseractResult
    | None => Returned tesseractResult
    end
  end.

End Service.
End Ocr.

(** * Properties *)

(** ** Strings *)

Lemma trimStart_length s : length (trimStart s) <= length s.
Proof.
  induction s as [|c s IH]; simpl; [lia|].
  destruct (is_ws c); simpl; lia.
Qed.

Lemma trim_length s : length (trim s) <= length s.
Proof.
  unfold trim, trimEnd. rewrite length_rev.
  etransitivity; [apply trimStart_length|].
  rewrite length_rev. apply trimStart_length.
Qed.

Lemma substring_length s a b :
  (0 <= a <= b)%Z -> (Z.of_nat (length (substring s a b)) <= b - a)%Z.
Proof.
  intros Hab. unfold substring.
  rewrite length_firstn. lia.
Qed.

(** ** Chunker *)

Section ChunkerProofs.
Context {M : Type}.
Variable e : Embedder.t.
Hypothesis overlap_nonneg : (0 <= Embedder.overlapChars e)%Z.
Hypothesis size_above_overlap :
  (Embedder.overlapChars e < Embedder.chunkSizeChars e)%Z.

Definition chunk_bounded (c : Embedder.Chunk M) : Prop :=
  (Z.of_nat (length (Embedder.text c)) <= Embedder.chunkSizeChars e)%Z.

(** The loop returns as soon as the fuel exceeds the distance from the
    start index to the end of the text, and keeps every chunk bounded. *)
Lemma chunk_loop_returns (txt : jsstring) (meta : M) :
  forall fuel startIndex chunks,
    (0 <= startIndex)%Z ->
    (Z.of_nat (length txt) - startIndex <= Z.of_nat fuel)%Z ->
    Forall chunk_bounded chunks ->
    exists out,
      Embedder.chunk_loop e (S fuel) txt meta startIndex chunks = Some out
      /\ Forall chunk_bounded out.
Proof.
  induction fuel as [|fuel IH]; intros startIndex chunks Hs Hfuel Hall;
    cbn [Embedder.chunk_loop];
    (destruct (Z.ltb_spec startIndex (Z.of_nat (length txt))) as [Hlt|Hge];
      [|eauto]).
  - lia.
  - set (endIndex := Z.min (startIndex + Embedder.chunkSizeChars e)
                           (Z.of_nat (length txt))).
    set (piece := trim (substring txt startIndex endIndex)).
    assert (Hend : (startIndex <= endIndex)%Z) by (unfold endIndex; lia).
    assert (Hpiece : (Z.of_nat (length piece) <= Embedder.chunkSizeChars e)%Z).
    { unfold piece.
      pose proof (trim_length (substring txt startIndex endIndex)).
      pose proof (substring_length txt startIndex endIndex ltac:(lia)).
      unfold endIndex in *. lia. }
    set (chunks' := if (0 <? length piece)%nat then _ else chunks).
    assert (Hall' : Forall chunk_bounded chunks').
    { unfold chunks'. destruct (0 <? length piece)%nat; [|assumption].
      apply Forall_app; split; [assumption|].
      constructor; [exact Hpiece|constructor]. }
    destruct (Z.geb_spec (endIndex - Embedder.overlapChars e)
                         (Z.of_nat (length txt) - Embedder.overlapChars e))
      as [Hstop|Hgo]; [eauto|].
    assert (endIndex = startIndex + Embedder.chunkSizeChars e)%Z
      by (unfold endIndex in *; lia).
    apply IH; [lia|lia|exact Hall'].
Qed.

(** C6. With a chunk size strictly above the overlap, [chunkText] returns
    within [length text + 1] iterations of its loop for every text, short
    tails included, and the text of every chunk it produces has at most
    [chunkSize] characters. *)
Theorem chunkText_terminates_bounded (txt : jsstring) (meta : M) :
  exists chunks,
    Embedder.chunkText e (S (length txt)) txt meta = Some chunks
    /\ Forall chunk_bounded chunks.
Proof.
  unfold Embedder.chunkText.
  apply chunk_loop_returns; [lia|lia|constructor].
Qed.

End ChunkerProofs.

(** The constructor's values satisfy the two assumptions; a text of 3000
    characters is cut into three chunks. *)
Lemma chunkText_terminates_bounded_witness :
  exists chunks,
    Embedder.chunkText Embedder.default 3001 (repeat 97%N 3000) tt = Some chunks
    /\ Forall (chunk_bounded Embedder.default) chunks.
Proof.
  apply (chunkText_terminates_bounded Embedder.default); vm_compute; congruence.
Defined.

(** ** Numbers *)

Lemma ltb_leb a b : Num.ltb a b = true -> Num.leb a b = true.
Proof.
  unfold Num.ltb, Num.leb, SFltb, SFleb.
  destruct (SFcompare a b) as [[]|]; congruence.
Qed.

Lemma eqb_refl_finite s m e :
  Num.eqb (S754_finite s m e) (S754_finite s m e) = true.
Proof.
  unfold Num.eqb, SFeqb, SFcompare.
  rewrite Z.compare_refl, Pos.compare_cont_refl. destruct s; reflexivity.
Qed.

(** Comparing equal to a positive finite number means being that number. *)
Lemma compare_Eq_finite m e m' e' :
  SFcompare (S754_finite false m e) (S754_finite false m' e') = Some Eq ->
  m = m' /\ e = e'.
Proof.
  unfold SFcompare.
  destruct (Z.compare_spec e e') as [->| |]; try discriminate.
  intros H. injection H as H. apply Pos.compare_eq in H. auto.
Qed.

Lemma compare_antisym_finite m e m' e' :
  SFcompare (S754_finite false m' e') (S754_finite false m e)
  = option_map CompOpp (SFcompare (S754_finite false m e) (S754_finite false m' e')).
Proof.
  unfold SFcompare. rewrite (Z.compare_antisym e e').
  destruct (e ?= e')%Z; simpl; try reflexivity.
  f_equal. rewrite (Pos.compare_cont_antisym m m' Eq). reflexivity.
Qed.

(** ** Confidence normalization *)

(** The clamp applied after rescaling: [Math.min(1, Math.max(0, r || 0))]. *)
Definition clamp (r : Num.number) : Num.number :=
  Num.Math_min [Num.one; Num.Math_max [Num.zero; Num.or_else r Num.zero]].

Lemma clamp_cases r :
  clamp r = (if Num.truthy r then
               if Num.gtb r Num.zero then
                 if Num.ltb r Num.one then r else Num.one
               else Num.zero
             else Num.zero).
Proof.
  destruct r as [s|s| |s m e]; try reflexivity.
  - destruct s; reflexivity.
  - destruct s; [reflexivity|].
    unfold clamp, Num.or_else, Num.truthy, Num.Math_max.
    cbn [existsb Num.is_nan Num.zero orb fold_left Num.is_pos_zero
         Num.is_neg_zero andb].
    change (Num.gtb Num.zero (S754_infinity true)) with true. cbv iota.
    change (Num.gtb (S754_finite false m e) (S754_zero false)) with true.
    cbv iota. unfold Num.Math_min.
    cbn [existsb Num.is_nan Num.one orb fold_left Num.is_pos_zero
         Num.is_neg_zero andb].
    change (Num.ltb (S754_finite false 4503599627370496 (-52))
                    (S754_infinity false)) with true.
    cbv iota. reflexivity.
Qed.

Lemma clamp_in_unit r : Num.in_unit (clamp r) = true.
Proof.
  rewrite clamp_cases.
  destruct (Num.truthy r); [|reflexivity].
  destruct (Num.gtb r Num.zero) eqn:Hpos; [|reflexivity].
  destruct (Num.ltb r Num.one) eqn:Hlt; [|reflexivity].
  unfold Num.in_unit. rewrite (ltb_leb _ _ Hpos), (ltb_leb _ _ Hlt). reflexivity.
Qed.

Lemma clamp_inside r :
  Num.in_unit r = true -> Num.eqb (clamp r) r = true.
Proof.
  rewrite clamp_cases. unfold Num.in_unit. intros H.
  apply andb_prop in H as [H0 H1].
  destruct r as [s|s| |s m e]; try (destruct s; discriminate || reflexivity).
  - discriminate.
  - destruct s; [discriminate|].
    cbn [Num.truthy].
    change (Num.gtb (S754_finite false m e) Num.zero) with true. cbv iota.
    destruct (Num.ltb (S754_finite false m e) Num.one) eqn:Hlt.
    + apply eqb_refl_finite.
    + assert (Heq : SFcompare (S754_finite false m e) Num.one = Some Eq).
      { revert H1 Hlt. unfold Num.leb, Num.ltb, SFleb, SFltb.
        destruct (SFcompare (S754_finite false m e) Num.one) as [[]|];
          congruence. }
      apply compare_Eq_finite in Heq as [-> ->]. reflexivity.
Qed.

Lemma clamp_above r : Num.gtb r Num.one = true -> clamp r = Num.one.
Proof.
  rewrite clamp_cases. intros H.
  destruct r as [s|s| |s m e]; try (destruct s; discriminate || reflexivity).
  - discriminate.
  - destruct s; [discriminate|].
    cbn [Num.truthy].
    change (Num.gtb (S754_finite false m e) Num.zero) with true. cbv iota.
    replace (Num.ltb (S754_finite false m e) Num.one) with false; [reflexivity|].
    revert H. unfold Num.gtb, Num.ltb, SFltb, Num.one.
    rewrite (compare_antisym_finite m e).
    destruct (SFcompare (S754_finite false m e) _) as [[]|]; simpl; congruence.
Qed.

Lemma clamp_below r :
  Num.ltb r Num.zero = true \/ Num.is_nan r = true -> clamp r = Num.zero.
Proof.
  rewrite clamp_cases.
  destruct r as [s|s| |s m e]; intros [H|H];
    try discriminate; try reflexivity; destruct s; discriminate || reflexivity.
Qed.

Section ConfidenceProofs.
Context {Ctx User Filter : Type}.
Variable retrieve : jsstring -> nat -> option Filter -> Result (list Ctx).
Variable askWithContext : jsstring -> list Ctx -> Result (option AskService.Answer).
Variable create : nat -> AskService.Doubt Ctx User -> option Error.

(** C1, as the code has it. Every record [askTextQuestion] adds to the
    collection, answered or failed, has a confidence within [0, 1]. When
    it returns, the record it added is the one it returns, built from the
    answer the generation client gave; with [v] the raw confidence of that
    answer and [r] the rescaled value ([v / 100] when [v > 1], [v]
    otherwise), the confidence stored on the record is [r] whenever [r]
    lies in [0, 1], it is 1 when [r] exceeds 1, and 0 when [r] is negative
    or not a number. *)
Theorem askTextQuestion_stored_confidence (q : jsstring) (user : User)
    (options : AskService.Options Filter)
    (doubts doubts' : list (AskService.Doubt Ctx User))
    (result : Result (AskService.Doubt Ctx User * AskService.Answer)) :
  AskService.askTextQuestion retrieve askWithContext create q user options doubts
  = (result, doubts') ->
  (exists new, doubts' = doubts ++ new
     /\ Forall (fun d => Num.in_unit (AskService.d_confidence d) = true) new)
  /\ (forall d a, result = Returned (d, a) ->
        let v := AskService.confidence a in
        let r := AskService.rescale v in
        askWithContext q (AskService.retrievedContext d) = Returned (Some a)
        /\ doubts' = doubts ++ [d]
        /\ (Num.in_unit r = true -> Num.eqb (AskService.d_confidence d) r = true)
        /\ (Num.gtb r Num.one = true -> AskService.d_confidence d = Num.one)
        /\ (Num.ltb r Num.zero = true \/ Num.is_nan r = true ->
            AskService.d_confidence d = Num.zero)).
Proof.
  unfold AskService.askTextQuestion, AskService.pipeline.
  set (context := match retrieve q _ _ with Returned c => c | Threw _ => [] end).
  assert (Hfailed : forall e ds r' ds',
            (@Threw (AskService.Doubt Ctx User * AskService.Answer) e,
             match create 1 (AskService.failed_doubt q user) with
             | None => ds ++ [AskService.failed_doubt q user]
             | Some _ => ds
             end) = (r', ds') ->
            (exists new, ds' = ds ++ new
               /\ Forall (fun d : AskService.Doubt Ctx User =>
                            Num.in_unit (AskService.d_confidence d) = true) new)
            /\ (forall d a, r' = Returned (d, a) -> False)).
  { intros e ds r' ds' [= <- <-]. split; [|discriminate].
    destruct (create 1 _).
    - exists []. split; [symmetry; apply app_nil_r|constructor].
    - exists [AskService.failed_doubt q user]. split; [reflexivity|].
      constructor; [reflexivity|constructor]. }
  destruct (askWithContext q context) as [[answer|]|e0] eqn:Hask;
    try (intros H; destruct (Hfailed _ _ _ _ H) as [Hnew Hno];
         split; [exact Hnew|intros d a Hr; destruct (Hno d a Hr)]).
  destruct (AskService.steps answer) as [answer_steps|] eqn:Hsteps;
    try (intros H; destruct (Hfailed _ _ _ _ H) as [Hnew Hno];
         split; [exact Hnew|intros d a Hr; destruct (Hno d a Hr)]).
  destruct (create 0 _) as [e1|] eqn:Hcreate;
    try (intros H; destruct (Hfailed _ _ _ _ H) as [Hnew Hno];
         split; [exact Hnew|intros d a Hr; destruct (Hno d a Hr)]).
  intros [= <- <-]. split.
  - eexists. split; [reflexivity|]. constructor; [|constructor].
    apply (clamp_in_unit (AskService.rescale (AskService.confidence answer))).
  - intros d a [= <- <-]. cbv zeta. cbn [AskService.retrievedContext
      AskService.answered_doubt AskService.d_confidence].
    split; [exact Hask|]. split; [reflexivity|].
    change (AskService.normalizeConfidence (AskService.confidence answer))
      with (clamp (AskService.rescale (AskService.confidence answer))).
    split; [apply clamp_inside|]. split; [apply clamp_above|apply clamp_below].
Qed.

End ConfidenceProofs.

(** A client that always gives the same answer, with the raw confidence
    [v]; the retrieval finds nothing and the store accepts every record. *)
Definition sample_answer (v : Num.number) : AskService.Answer :=
  {| AskService.steps := Some [js "Light scatters."];
     AskService.explanation := None;
     AskService.finalAnswer := Some (js "Rayleigh scattering.");
     AskService.confidence := v;
     AskService.mermaidCode := None;
     AskService.code := None |}.

Definition sample_run (v : Num.number)
  : Result (AskService.Doubt unit nat * AskService.Answer)
    * list (AskService.Doubt unit nat) :=
  AskService.askTextQuestion
    (fun (_ : jsstring) (_ : nat) (_ : option unit) => Returned [])
    (fun _ _ => Returned (Some (sample_answer v)))
    (fun _ _ => None)
    (js "Why is the sky blue?") 7
    {| AskService.topK := None; AskService.filter := None; AskService.o_tags := None |} [].

Lemma askTextQuestion_stored_confidence_witness :
  let a := sample_answer (Num.of_Z 90) in
  let d :=
    AskService.answered_doubt (js "Why is the sky blue?") 7
      {| AskService.topK := None; AskService.filter := @None unit;
         AskService.o_tags := None |} (@nil unit) a [js "Light scatters."] in
  sample_run (Num.of_Z 90) = (Returned (d, a), [d])
  /\ AskService.d_confidence d = Num.dec 9 1
  /\ (exists new, [d] = [] ++ new
        /\ Forall (fun d => Num.in_unit (AskService.d_confidence d) = true) new)
  /\ (forall d0 a0, Returned (d, a) = Returned (d0, a0) ->
        let v := AskService.confidence a0 in
        let r := AskService.rescale v in
        Returned (Some (sample_answer (Num.of_Z 90))) = Returned (Some a0)
        /\ [d] = [] ++ [d0]
        /\ (Num.in_unit r = true -> Num.eqb (AskService.d_confidence d0) r = true)
        /\ (Num.gtb r Num.one = true -> AskService.d_confidence d0 = Num.one)
        /\ (Num.ltb r Num.zero = true \/ Num.is_nan r = true ->
            AskService.d_confidence d0 = Num.zero)).
Proof.
  intros a d. split; [reflexivity|]. split; [vm_compute; reflexivity|].
  apply (askTextQuestion_stored_confidence
           (fun (_ : jsstring) (_ : nat) (_ : option unit) => Returned [])
           (fun _ _ => Returned (Some (sample_answer (Num.of_Z 90))))
           (fun _ _ => None)
           (js "Why is the sky blue?") 7
           {| AskService.topK := None; AskService.filter := None;
              AskService.o_tags := None |} [] [d] (Returned (d, a))).
  reflexivity.
Defined.

(** A raw confidence of 250 is above 1, so the claim asks for 250 / 100 =
    2.5; the record stored holds 1. An answer without confidence field
    gives NaN, which is not above 1, so the claim asks for NaN; the record
    stored holds 0. *)
Lemma stored_confidence_counterexample :
  let stored v := List.map AskService.d_confidence (snd (sample_run v)) in
  Num.gtb (Num.of_Z 250) Num.one = true
  /\ Num.div (Num.of_Z 250) Num.hundred = Num.dec 25 1
  /\ stored (Num.of_Z 250) = [Num.one]
  /\ Num.eqb Num.one (Num.dec 25 1) = false
  /\ Num.gtb Num.NaN Num.one = false
  /\ stored Num.NaN = [Num.zero]
  /\ Num.eqb Num.zero Num.NaN = false.
Proof. vm_compute. repeat split. Qed.

(** ** Retriever *)

Section RetrieverProofs.
Context {M Vec Filter : Type}.
Variable embedQuery : jsstring -> Result Vec.
Variable client_search :
  Vec -> nat -> option Filter -> Result (list (Retriever.ScoredPoint M)).

(** The contract of the vector index: at most [limit] points, most
    similar first. *)
Hypothesis search_limit : forall v k f rs,
  client_search v k f = Returned rs -> length rs <= k.
Hypothesis search_descending : forall v k f rs,
  client_search v k f = Returned rs ->
  Retriever.descending (List.map Retriever.sp_score rs).

Lemma map_hits_scores (rs : list (Retriever.ScoredPoint M)) hs :
  Retriever.map_hits rs = Returned hs ->
  List.map Retriever.score hs = List.map Retriever.sp_score rs.
Proof.
  revert hs. induction rs as [|r rs IH]; intros hs; simpl.
  - intros [= <-]. reflexivity.
  - destruct (Retriever.sp_payload r); [|discriminate].
    destruct (Retriever.map_hits rs) as [hs'|]; [|discriminate].
    intros [= <-]. simpl. f_equal. apply IH. reflexivity.
Qed.

Lemma descending_filter (P : Retriever.Hit M -> bool) (l : list (Retriever.Hit M)) :
  Retriever.descending (List.map Retriever.score l) ->
  Retriever.descending (List.map Retriever.score (List.filter P l)).
Proof.
  unfold Retriever.descending.
  induction l as [|h l IH]; simpl; intros Hs; [constructor|].
  apply StronglySorted_inv in Hs as [Hs Hh].
  destruct (P h); simpl; [|auto].
  constructor; [auto|].
  rewrite List.Forall_forall in Hh. apply List.Forall_forall. intros x Hx.
  apply Hh. apply List.in_map_iff in Hx as (y & <- & Hy).
  apply List.filter_In in Hy as [Hy _]. apply List.in_map. exact Hy.
Qed.

Lemma filter_length_le {A} (P : A -> bool) (l : list A) :
  length (List.filter P l) <= length l.
Proof. induction l as [|a l IH]; simpl; [lia|]. destruct (P a); simpl; lia. Qed.

(** The number of results asked from the index: [topK], 5 when omitted. *)
Definition requested (topK : option nat) : nat :=
  match topK with Some k => k | None => Retriever.defaultTopK end.

(** C2. Every element returned by [retrieve] has a score of at least 0.5;
    the result is in descending order of score and no longer than the
    requested [topK], the vector index returning at most [limit] points,
    most similar first; and when the embedding step or the search throws,
    the result is the empty sequence. *)
Theorem retrieve_floor_order_limit (question : jsstring) (topK : option nat)
    (filter : option Filter) :
  let out := Retriever.retrieve embedQuery client_search question topK filter in
  Forall (fun h => Num.geb (Retriever.score h) Retriever.minScore = true) out
  /\ Retriever.descending (List.map Retriever.score out)
  /\ length out <= requested topK
  /\ (forall e, embedQuery question = Threw e -> out = [])
  /\ (forall v e, embedQuery question = Returned v ->
                  client_search v (requested topK) filter = Threw e -> out = []).
Proof.
  cbv zeta. unfold Retriever.retrieve, Retriever.search.
  fold (requested topK). generalize (requested topK). intros k.
  destruct (embedQuery question) as [v|e0].
  2:{ repeat split; try constructor; simpl; try lia; discriminate. }
  destruct (client_search v k filter) as [rs|e1] eqn:Hsearch.
  2:{ repeat split; try constructor; simpl; try lia; discriminate. }
  destruct (Retriever.map_hits rs) as [hs|e2] eqn:Hmap.
  2:{ repeat split; try constructor; simpl; try lia; discriminate. }
  pose proof (map_hits_scores _ _ Hmap) as Hscores.
  split; [|split; [|split; [|split]]].
  - apply List.Forall_forall. intros h Hh.
    apply List.filter_In in Hh as [_ Hh]. exact Hh.
  - apply descending_filter. rewrite Hscores. eauto.
  - etransitivity; [apply filter_length_le|].
    rewrite <- (length_map Retriever.score), Hscores, length_map. eauto.
  - discriminate.
  - intros v' e [= <-]. congruence.
Qed.

End RetrieverProofs.

(** A vector index holding two points, scored 0.9 and 0.4. *)
Definition sample_points : list (Retriever.ScoredPoint unit) :=
  [ {| Retriever.sp_id := js "p1"; Retriever.sp_score := Num.dec 9 1;
       Retriever.sp_payload :=
         Some {| Retriever.p_text := js "photosynthesis"; Retriever.p_metadata := tt |} |};
    {| Retriever.sp_id := js "p2"; Retriever.sp_score := Num.dec 4 1;
       Retriever.sp_payload :=
         Some {| Retriever.p_text := js "osmosis"; Retriever.p_metadata := tt |} |} ].

Definition sample_index (v : unit) (k : nat) (f : option unit)
  : Result (list (Retriever.ScoredPoint unit)) :=
  Returned (firstn k sample_points).

Lemma retrieve_floor_order_limit_witness :
  let out :=
    Retriever.retrieve (fun _ => Returned tt) sample_index (js "what is it") (Some 2) None in
  Forall (fun h => Num.geb (Retriever.score h) Retriever.minScore = true) out
  /\ Retriever.descending (List.map Retriever.score out)
  /\ length out <= 2
  /\ (forall e, (fun _ : jsstring => Returned tt) (js "what is it") = Threw e -> out = [])
  /\ (forall v e, (fun _ : jsstring => Returned tt) (js "what is it") = Returned v ->
                  sample_index v 2 None = Threw e -> out = []).
Proof.
  apply (retrieve_floor_order_limit (fun _ => Returned tt) sample_index).
  - intros v k f rs [= <-]. rewrite length_firstn. lia.
  - intros v k f rs [= <-]. unfold Retriever.descending.
    destruct k as [|[|k]]; simpl; rewrite ?firstn_nil; simpl; repeat constructor.
Defined.

Example retrieve_sample :
  List.map Retriever.text
    (Retriever.retrieve (fun _ => Returned tt) sample_index (js "what is it") None None)
  = [js "photosynthesis"].
Proof. vm_compute. reflexivity. Qed.

(** ** Generation fallback *)

(** The call of the Groq client gave nothing to parse: it threw, or the
    first choice of the completion has no content. *)
Definition nothing_to_parse (r : Result (option jsstring)) : bool :=
  match r with
  | Returned (Some (_ :: _)) => false
  | _ => true
  end.

Definition groq_fallback_steps : list jsstring :=
  [ js "Please check your internet connection."; js "Try again in a moment." ].

Section FallbackProofs.
Context {Ctx : Type}.
Variable buildPrompt : jsstring -> list Ctx -> jsstring.

Lemma gemini_all_models_fail (generate : jsstring -> jsstring -> Result jsstring)
    (question : jsstring) (context : list Ctx) :
  (forall modelName, In modelName Gen.Gemini.modelsToTry ->
     threw (generate modelName (buildPrompt question context)) = true) ->
  Gen.Gemini.askWithContext buildPrompt generate question context
  = Some (Gen.Gemini.getFallbackResponse question).
Proof.
  intros Hfail.
  unfold Gen.Gemini.askWithContext, Gen.Gemini.modelsToTry.
  cbn [Gen.Gemini.try_models].
  repeat match goal with
  | |- context [generate ?m ?p] =>
    let H := fresh "H" in
    assert (H : threw (generate m p) = true)
      by (apply Hfail; unfold Gen.Gemini.modelsToTry; simpl; tauto);
    destruct (generate m p); [discriminate H|clear H]
  end.
  repeat match goal with
  | |- context [decide (?x = ?y)] =>
    destruct (decide (x = y)) as [Heq|Hne];
      [try (vm_compute in Heq; discriminate Heq)
      |try (exfalso; apply Hne; vm_compute; reflexivity)]
  end; reflexivity.
Qed.

(** C3, as the code has it. The Groq client, the one the answer service
    calls, has a single model and no fallback list: when its call throws
    or gives no content, [askWithContext] returns (it does not throw) its
    fixed fallback object, with an explanation, two steps that ask to
    check the connection and to try again, a final answer, confidence 0
    and no [rawResponse]. The Gemini client has the ordered fallback list:
    when the call fails for every model identifier of the list, its
    [askWithContext] returns the fallback answer with the two apology
    steps, a final answer, confidence 0.3 and the [rawResponse] marker. *)
Theorem askWithContext_fallback (question : jsstring) (context : list Ctx) :
  (forall create : jsstring -> Result (option jsstring),
     nothing_to_parse (create (buildPrompt question context)) = true ->
     let a := Gen.Groq.askWithContext buildPrompt create question context in
     a = Gen.Groq.getFallbackResponse question
     /\ Json.get (js "confidence") a = Some (Json.JNum Num.zero)
     /\ Json.get (js "steps") a = Some (Gen.strings groq_fallback_steps)
     /\ Json.get (js "finalAnswer") a
        = Some (Json.JStr (js "Temporary connection issue."))
     /\ Json.get (js "rawResponse") a = None)
  /\ (forall generate : jsstring -> jsstring -> Result jsstring,
       (forall modelName, In modelName Gen.Gemini.modelsToTry ->
          threw (generate modelName (buildPrompt question context)) = true) ->
       let a := Gen.Gemini.getFallbackResponse question in
       Gen.Gemini.askWithContext buildPrompt generate question context = Some a
       /\ Json.get (js "confidence") a = Some (Json.JNum (Num.dec 3 1))
       /\ Json.get (js "steps") a = Some (Gen.strings Gen.Gemini.apology)
       /\ Json.get (js "rawResponse") a = Some (Json.JStr (js "Fallback response"))
       /\ exists text, Json.get (js "finalAnswer") a = Some (Json.JStr text)).
Proof.
  split.
  - intros create Hnone a.
    assert (Ha : a = Gen.Groq.getFallbackResponse question).
    { subst a. unfold Gen.Groq.askWithContext.
      destruct (create (buildPrompt question context)) as [[[|c content]|]|e];
        try reflexivity. discriminate Hnone. }
    split; [exact Ha|]. rewrite Ha. repeat split.
  - intros generate Hfail a. split; [apply gemini_all_models_fail, Hfail|].
    subst a. repeat split; try reflexivity. eexists. reflexivity.
Qed.

End FallbackProofs.

Lemma askWithContext_fallback_witness :
  let buildPrompt := fun (q : jsstring) (_ : list unit) => q in
  let question := js "What is osmosis?" in
  let create := fun _ : jsstring =>
    @Threw (option jsstring) {| message := js "503 Service Unavailable" |} in
  let generate := fun _ _ : jsstring =>
    @Threw jsstring {| message := js "503 Service Unavailable" |} in
  (let a := Gen.Groq.askWithContext buildPrompt create question [] in
   a = Gen.Groq.getFallbackResponse question
   /\ Json.get (js "confidence") a = Some (Json.JNum Num.zero)
   /\ Json.get (js "steps") a = Some (Gen.strings groq_fallback_steps)
   /\ Json.get (js "finalAnswer") a
      = Some (Json.JStr (js "Temporary connection issue."))
   /\ Json.get (js "rawResponse") a = None)
  /\ (let a := Gen.Gemini.getFallbackResponse question in
      Gen.Gemini.askWithContext buildPrompt generate question [] = Some a
      /\ Json.get (js "confidence") a = Some (Json.JNum (Num.dec 3 1))
      /\ Json.get (js "steps") a = Some (Gen.strings Gen.Gemini.apology)
      /\ Json.get (js "rawResponse") a = Some (Json.JStr (js "Fallback response"))
      /\ exists text, Json.get (js "finalAnswer") a = Some (Json.JStr text)).
Proof.
  intros buildPrompt question create generate.
  destruct (askWithContext_fallback buildPrompt question []) as [Hgroq Hgemini].
  split.
  - apply (Hgroq create). reflexivity.
  - apply (Hgemini generate). intros modelName _. reflexivity.
Defined.

(** The call of the client in use fails: the answer carries confidence 0,
    which is not the 0.3 the specification asks for, and no [rawResponse];
    its steps are not an apology. *)
Lemma askWithContext_fallback_counterexample :
  let create := fun _ : jsstring =>
    @Threw (option jsstring) {| message := js "503 Service Unavailable" |} in
  let a := Gen.Groq.askWithContext (fun (q : jsstring) (_ : list unit) => q) create
             (js "What is osmosis?") [] in
  Json.get (js "confidence") a = Some (Json.JNum Num.zero)
  /\ Num.eqb Num.zero (Num.dec 3 1) = false
  /\ Json.get (js "rawResponse") a = None
  /\ Json.get (js "steps") a
     = Some (Gen.strings [ js "Please check your internet connection.";
                           js "Try again in a moment." ]).
Proof. vm_compute. repeat split. Qed.

(** ** Answer orchestrator: the failure path *)

Section AskProofs.
Context {Ctx User Filter : Type}.
Variable retrieve : jsstring -> nat -> option Filter -> Result (list Ctx).
Variable askWithContext : jsstring -> list Ctx -> Result (option AskService.Answer).
Variable create : nat -> AskService.Doubt Ctx User -> option Error.

Abbreviation pipeline := (AskService.pipeline retrieve askWithContext create).
Abbreviation askTextQuestion := (AskService.askTextQuestion retrieve askWithContext create).

(** The failed record, stored when the store accepts it. *)
Definition after_failure (questionText : jsstring) (user : User)
    (doubts : list (AskService.Doubt Ctx User)) : list (AskService.Doubt Ctx User) :=
  match create 1 (AskService.failed_doubt questionText user) with
  | None => doubts ++ [AskService.failed_doubt questionText user]
  | Some _ => doubts
  end.

(** An exception leaves the collection as it was: nothing follows the
    creation of the answered record that could throw. *)
Lemma pipeline_throw_keeps q user options doubts e doubts' :
  pipeline q user options doubts = (Threw e, doubts') -> doubts' = doubts.
Proof.
  unfold AskService.pipeline.
  destruct (askWithContext _ _) as [[answer|]|e0]; try (intros [= _ <-]; reflexivity).
  destruct (AskService.steps answer); try (intros [= _ <-]; reflexivity).
  destruct (create 0 _); [intros [= _ <-]; reflexivity|discriminate].
Qed.

(** C8. Whenever the generation or the persistence of the answer throws,
    [askTextQuestion] stores, when the store accepts it, one record with
    status [failed], the fixed apology as final answer and confidence 0,
    and it rethrows the original error. *)
Theorem askTextQuestion_failure_recorded (q : jsstring) (user : User)
    (options : AskService.Options Filter)
    (doubts doubts' : list (AskService.Doubt Ctx User)) (e : Error) :
  pipeline q user options doubts = (Threw e, doubts') ->
  askTextQuestion q user options doubts = (Threw e, after_failure q user doubts)
  /\ (create 1 (AskService.failed_doubt q user) = None ->
      after_failure q user doubts = doubts ++ [AskService.failed_doubt q user])
  /\ AskService.status (AskService.failed_doubt (Ctx:=Ctx) q user) = AskService.failed
  /\ AskService.d_finalAnswer (AskService.failed_doubt (Ctx:=Ctx) q user)
     = Some (js "Failed to generate answer. Please try again.")
  /\ AskService.d_confidence (AskService.failed_doubt (Ctx:=Ctx) q user) = Num.zero
  /\ AskService.questionText (AskService.failed_doubt (Ctx:=Ctx) q user) = q.
Proof.
  intros Hp. pose proof (pipeline_throw_keeps _ _ _ _ _ _ Hp) as ->.
  split; [|split; [|repeat split]].
  - unfold AskService.askTextQuestion, after_failure. rewrite Hp. reflexivity.
  - unfold after_failure. intros ->. reflexivity.
Qed.

(** The two causes: the generation client throws, or [Doubt.create]
    refuses the answered record. *)
Lemma pipeline_generation_throws q user options doubts e :
  (forall context, askWithContext q context = Threw e) ->
  pipeline q user options doubts = (Threw e, doubts).
Proof. intros H. unfold AskService.pipeline. rewrite H. reflexivity. Qed.

Lemma pipeline_persistence_throws q user options doubts e answer answer_steps :
  (forall context, askWithContext q context = Returned (Some answer)) ->
  AskService.steps answer = Some answer_steps ->
  (forall d, create 0 d = Some e) ->
  pipeline q user options doubts = (Threw e, doubts).
Proof.
  intros H Hs Hc. unfold AskService.pipeline. rewrite H, Hs, Hc. reflexivity.
Qed.

End AskProofs.

Lemma askTextQuestion_failure_recorded_witness :
  let retrieve := fun (_ : jsstring) (_ : nat) (_ : option unit) => @Returned (list unit) [] in
  let ask := fun (_ : jsstring) (_ : list unit) =>
               @Threw (option AskService.Answer) {| message := js "connect ETIMEDOUT" |} in
  let create := fun (_ : nat) (_ : AskService.Doubt unit nat) => @None Error in
  let options := {| AskService.topK := None; AskService.filter := None;
                    AskService.o_tags := None |} in
  AskService.askTextQuestion retrieve ask create (js "Why is the sky blue?") 7 options []
  = (Threw {| message := js "connect ETIMEDOUT" |},
     [AskService.failed_doubt (js "Why is the sky blue?") 7]).
Proof.
  intros retrieve ask create options.
  apply (askTextQuestion_failure_recorded retrieve ask create
           (js "Why is the sky blue?") 7 options [] []
           {| message := js "connect ETIMEDOUT" |}).
  reflexivity.
Defined.

(** ** Region extraction *)

(** The centre of the word's bounding box lies in the closed rectangle
    [[x, x + width] x [y, y + height]]. *)
Definition center_within (x y width height : Num.number) (word : Media.Word) : Prop :=
  exists b, Media.bbox word = Some b
    /\ let cx := Num.div (Num.add (Media.x0 b) (Media.x1 b)) Num.two in
       let cy := Num.div (Num.add (Media.y0 b) (Media.y1 b)) Num.two in
       Num.leb x cx = true /\ Num.leb cx (Num.add x width) = true
       /\ Num.leb y cy = true /\ Num.leb cy (Num.add y height) = true.

Lemma in_region_spec x y width height word :
  Media.in_region x y width height word = true <-> center_within x y width height word.
Proof.
  unfold Media.in_region, center_within, Num.geb.
  destruct (Media.bbox word) as [b|]; split.
  - intros H. exists b. split; [reflexivity|]. cbv zeta.
    repeat (apply andb_prop in H as [H ?]). auto.
  - intros (b' & [= <-] & H). cbv zeta in H. destruct H as (-> & -> & -> & ->).
    reflexivity.
  - discriminate.
  - intros (b' & [=] & _).
Qed.

Lemma filter_sublist {A} (P : A -> bool) (l : list A) : sublist (List.filter P l) l.
Proof.
  induction l as [|a l IH]; simpl; [constructor|].
  destruct (P a); constructor; exact IH.
Qed.

(** C10. On a frame of the caller that has OCR words, the region request
    answers with the words whose bounding box has its centre in the closed
    rectangle, in OCR order: a word without bounding box is never among
    them, the text is their texts joined by single spaces, and the word
    count is their number. The collection is left as it was. *)
Theorem extractTextFromRegion_selects (env : Media.Env) (st : Media.Store)
    (user : Media.User) (id : Media.FrameId) (frame : Media.Frame)
    (words : list Media.Word) (x y width height : Num.number) :
  Media.frames st !! id = Some frame ->
  Media.createdBy frame = user ->
  Media.ocrWords frame = Some words ->
  words <> [] ->
  exists selected,
    Media.extractTextFromRegion env st user (Some id)
      {| Media.r_x := Some x; Media.r_y := Some y;
         Media.r_width := Some width; Media.r_height := Some height |}
    = (st, Media.Success 200
             (Str.join (js " ") (List.map Media.w_text selected), length selected))
    /\ sublist selected words
    /\ (forall word, In word selected <->
                     In word words /\ center_within x y width height word)
    /\ (forall word, In word selected -> Media.bbox word <> None).
Proof.
  intros Hfind Howner Hwords Hne.
  exists (Media.selectWords x y width height words).
  split; [|split; [|split]].
  - unfold Media.extractTextFromRegion. cbn [Media.r_x Media.r_y Media.r_width Media.r_height].
    rewrite Hfind. rewrite bool_decide_eq_true_2 by exact Howner. cbn [negb].
    unfold Media.has_words. rewrite Hwords.
    destruct words as [|w ws]; [contradiction|]. cbv iota beta.
    rewrite Hwords. reflexivity.
  - apply filter_sublist.
  - intros word. unfold Media.selectWords.
    rewrite List.filter_In, in_region_spec. reflexivity.
  - intros word Hin. apply List.filter_In in Hin as [_ Hin].
    apply in_region_spec in Hin as (b & -> & _). discriminate.
Qed.

(** A frame with three words; the rectangle (0, 0, 100, 50) holds the
    first and the third, the second has no box. *)
Definition sample_word (t : string) (b : option (Z * Z * Z * Z)) : Media.Word :=
  {| Media.w_text := js t; Media.w_confidence := Num.dec 9 1;
     Media.bbox :=
       match b with
       | Some (a, b, c, d) =>
         Some {| Media.x0 := Num.of_Z a; Media.y0 := Num.of_Z b;
                 Media.x1 := Num.of_Z c; Media.y1 := Num.of_Z d |}
       | None => None
       end |}.

Definition sample_words : list Media.Word :=
  [ sample_word "force" (Some (10, 10, 50, 30))%Z;
    sample_word "equals" None;
    sample_word "mass" (Some (60, 10, 140, 30))%Z;
    sample_word "times" (Some (150, 10, 210, 30))%Z ].

Definition sample_frame : Media.Frame :=
  Media.with_ocr
    (Media.new_frame 7%positive Media.image (js "https://cdn/img.png") None None None
       Media.queued)
    {| Media.o_text := js "force equals mass times"; Media.o_confidence := Num.dec 9 1;
       Media.o_words := sample_words |}.

(** Collaborators that all answer. The OCR, like the recognition engine,
    rejects a call without image. *)
Definition quiet_env : Media.Env :=
  {| Media.upload := fun _ _ => Returned (js "https://cdn/file");
     Media.extractText := fun image =>
       match image with
       | Some _ =>
         Returned {| Media.o_text := js "force"; Media.o_confidence := Num.dec 9 1;
                     Media.o_words := sample_words |}
       | None => Threw {| message := js "Tesseract OCR failed: no image" |}
       end;
     Media.extractConcepts := fun _ _ => Returned Media.default_concepts;
     Media.getMetadata := fun _ => Returned tt;
     Media.convertToImages := fun _ =>
       Returned [ {| Media.p_pageNumber := 1; Media.p_imageBuffer := js "page 1" |};
                  {| Media.p_pageNumber := 2; Media.p_imageBuffer := js "page 2" |} ];
     Media.download := fun _ => Returned (js "image bytes");
     Media.cropImage := fun _ _ => Returned (js "cropped bytes");
     Media.validationError := fun _ => {| message := js "Frame validation failed" |} |}.

Lemma extractTextFromRegion_selects_witness :
  exists selected,
    Media.extractTextFromRegion quiet_env
      {| Media.frames := {[ 1%positive := sample_frame ]}; Media.next_id := 2%positive;
         Media.pending := []; Media.writes := [] |}
      7%positive (Some 1%positive)
      {| Media.r_x := Some (Num.of_Z 0); Media.r_y := Some (Num.of_Z 0);
         Media.r_width := Some (Num.of_Z 100); Media.r_height := Some (Num.of_Z 50) |}
    = ({| Media.frames := {[ 1%positive := sample_frame ]}; Media.next_id := 2%positive;
          Media.pending := []; Media.writes := [] |},
       Media.Success 200
         (Str.join (js " ") (List.map Media.w_text selected), length selected))
    /\ sublist selected sample_words
    /\ (forall word, In word selected <->
          In word sample_words
          /\ center_within (Num.of_Z 0) (Num.of_Z 0) (Num.of_Z 100) (Num.of_Z 50) word)
    /\ (forall word, In word selected -> Media.bbox word <> None).
Proof.
  apply (extractTextFromRegion_selects quiet_env _ 7%positive 1%positive sample_frame
           sample_words).
  - reflexivity.
  - reflexivity.
  - reflexivity.
  - discriminate.
Defined.

Example region_sample :
  snd (Media.extractTextFromRegion quiet_env
         {| Media.frames := {[ 1%positive := sample_frame ]}; Media.next_id := 2%positive;
            Media.pending := []; Media.writes := [] |}
         7%positive (Some 1%positive)
         {| Media.r_x := Some (Num.of_Z 0); Media.r_y := Some (Num.of_Z 0);
            Media.r_width := Some (Num.of_Z 100); Media.r_height := Some (Num.of_Z 50) |})
  = Media.Success 200 (js "force mass", 2).
Proof. vm_compute. reflexivity. Qed.

(** ** Deletion *)

(** The frames that reference [id] as their parent document. *)
Definition children_of (st : Media.Store) (id : Media.FrameId) : gmap positive Media.Frame :=
  filter (fun kv => Media.pdfId (snd kv) = Some id) (Media.frames st).

Lemma size_split_children (st : Media.Store) (id : Media.FrameId) :
  size (Media.frames st)
  = size (Media.frames (Media.deleteMany_pdfId st id)) + size (children_of st id).
Proof.
  unfold Media.deleteMany_pdfId, children_of. cbn [Media.frames].
  set (P := fun kv : positive * Media.Frame => Media.pdfId (snd kv) <> Some id).
  rewrite <- (map_filter_union_complement P (Media.frames st)) at 1.
  rewrite map_size_disj_union by apply map_disjoint_filter_complement.
  f_equal. f_equal. apply map_filter_ext. intros j f _. unfold P. simpl.
  split; [|tauto]. intros H. destruct (decide (Media.pdfId f = Some id)); tauto.
Qed.

(** C9. Deleting a parent document frame removes it together with every
    frame that references it through [pdfId], and nothing else: with N such
    page frames the collection loses N + 1 records. Deleting a crop frame
    removes the crop alone; every other frame, its parent included, stays
    as it was. *)
Theorem deleteFrame_cascade_and_crop (st : Media.Store) (user : Media.User)
    (id : Media.FrameId) (frame : Media.Frame) :
  Media.frames st !! id = Some frame ->
  Media.createdBy frame = user ->
  let st' := fst (Media.deleteFrame st user id) in
  (Media.sourceType frame = Media.pdf_page -> Media.pdfId frame = None ->
     Media.frames st' !! id = None
     /\ (forall j f, Media.frames st !! j = Some f -> Media.pdfId f = Some id ->
                     Media.frames st' !! j = None)
     /\ (forall j f, Media.frames st !! j = Some f -> j <> id ->
                     Media.pdfId f <> Some id -> Media.frames st' !! j = Some f)
     /\ size (Media.frames st)
        = size (Media.frames st') + (size (children_of st id) + 1))
  /\ (Media.sourceType frame = Media.crop ->
        Media.frames st' = delete id (Media.frames st)
        /\ (forall j, j <> id -> Media.frames st' !! j = Media.frames st !! j)
        /\ size (Media.frames st) = size (Media.frames st') + 1).
Proof.
  intros Hfind Howner st'. subst st'.
  unfold Media.deleteFrame, Media.findOne. rewrite Hfind.
  rewrite decide_True by exact Howner.
  split.
  - intros Hty Hparent. rewrite Hty. cbn.
    assert (Hkept : Media.frames (Media.deleteMany_pdfId st id) !! id = Some frame).
    { cbn. apply map_lookup_filter_Some. split; [exact Hfind|]. simpl. congruence. }
    split; [apply lookup_delete_eq|].
    split; [|split].
    + intros j f Hj Hp. destruct (decide (j = id)) as [->|Hne];
        [apply lookup_delete_eq|].
      rewrite lookup_delete_ne by congruence.
      apply map_lookup_filter_None. right. intros f' Hf'. simpl.
      rewrite Hj in Hf'. injection Hf' as <-. tauto.
    + intros j f Hj Hne Hp. rewrite lookup_delete_ne by congruence.
      apply map_lookup_filter_Some. split; [exact Hj|exact Hp].
    + rewrite (size_split_children st id).
      rewrite (map_size_delete_Some id (Media.frames (Media.deleteMany_pdfId st id)))
        by (rewrite Hkept; eauto).
      assert (size (Media.frames (Media.deleteMany_pdfId st id)) <> 0).
      { apply map_size_ne_0_lookup_2 with id. rewrite Hkept. eauto. }
      cbn [Media.frames Media.deleteMany_pdfId] in *.
      destruct (size (filter _ (Media.frames st))); [contradiction|simpl; lia].
  - intros Hty. rewrite Hty. cbn.
    split; [reflexivity|]. split.
    + intros j Hne. apply lookup_delete_ne. congruence.
    + rewrite (map_size_delete_Some id (Media.frames st))
        by (exists frame; exact Hfind).
      assert (size (Media.frames st) <> 0).
      { apply map_size_ne_0_lookup_2 with id. rewrite Hfind. eauto. }
      destruct (size (Media.frames st)); [contradiction|simpl; lia].
Qed.

(** A document of three pages, and a crop taken from its first page. *)
Definition page_frame (parent : Media.FrameId) (n : nat) : Media.Frame :=
  Media.new_frame 7%positive Media.pdf_page (js "https://cdn/page.png") None
    (Some parent) (Some n) Media.completed.

Definition sample_store : Media.Store :=
  {| Media.frames :=
       <[ 1%positive :=
            Media.new_frame 7%positive Media.pdf_page (js "https://cdn/doc.pdf") None None
              None Media.completed ]>
       (<[ 2%positive := page_frame 1%positive 1 ]>
       (<[ 3%positive := page_frame 1%positive 2 ]>
       (<[ 4%positive := page_frame 1%positive 3 ]>
       (<[ 5%positive :=
            Media.new_frame 7%positive Media.crop (js "https://cdn/page.png")
              (Some (js "https://cdn/crop.png")) (Some 2%positive) None Media.completed ]>
        ∅))));
     Media.next_id := 6%positive; Media.pending := []; Media.writes := [] |}.

Lemma deleteFrame_cascade_and_crop_witness :
  let st' := fst (Media.deleteFrame sample_store 7%positive 1%positive) in
  Media.frames st' !! 1%positive = None
  /\ (forall j f, Media.frames sample_store !! j = Some f ->
                  Media.pdfId f = Some 1%positive -> Media.frames st' !! j = None)
  /\ (forall j f, Media.frames sample_store !! j = Some f -> j <> 1%positive ->
                  Media.pdfId f <> Some 1%positive -> Media.frames st' !! j = Some f)
  /\ size (Media.frames sample_store)
     = size (Media.frames st') + (size (children_of sample_store 1%positive) + 1).
Proof.
  refine (proj1 (deleteFrame_cascade_and_crop sample_store 7%positive 1%positive
                   (Media.new_frame 7%positive Media.pdf_page (js "https://cdn/doc.pdf")
                      None None None Media.completed) _ _) _ _); reflexivity.
Defined.

Example delete_parent_of_three_pages :
  size (Media.frames sample_store) = 5
  /\ size (Media.frames (fst (Media.deleteFrame sample_store 7%positive 1%positive))) = 1
  /\ Media.frames (fst (Media.deleteFrame sample_store 7%positive 5%positive)) !! 2%positive
     = Media.frames sample_store !! 2%positive.
Proof. vm_compute. repeat split. Qed.

(** ** Status histories of frames *)

(** The histories the ingestion can produce: a prefix of
    [queued, processing, completed | failed], or of the same without
    [queued] for a parent document frame. *)
Definition good_prefix (h : list Media.Status) : bool :=
  match h with
  | [] | [Media.queued] | [Media.queued; Media.processing]
  | [Media.queued; Media.processing; Media.completed]
  | [Media.queued; Media.processing; Media.failed]
  | [Media.processing] | [Media.processing; Media.completed]
  | [Media.processing; Media.failed] => true
  | _ => false
  end.

Lemma good_prefix_machine h :
  good_prefix h = true ->
  Media.follows_machine h = true /\ Media.completed_after_processing false h = true.
Proof.
  destruct h as [|[] [|[] [|[] [|? ?]]]]; simpl; intros H;
    try discriminate H; split; reflexivity.
Qed.

Definition pending_ids (st : Media.Store) : list Media.FrameId :=
  List.map fst (Media.pending st).

Lemma history_app id ws1 ws2 fr nx pd :
  Media.history id
    {| Media.frames := fr; Media.next_id := nx; Media.pending := pd;
       Media.writes := ws1 ++ ws2 |}
  = Media.history id
      {| Media.frames := fr; Media.next_id := nx; Media.pending := pd;
         Media.writes := ws1 |}
    ++ List.map snd (List.filter (fun e => bool_decide (fst e = id)) ws2).
Proof. unfold Media.history. cbn. rewrite List.filter_app, List.map_app. reflexivity. Qed.

(** A history depends on the writes only. *)
Lemma history_writes id st st' :
  Media.writes st = Media.writes st' ->
  Media.history id st = Media.history id st'.
Proof. unfold Media.history. intros ->. reflexivity. Qed.

Lemma history_snoc_same id s fr nx pd ws :
  Media.history id
    {| Media.frames := fr; Media.next_id := nx; Media.pending := pd;
       Media.writes := ws ++ [(id, s)] |}
  = Media.history id
      {| Media.frames := fr; Media.next_id := nx; Media.pending := pd;
         Media.writes := ws |} ++ [s].
Proof.
  rewrite history_app. f_equal. cbn.
  rewrite bool_decide_eq_true_2 by reflexivity. reflexivity.
Qed.

Lemma history_snoc_other id id' s fr nx pd ws :
  id' <> id ->
  Media.history id
    {| Media.frames := fr; Media.next_id := nx; Media.pending := pd;
       Media.writes := ws ++ [(id', s)] |}
  = Media.history id
      {| Media.frames := fr; Media.next_id := nx; Media.pending := pd;
         Media.writes := ws |}.
Proof.
  intros H. rewrite history_app. cbn.
  rewrite bool_decide_eq_false_2 by exact H. cbn. apply app_nil_r.
Qed.

Lemma history_updateOne_same id f st :
  Media.history id (Media.updateOne st id f) = Media.history id st ++ [Media.status f].
Proof. unfold Media.updateOne. rewrite history_snoc_same. f_equal. Qed.

Lemma history_updateOne_other id id' f st :
  id' <> id ->
  Media.history id (Media.updateOne st id' f) = Media.history id st.
Proof.
  intros H. unfold Media.updateOne. rewrite history_snoc_other by exact H. reflexivity.
Qed.

Lemma history_insertOne_same f st :
  Media.history (Media.next_id st) (snd (Media.insertOne st f))
  = Media.history (Media.next_id st) st ++ [Media.status f].
Proof.
  unfold Media.insertOne. cbn [snd]. rewrite history_snoc_same. f_equal.
Qed.

Lemma history_insertOne_other id f st :
  Media.next_id st <> id ->
  Media.history id (snd (Media.insertOne st f)) = Media.history id st.
Proof.
  intros H. unfold Media.insertOne. cbn [snd].
  rewrite history_snoc_other by exact H. reflexivity.
Qed.

(** What a validated write that returned has done. *)
Lemma save_Returned env st (id : Media.FrameId) f st' :
  Media.save env st id f = Returned st' ->
  Media.valid f = true /\ st' = Media.updateOne st id f.
Proof.
  unfold Media.save. destruct (Media.valid f); [|discriminate].
  intros [= <-]. split; reflexivity.
Qed.

Lemma create_Returned env st f (id : Media.FrameId) st' :
  Media.create env st f = Returned (id, st') ->
  Media.valid f = true /\ id = Media.next_id st /\ st' = snd (Media.insertOne st f).
Proof.
  unfold Media.create. destruct (Media.valid f); [|discriminate].
  intros [= <- <-]. repeat split.
Qed.

(** The invariant of the collection. *)
Record Inv (st : Media.Store) : Prop := {
  inv_failed : forall id f, Media.frames st !! id = Some f ->
    Media.status f = Media.failed -> Media.processingError f <> None;
  inv_valid : forall id f, Media.frames st !! id = Some f -> Media.valid f = true;
  inv_history : forall id, good_prefix (Media.history id st) = true;
  inv_fresh : forall id, (Media.next_id st <= id)%positive ->
    Media.frames st !! id = None /\ Media.history id st = []
    /\ ~ In id (pending_ids st);
  inv_pending : NoDup (pending_ids st)
    /\ forall id, In id (pending_ids st) -> Media.history id st = [Media.queued];
  inv_last : forall id f, Media.frames st !! id = Some f ->
    last (Media.history id st) = Some (Media.status f)
}.

Lemma Inv_empty : Inv Media.empty_store.
Proof.
  constructor.
  - intros id f H. cbn in H. rewrite lookup_empty in H. discriminate.
  - intros id f H. cbn in H. rewrite lookup_empty in H. discriminate.
  - intros id. reflexivity.
  - intros id _. cbn. rewrite lookup_empty. repeat split; auto.
  - split; [constructor|intros id []].
  - intros id f H. cbn in H. rewrite lookup_empty in H. discriminate.
Qed.

Lemma Inv_known id f st : Inv st -> Media.frames st !! id = Some f ->
  (id < Media.next_id st)%positive.
Proof.
  intros HI Hf. destruct (Pos.ltb_spec id (Media.next_id st)) as [|Hge]; [assumption|].
  destruct (inv_fresh st HI id Hge) as [Hnone _]. congruence.
Qed.

Lemma fresh_history st : Inv st -> Media.history (Media.next_id st) st = [].
Proof. intros HI. apply (inv_fresh st HI). apply Pos.le_refl. Qed.

(** The insertion of a frame that passed validation and is not failed
    keeps the invariant. *)
Lemma Inv_insertOne st f :
  Inv st -> Media.valid f = true -> good_prefix [Media.status f] = true ->
  Inv (snd (Media.insertOne st f)).
Proof.
  intros HI Hvalid Hgood. constructor.
  - intros id g Hg Hfailed. cbn in Hg.
    destruct (decide (Media.next_id st = id)) as [<-|Hne].
    + rewrite lookup_insert_eq in Hg. injection Hg as <-.
      rewrite Hfailed in Hgood. discriminate.
    + rewrite lookup_insert_ne in Hg by exact Hne. eapply inv_failed; eauto.
  - intros id g Hg. cbn in Hg.
    destruct (decide (Media.next_id st = id)) as [<-|Hne].
    + rewrite lookup_insert_eq in Hg. injection Hg as <-. exact Hvalid.
    + rewrite lookup_insert_ne in Hg by exact Hne. eapply inv_valid; eauto.
  - intros id.
    destruct (decide (Media.next_id st = id)) as [<-|Hne].
    + rewrite history_insertOne_same. rewrite fresh_history by exact HI. exact Hgood.
    + rewrite history_insertOne_other by exact Hne. apply (inv_history st HI).
  - intros id Hle. cbn [Media.insertOne snd Media.next_id] in Hle.
    assert (Hne : Media.next_id st <> id) by lia.
    destruct (inv_fresh st HI id ltac:(lia)) as (H1 & H2 & H3).
    split; [|split].
    + cbn. rewrite lookup_insert_ne by exact Hne. exact H1.
    + rewrite history_insertOne_other by exact Hne. exact H2.
    + exact H3.
  - destruct (inv_pending st HI) as [Hnd Hq]. split; [exact Hnd|].
    intros id Hin. rewrite history_insertOne_other; [apply Hq, Hin|].
    intros <-. apply (inv_fresh st HI (Media.next_id st) (Pos.le_refl _)). exact Hin.
  - intros id g Hg. cbn in Hg.
    destruct (decide (Media.next_id st = id)) as [<-|Hne].
    + rewrite lookup_insert_eq in Hg. injection Hg as <-.
      rewrite history_insertOne_same. apply last_snoc.
    + rewrite lookup_insert_ne in Hg by exact Hne.
      rewrite history_insertOne_other by exact Hne. apply (inv_last st HI). exact Hg.
Qed.

(** A status written on an existing frame. *)
Lemma Inv_updateOne st id f0 f :
  Inv st -> Media.frames st !! id = Some f0 ->
  Media.valid f = true ->
  good_prefix (Media.history id st ++ [Media.status f]) = true ->
  (Media.status f = Media.failed -> Media.processingError f <> None) ->
  ~ In id (pending_ids st) ->
  Inv (Media.updateOne st id f).
Proof.
  intros HI Hf0 Hvalid Hgood Herr Hnp.
  pose proof (Inv_known _ _ _ HI Hf0) as Hlt. constructor.
  - intros j g Hg Hfailed. cbn in Hg.
    destruct (decide (id = j)) as [<-|Hne].
    + rewrite lookup_insert_eq in Hg. injection Hg as <-. auto.
    + rewrite lookup_insert_ne in Hg by exact Hne. eapply inv_failed; eauto.
  - intros j g Hg. cbn in Hg.
    destruct (decide (id = j)) as [<-|Hne].
    + rewrite lookup_insert_eq in Hg. injection Hg as <-. exact Hvalid.
    + rewrite lookup_insert_ne in Hg by exact Hne. eapply inv_valid; eauto.
  - intros j.
    destruct (decide (id = j)) as [<-|Hne].
    + rewrite history_updateOne_same. exact Hgood.
    + rewrite history_updateOne_other by exact Hne. apply (inv_history st HI).
  - intros j Hle. cbn [Media.updateOne Media.next_id] in Hle.
    assert (Hne : id <> j) by lia.
    destruct (inv_fresh st HI j Hle) as (H1 & H2 & H3).
    split; [|split].
    + cbn. rewrite lookup_insert_ne by exact Hne. exact H1.
    + rewrite history_updateOne_other by exact Hne. exact H2.
    + exact H3.
  - destruct (inv_pending st HI) as [Hnd Hq]. split; [exact Hnd|].
    intros j Hin. rewrite history_updateOne_other; [apply Hq, Hin|].
    intros <-. apply Hnp. exact Hin.
  - intros j g Hg. cbn in Hg.
    destruct (decide (id = j)) as [<-|Hne].
    + rewrite lookup_insert_eq in Hg. injection Hg as <-.
      rewrite history_updateOne_same. apply last_snoc.
    + rewrite lookup_insert_ne in Hg by exact Hne.
      rewrite history_updateOne_other by exact Hne. apply (inv_last st HI). exact Hg.
Qed.

Lemma sublist_map {A B} (f : A -> B) (l1 l2 : list A) :
  sublist l1 l2 -> sublist (List.map f l1) (List.map f l2).
Proof. induction 1; cbn; constructor; assumption. Qed.

(** Removing frames, or dropping pending tasks, keeps the invariant. *)
Lemma Inv_shrink st fr pd :
  Inv st ->
  (forall id f, fr !! id = Some f -> Media.frames st !! id = Some f) ->
  sublist pd (Media.pending st) ->
  Inv {| Media.frames := fr; Media.next_id := Media.next_id st;
         Media.pending := pd; Media.writes := Media.writes st |}.
Proof.
  intros HI Hsub Hpd.
  assert (Hids : forall id, In id (List.map fst pd) -> In id (pending_ids st)).
  { intros id Hin. apply list_elem_of_In.
    eapply elem_of_sublist; [apply list_elem_of_In, Hin|].
    apply (sublist_map fst), Hpd. }
  constructor.
  - intros id f Hf. apply (inv_failed st HI id f). auto.
  - intros id f Hf. apply (inv_valid st HI id f). auto.
  - intros id. apply (inv_history st HI).
  - intros id Hle. destruct (inv_fresh st HI id Hle) as (H1 & H2 & H3).
    split; [|split].
    + cbn. destruct (fr !! id) as [f|] eqn:Hf; [|reflexivity].
      apply Hsub in Hf. congruence.
    + exact H2.
    + intros Hin. apply H3, Hids, Hin.
  - destruct (inv_pending st HI) as [Hnd Hq]. split.
    + unfold pending_ids. cbn.
      eapply sublist_NoDup; [exact Hnd|]. apply (sublist_map fst), Hpd.
    + intros id Hin. apply (Hq id), Hids, Hin.
  - intros id f Hf. apply (inv_last st HI id f). auto.
Qed.

(** Registering the unawaited processing of a frame just created. *)
Lemma Inv_pending_add st id url :
  Inv st -> Media.history id st = [Media.queued] -> ~ In id (pending_ids st) ->
  Inv {| Media.frames := Media.frames st; Media.next_id := Media.next_id st;
         Media.pending := Media.pending st ++ [(id, url)];
         Media.writes := Media.writes st |}.
Proof.
  intros HI Hq Hnp. constructor.
  - apply (inv_failed st HI).
  - apply (inv_valid st HI).
  - apply (inv_history st HI).
  - intros j Hle. destruct (inv_fresh st HI j Hle) as (H1 & H2 & H3).
    repeat split; try assumption.
    unfold pending_ids. cbn. rewrite List.map_app. intros Hin.
    apply in_app_or in Hin as [Hin|[<-|[]]]; [exact (H3 Hin)|].
    unfold Media.history in *. cbn in *. congruence.
  - destruct (inv_pending st HI) as [Hnd Hqs]. unfold pending_ids. cbn.
    rewrite List.map_app. split.
    + apply NoDup_app. split; [exact Hnd|]. split.
      * intros x Hx Hx'. apply list_elem_of_In in Hx, Hx'. cbn in Hx'.
        destruct Hx' as [<-|[]]. exact (Hnp Hx).
      * cbn. apply NoDup_singleton.
    + intros j Hin. apply in_app_or in Hin as [Hin|[<-|[]]]; [apply Hqs, Hin|exact Hq].
  - apply (inv_last st HI).
Qed.

(** *** The ingestion helpers keep the invariant *)

(** The frame is in the collection, hence valid, so the first
    [frame.save()] of [processImageImmediately] goes through and the frame
    is in [processing] before the [catch] can mark it failed. *)
Lemma processImageImmediately_Inv env st id url :
  Inv st -> Media.history id st = [Media.queued] -> ~ In id (pending_ids st) ->
  let st' := fst (Media.processImageImmediately env st id url) in
  Inv st'
  /\ Media.next_id st' = Media.next_id st
  /\ Media.pending st' = Media.pending st
  /\ (forall j, j <> id -> Media.history j st' = Media.history j st).
Proof.
  intros HI Hq Hnp. unfold Media.processImageImmediately.
  destruct (Media.frames st !! id) as [frame|] eqn:Hframe; [|cbn; auto].
  pose proof (inv_valid st HI id frame Hframe) as Hvalid.
  assert (Hsave : Media.save env st id (Media.with_status frame Media.processing)
                  = Returned (Media.updateOne st id
                                (Media.with_status frame Media.processing))).
  { unfold Media.save.
    change (Media.valid (Media.with_status frame Media.processing))
      with (Media.valid frame).
    rewrite Hvalid. reflexivity. }
  rewrite Hsave.
  set (st1 := Media.updateOne st id (Media.with_status frame Media.processing)).
  assert (HI1 : Inv st1).
  { apply (Inv_updateOne st id frame _ HI Hframe);
      [exact Hvalid|rewrite Hq; reflexivity|discriminate|exact Hnp]. }
  assert (Hq1 : Media.history id st1 = [Media.queued; Media.processing]).
  { unfold st1. rewrite history_updateOne_same. rewrite Hq. reflexivity. }
  assert (Hf1 : Media.frames st1 !! id
                = Some (Media.with_status frame Media.processing)).
  { unfold st1. cbn. apply lookup_insert_eq. }
  assert (Hwrite : forall f,
            Media.valid f = true ->
            Media.status f = Media.completed
            \/ (Media.status f = Media.failed /\ Media.processingError f <> None) ->
            let st' := Media.updateOne st1 id f in
            Inv st'
            /\ Media.next_id st' = Media.next_id st
            /\ Media.pending st' = Media.pending st
            /\ (forall j, j <> id -> Media.history j st' = Media.history j st)).
  { intros f Hv Hs. cbv zeta. split; [|split; [reflexivity|split; [reflexivity|]]].
    - apply (Inv_updateOne st1 id _ _ HI1 Hf1); [exact Hv| | |exact Hnp].
      + rewrite Hq1. destruct Hs as [->|[-> _]]; reflexivity.
      + destruct Hs as [Hs|[_ He]]; [congruence|auto].
    - intros j Hne. rewrite history_updateOne_other by congruence.
      unfold st1. apply history_updateOne_other. congruence. }
  assert (Hcaught : forall error,
            let st' := Media.findByIdAndUpdate st1 id
                         (fun f => Media.with_failure f (message error)) in
            Inv st'
            /\ Media.next_id st' = Media.next_id st
            /\ Media.pending st' = Media.pending st
            /\ (forall j, j <> id -> Media.history j st' = Media.history j st)).
  { intros error. unfold Media.findByIdAndUpdate. rewrite Hf1.
    apply Hwrite; [exact Hvalid|]. right. split; [reflexivity|discriminate]. }
  destruct (Media.extractText env (Some url)) as [ocrResult|error];
    [|cbn [fst]; apply Hcaught].
  unfold Media.save.
  match goal with
  | |- context [Media.valid ?f] => destruct (Media.valid f) eqn:Hv
  end; cbn [fst]; [|apply Hcaught].
  apply Hwrite; [exact Hv|]. left. reflexivity.
Qed.

Lemma insertOne_then_queued st f :
  Inv st -> Media.valid f = true -> Media.status f = Media.queued ->
  let st' := snd (Media.insertOne st f) in
  Inv st' /\ Media.history (Media.next_id st) st' = [Media.queued]
  /\ ~ In (Media.next_id st) (pending_ids st')
  /\ (forall j, j <> Media.next_id st -> Media.history j st' = Media.history j st).
Proof.
  intros HI Hvalid Hst. cbv zeta. split; [|split; [|split]].
  - apply Inv_insertOne; [exact HI|exact Hvalid|]. rewrite Hst. reflexivity.
  - rewrite history_insertOne_same. rewrite fresh_history by exact HI.
    rewrite Hst. reflexivity.
  - apply (inv_fresh st HI). apply Pos.le_refl.
  - intros j Hne. apply history_insertOne_other. congruence.
Qed.

Lemma process_pages_Inv env pid user pages :
  forall st acc, Inv st ->
  let st' := fst (Media.process_pages env st pid user pages acc) in
  Inv st'
  /\ Media.pending st' = Media.pending st
  /\ (forall j, (j < Media.next_id st)%positive ->
        Media.history j st' = Media.history j st).
Proof.
  induction pages as [|page rest IH]; intros st acc HI; cbn [Media.process_pages].
  - cbn. auto.
  - destruct (Media.upload env _ _) as [url|e]; [|cbn; auto].
    set (f := Media.new_frame user Media.pdf_page url None (Some pid)
                (Some (Media.p_pageNumber page)) Media.queued).
    unfold Media.create. destruct (Media.valid f) eqn:Hvalid; [|cbn; auto].
    destruct (insertOne_then_queued st f HI Hvalid eq_refl) as (HI1 & Hq1 & Hnp1 & Ho1).
    change (Media.insertOne st f) with (Media.next_id st, snd (Media.insertOne st f)).
    cbv iota beta.
    destruct (processImageImmediately_Inv env (snd (Media.insertOne st f))
                (Media.next_id st) url HI1 Hq1 Hnp1) as (HI2 & Hn2 & Hp2 & Ho2).
    destruct (Media.processImageImmediately env (snd (Media.insertOne st f))
                (Media.next_id st) url) as [st2 processed].
    cbn [fst] in *.
    destruct (IH st2 (acc ++ [(Media.next_id st, processed)]) HI2) as (HI3 & Hp3 & Ho3).
    split; [exact HI3|]. split.
    + etransitivity; [exact Hp3|]. rewrite Hp2. reflexivity.
    + intros j Hj. etransitivity; [apply Ho3; rewrite Hn2; cbn; lia|].
      rewrite Ho2 by lia. apply Ho1. lia.
Qed.

Lemma processPdfImmediately_Inv env st pid buffer user :
  Inv st -> Media.history pid st = [Media.processing] -> ~ In pid (pending_ids st) ->
  (pid < Media.next_id st)%positive ->
  Inv (fst (Media.processPdfImmediately env st pid buffer user)).
Proof.
  intros HI Hq Hnp Hlt.
  assert (Hupd : forall st' (upd : Media.Frame -> Media.Frame),
            Inv st' -> Media.history pid st' = [Media.processing] ->
            ~ In pid (pending_ids st') ->
            (forall f, Media.valid (upd f) = Media.valid f) ->
            (forall f, Media.status (upd f) = Media.completed
                       \/ (Media.status (upd f) = Media.failed
                           /\ Media.processingError (upd f) <> None)) ->
            Inv (Media.findByIdAndUpdate st' pid upd)).
  { intros st' upd HI' Hq' Hnp' Hv Hupd. unfold Media.findByIdAndUpdate.
    destruct (Media.frames st' !! pid) as [f|] eqn:Hf; [|exact HI'].
    apply (Inv_updateOne st' pid f _ HI' Hf); [| | |exact Hnp'].
    - rewrite Hv. exact (inv_valid st' HI' pid f Hf).
    - rewrite Hq'. destruct (Hupd f) as [->|[-> _]]; reflexivity.
    - destruct (Hupd f) as [H|[_ H]]; [congruence|auto]. }
  unfold Media.processPdfImmediately.
  destruct (Media.convertToImages env buffer) as [pages|e].
  - destruct (process_pages_Inv env pid user pages st [] HI) as (HI' & Hp' & Ho').
    destruct (Media.process_pages env st pid user pages []) as [st' [pageFrames|e]];
      cbn [fst] in *.
    + apply Hupd; [exact HI'|rewrite Ho' by exact Hlt; exact Hq
                  |unfold pending_ids; rewrite Hp'; exact Hnp|reflexivity|].
      intros f. left. reflexivity.
    + apply Hupd; [exact HI'|rewrite Ho' by exact Hlt; exact Hq
                  |unfold pending_ids; rewrite Hp'; exact Hnp|reflexivity|].
      intros f. right. split; [reflexivity|discriminate].
  - cbn [fst]. apply Hupd; [exact HI|exact Hq|exact Hnp|reflexivity|].
    intros f. right. split; [reflexivity|discriminate].
Qed.

(** *** Every operation keeps the invariant *)

(** The OCR collaborator rejects a call without image, as the recognition
    engine does. The region extraction is the one handler that makes such
    a call: it passes [frame.previewUrl], which is not a path of the
    schema. *)
Definition ocr_needs_image (op : Media.Op) : Prop :=
  match op with
  | Media.ExtractRegion env _ _ _ => threw (Media.extractText env None) = true
  | _ => True
  end.

(** With such an OCR the region extraction writes nothing. *)
Lemma extractTextFromRegion_reads env st user frameId rect :
  threw (Media.extractText env None) = true ->
  fst (Media.extractTextFromRegion env st user frameId rect) = st.
Proof.
  intros Hocr. unfold Media.extractTextFromRegion.
  destruct frameId as [frameId|]; [|reflexivity].
  destruct (Media.r_x rect); [|reflexivity].
  destruct (Media.r_y rect); [|reflexivity].
  destruct (Media.r_width rect); [|reflexivity].
  destruct (Media.r_height rect); [|reflexivity].
  destruct (Media.frames st !! frameId) as [frame|]; [|reflexivity].
  destruct (negb _); [reflexivity|].
  destruct (Media.has_words frame); [reflexivity|].
  destruct (Media.extractText env None); [discriminate Hocr|reflexivity].
Qed.

Lemma delete_nth_not_in {A B} (l : list (A * B)) n a b :
  NoDup (List.map fst l) -> l !! n = Some (a, b) ->
  ~ In a (List.map fst (delete n l)).
Proof.
  revert n. induction l as [|[a' b'] l IH]; intros [|n] Hnd Hn; cbn in *;
    try discriminate.
  - injection Hn as -> ->. apply NoDup_cons in Hnd as [Hni _].
    intros Hin. apply Hni, list_elem_of_In, Hin.
  - apply NoDup_cons in Hnd as [Hni Hnd]. intros [->|Hin].
    + apply Hni, list_elem_of_In. apply List.in_map_iff.
      exists (a, b). split; [reflexivity|].
      apply list_elem_of_In. eapply list_elem_of_lookup_2. exact Hn.
    + exact (IH n Hnd Hn Hin).
Qed.

Lemma step_Inv st op : ocr_needs_image op -> Inv st -> Inv (Media.step st op).
Proof.
  intros Hocr HI. destruct op as [env user file|env user file
    |env user frameId rect|env user frameId rect|user id|env n]; cbn [Media.step].
  - (* uploadImage *)
    unfold Media.uploadImage. destruct file as [buffer|]; [|exact HI].
    destruct (Media.upload env _ _) as [url|e]; [|exact HI].
    set (f := Media.new_frame user Media.image url None None None Media.queued).
    unfold Media.create. destruct (Media.valid f) eqn:Hvalid; [|exact HI].
    destruct (insertOne_then_queued st f HI Hvalid eq_refl) as (HI1 & Hq1 & Hnp1 & _).
    change (Media.insertOne st f) with (Media.next_id st, snd (Media.insertOne st f)).
    cbv iota beta.
    destruct (processImageImmediately_Inv env (snd (Media.insertOne st f))
                (Media.next_id st) url HI1 Hq1 Hnp1) as (HI2 & _).
    destruct (Media.processImageImmediately env (snd (Media.insertOne st f))
                (Media.next_id st) url) as [st2 processed].
    exact HI2.
  - (* uploadPdf *)
    unfold Media.uploadPdf. destruct file as [buffer|]; [|exact HI].
    destruct (Media.upload env _ _) as [url|e]; [|exact HI].
    destruct (Media.getMetadata env buffer) as [_|e]; [|exact HI].
    set (f := Media.new_frame user Media.pdf_page url None None None Media.processing).
    unfold Media.create. destruct (Media.valid f) eqn:Hvalid; [|exact HI].
    change (Media.insertOne st f) with (Media.next_id st, snd (Media.insertOne st f)).
    cbv iota beta.
    assert (HI1 : Inv (snd (Media.insertOne st f))) by (apply Inv_insertOne; auto).
    assert (Hq1 : Media.history (Media.next_id st) (snd (Media.insertOne st f))
                  = [Media.processing]).
    { rewrite history_insertOne_same. rewrite fresh_history by exact HI. reflexivity. }
    pose proof (processPdfImmediately_Inv env (snd (Media.insertOne st f))
                  (Media.next_id st) buffer user HI1 Hq1) as HI2.
    destruct (Media.processPdfImmediately env (snd (Media.insertOne st f))
                (Media.next_id st) buffer user) as [st2 pageFrames].
    apply HI2.
    + apply (inv_fresh st HI). apply Pos.le_refl.
    + cbn. lia.
  - (* extractCrop *)
    unfold Media.extractCrop.
    destruct frameId as [frameId|]; [|exact HI].
    destruct (Media.r_x rect); [|exact HI].
    destruct (Media.r_y rect); [|exact HI].
    destruct (Media.falsy _ || Media.falsy _); [exact HI|].
    destruct (Media.findOne st frameId user) as [sourceFrame|]; [|exact HI].
    destruct (Media.download env _) as [imageBuffer|]; [|exact HI].
    destruct (Media.cropImage env _ _) as [croppedBuffer|]; [|exact HI].
    destruct (Media.upload env _ _) as [url|e]; [|exact HI].
    set (f := Media.new_frame user Media.crop (Media.sourceUrl sourceFrame) (Some url)
                (Some frameId) None Media.queued).
    unfold Media.create. destruct (Media.valid f) eqn:Hvalid; [|exact HI].
    destruct (insertOne_then_queued st f HI Hvalid eq_refl) as (HI1 & Hq1 & Hnp1 & _).
    change (Media.insertOne st f) with (Media.next_id st, snd (Media.insertOne st f)).
    cbv iota beta. cbn [fst].
    apply (Inv_pending_add _ _ url HI1 Hq1 Hnp1).
  - (* extractTextFromRegion *)
    rewrite extractTextFromRegion_reads by exact Hocr. exact HI.
  - (* deleteFrame *)
    unfold Media.deleteFrame.
    destruct (Media.findOne st id user) as [frame|]; [|exact HI].
    cbn [fst]. unfold Media.findByIdAndDelete.
    destruct (bool_decide _ && negb _); cbn [Media.deleteMany_pdfId Media.frames
      Media.next_id Media.pending Media.writes].
    + apply (Inv_shrink st); [exact HI| |reflexivity].
      intros j g Hg. apply lookup_delete_Some in Hg as [_ Hg].
      apply map_lookup_filter_Some in Hg as [Hg _]. exact Hg.
    + apply (Inv_shrink st); [exact HI| |reflexivity].
      intros j g Hg. apply lookup_delete_Some in Hg as [_ Hg]. exact Hg.
  - (* runPending *)
    unfold Media.runPending.
    destruct (Media.pending st !! n) as [[id url]|] eqn:Hn; [|exact HI].
    set (st0 := {| Media.frames := Media.frames st; Media.next_id := Media.next_id st;
                   Media.pending := delete n (Media.pending st);
                   Media.writes := Media.writes st |}).
    assert (HI0 : Inv st0).
    { apply (Inv_shrink st); [exact HI|auto|apply sublist_delete]. }
    destruct (inv_pending st HI) as [Hnd Hq].
    apply (processImageImmediately_Inv env st0 id url HI0).
    + rewrite (history_writes _ st0 st) by reflexivity.
      apply Hq. apply List.in_map_iff. exists (id, url). split; [reflexivity|].
      apply list_elem_of_In. eapply list_elem_of_lookup_2. exact Hn.
    + unfold pending_ids, st0. cbn. eapply delete_nth_not_in; eauto.
Qed.

Lemma run_Inv ops : Forall ocr_needs_image ops -> Inv (Media.run ops).
Proof.
  unfold Media.run. generalize Inv_empty. generalize Media.empty_store.
  induction ops as [|op ops IH]; intros st HI Hocr; cbn; [exact HI|].
  apply Forall_cons in Hocr as [Hop Hocr].
  apply IH; [|exact Hocr]. apply step_Inv; assumption.
Qed.

(** C7. Under every sequence of ingestion operations (uploads, crop and
    region extractions, deletions, and the runs of the processing that
    crop extraction leaves pending), with an OCR that rejects a call
    without image: a frame whose status is [failed] carries an error
    message; the statuses written to a frame follow
    [queued -> processing -> completed | failed], a parent document frame
    starting at [processing], so no frame is [completed] without having
    been in [processing]; and the status of a stored frame is the last
    one written to it. *)
Theorem ingestion_status_invariant (ops : list Media.Op) :
  Forall ocr_needs_image ops ->
  let st := Media.run ops in
  (forall id f, Media.frames st !! id = Some f ->
     Media.status f = Media.failed -> Media.processingError f <> None)
  /\ (forall id,
        Media.follows_machine (Media.history id st) = true
        /\ Media.completed_after_processing false (Media.history id st) = true)
  /\ (forall id f, Media.frames st !! id = Some f ->
        last (Media.history id st) = Some (Media.status f)).
Proof.
  intros Hocr st. pose proof (run_Inv ops Hocr) as HI. fold st in HI.
  split; [apply (inv_failed st HI)|].
  split; [intros id; apply good_prefix_machine, (inv_history st HI)|].
  apply (inv_last st HI).
Qed.

(** An OCR collaborator that throws. *)
Definition failing_ocr_env : Media.Env :=
  {| Media.upload := Media.upload quiet_env;
     Media.extractText := fun _ =>
       Threw {| message := js "Tesseract OCR failed: network error" |};
     Media.extractConcepts := Media.extractConcepts quiet_env;
     Media.getMetadata := Media.getMetadata quiet_env;
     Media.convertToImages := Media.convertToImages quiet_env;
     Media.download := Media.download quiet_env;
     Media.cropImage := Media.cropImage quiet_env;
     Media.validationError := Media.validationError quiet_env |}.

(** A vision collaborator that answers with a difficulty outside the
    enumeration of the schema. *)
Definition odd_difficulty_env : Media.Env :=
  {| Media.upload := Media.upload quiet_env;
     Media.extractText := Media.extractText quiet_env;
     Media.extractConcepts := fun _ _ =>
       Returned {| Media.c_conceptTags := [js "optics"];
                   Media.c_difficulty := js "school" |};
     Media.getMetadata := Media.getMetadata quiet_env;
     Media.convertToImages := Media.convertToImages quiet_env;
     Media.download := Media.download quiet_env;
     Media.cropImage := Media.cropImage quiet_env;
     Media.validationError := Media.validationError quiet_env |}.

Definition whole_page : Media.Rect :=
  {| Media.r_x := Some (Num.of_Z 0); Media.r_y := Some (Num.of_Z 0);
     Media.r_width := Some (Num.of_Z 100); Media.r_height := Some (Num.of_Z 50) |}.

(** A run with every kind of operation: an image uploaded while the OCR
    is down, a region request on that failed frame, a document of two
    pages, an image whose concepts the schema rejects, a crop of the
    first page and the run of its processing, a deletion. *)
Definition sample_ops : list Media.Op :=
  [ Media.UploadImage failing_ocr_env 7%positive (Some (js "image bytes"));
    Media.ExtractRegion quiet_env 7%positive (Some 1%positive) whole_page;
    Media.UploadPdf quiet_env 7%positive (Some (js "pdf bytes"));
    Media.UploadImage odd_difficulty_env 7%positive (Some (js "image bytes"));
    Media.ExtractCrop quiet_env 7%positive (Some 3%positive) whole_page;
    Media.ExtractRegion quiet_env 7%positive (Some 6%positive) whole_page;
    Media.RunPending quiet_env 0;
    Media.DeleteFrame 7%positive 1%positive ].

Lemma ingestion_status_invariant_witness :
  let st := Media.run sample_ops in
  Forall ocr_needs_image sample_ops
  /\ (forall id f, Media.frames st !! id = Some f ->
        Media.status f = Media.failed -> Media.processingError f <> None)
  /\ (forall id,
        Media.follows_machine (Media.history id st) = true
        /\ Media.completed_after_processing false (Media.history id st) = true)
  /\ (forall id f, Media.frames st !! id = Some f ->
        last (Media.history id st) = Some (Media.status f)).
Proof.
  assert (Hocr : Forall ocr_needs_image sample_ops)
    by (repeat constructor).
  split; [exact Hocr|]. exact (ingestion_status_invariant sample_ops Hocr).
Defined.

(** The histories of that run: the failed image stays failed through the
    region request, which is answered with 500; the parent goes from
    [processing] to [completed], each page through the three statuses;
    the image with the rejected concepts ends failed; the crop is still
    [queued] at the region request on it and completed once its pending
    processing has run. *)
Example sample_histories :
  let st := Media.run (firstn 7 sample_ops) in
  Media.history 1%positive st = [Media.queued; Media.processing; Media.failed]
  /\ snd (Media.extractTextFromRegion quiet_env (Media.run (firstn 1 sample_ops))
            7%positive (Some 1%positive) whole_page) = Media.Failure 500
  /\ Media.history 2%positive st = [Media.processing; Media.completed]
  /\ Media.history 3%positive st = [Media.queued; Media.processing; Media.completed]
  /\ Media.history 4%positive st = [Media.queued; Media.processing; Media.completed]
  /\ Media.history 5%positive st = [Media.queued; Media.processing; Media.failed]
  /\ Media.history 6%positive (Media.run (firstn 6 sample_ops)) = [Media.queued]
  /\ Media.history 6%positive st = [Media.queued; Media.processing; Media.completed]
  /\ Media.pending st = []
  /\ size (Media.frames st) = 6.
Proof. vm_compute. repeat split. Qed.

(** ** Response parsing *)

(** The object returned by the Groq client when the text is not JSON. *)
Definition groq_unparsed (text : jsstring) : Json.json :=
  Json.JObj
    [ (js "explanation", Json.JStr text);
      (js "steps", Gen.strings [js "See explanation above."]);
      (js "finalAnswer", Json.JStr (js "Could not parse structured answer."));
      (js "confidence", Json.JNum Num.zero);
      (js "meta", Json.JObj [ (js "subject", Json.JStr (js "General"));
                              (js "difficulty", Json.JStr (js "Unknown"));
                              (js "type", Json.JStr (js "General")) ]) ].

(** An answer object with the four fields of the structured answer. *)
Definition is_answer_object (raw : jsstring) (v : Json.json) : Prop :=
  exists steps finalAnswer confidence,
    v = Gen.answer_object steps finalAnswer confidence raw.

Definition long_plain_line (line : jsstring) : bool :=
  negb (Gen.is_step_line line) && (50 <? length line)%nat.

Lemma structure_lines_spec lines : forall steps finalAnswer,
  Gen.structure_lines lines steps finalAnswer
  = (steps ++ List.map Gen.strip_step_label (List.filter Gen.is_step_line lines),
     finalAnswer
     ++ List.concat (List.map (fun l => l ++ js " ") (List.filter long_plain_line lines))).
Proof.
  induction lines as [|line rest IH]; intros steps finalAnswer;
    cbn [Gen.structure_lines List.filter].
  - cbn [List.map List.concat]. rewrite !app_nil_r. reflexivity.
  - unfold long_plain_line at 1.
    destruct (Gen.is_step_line line); cbn [negb andb].
    + cbn [List.map]. rewrite IH, <- app_assoc. reflexivity.
    + destruct (50 <? length line)%nat; rewrite IH; [|reflexivity].
      cbn [List.map List.concat]. rewrite <- !app_assoc. reflexivity.
Qed.

Lemma structureNonJsonResponse_object content :
  is_answer_object content (Gen.structureNonJsonResponse content).
Proof.
  unfold Gen.structureNonJsonResponse.
  destruct (Gen.structure_lines _ _ _) as [steps finalAnswer].
  eexists _, _, _. reflexivity.
Qed.

Lemma from_parsed_object parsed conf raw a :
  Gen.from_parsed parsed conf raw = Returned a -> is_answer_object raw a.
Proof.
  unfold Gen.from_parsed. destruct parsed; try discriminate;
    intros [= <-]; eexists _, _, _; reflexivity.
Qed.

(** C4, as the code has it. Parsing never throws. The Groq client returns
    the directly parsed value, or a fixed object carrying the raw text. The
    Claude client parses the span from the first opening brace to the last
    closing brace, the Gemini client the text without its code fences; both
    fall back to the line-based structuring when that fails and always
    produce an object with steps, finalAnswer, confidence and rawResponse.
    The line-based structuring turns the non-blank lines with a step prefix
    into steps (the whole text being the only step when there is none) and
    the other lines of more than 50 characters into the final answer (the
    first 200 characters of the text when there is none). *)
Theorem parsing_never_fails (text : jsstring) :
  Gen.Groq.parseResponse text
    = match Json.JSON_parse text with Some v => v | None => groq_unparsed text end
  /\ is_answer_object text (Gen.Claude.parseContent text)
  /\ ((Gen.Claude.jsonMatch text = None
       \/ exists m, Gen.Claude.jsonMatch text = Some m /\ Json.JSON_parse m = None) ->
      Gen.Claude.parseContent text = Gen.structureNonJsonResponse text)
  /\ is_answer_object text (Gen.Gemini.parseResponse text)
  /\ (Json.JSON_parse
        (trim (Str.replace_all Gen.Gemini.fence []
                 (Str.replace_all (Gen.Gemini.fence ++ js "json") [] text))) = None ->
      Gen.Gemini.parseResponse text = Gen.structureNonJsonResponse text)
  /\ (let lines := List.filter Gen.nonblank (Str.split Str.NL text) in
      let steps := List.map Gen.strip_step_label (List.filter Gen.is_step_line lines) in
      let long :=
        trim (List.concat (List.map (fun l => l ++ js " ")
                             (List.filter long_plain_line lines))) in
      Gen.structureNonJsonResponse text
      = Gen.answer_object
          (Gen.strings (match steps with [] => [text] | _ => steps end))
          (Json.JStr (match long with [] => substring text 0 200 | _ => long end))
          (Json.JNum (Num.dec 75 2)) text).
Proof.
  split; [|split; [|split; [|split; [|split]]]].
  - unfold Gen.Groq.parseResponse, Gen.parse_or_throw.
    destruct (Json.JSON_parse text); reflexivity.
  - unfold Gen.Claude.parseContent, Gen.parse_or_throw.
    destruct (Gen.Claude.jsonMatch text) as [m|];
      [|apply structureNonJsonResponse_object].
    destruct (Json.JSON_parse m) as [parsed|];
      [|apply structureNonJsonResponse_object].
    destruct (Gen.from_parsed parsed _ text) eqn:Hp;
      [eapply from_parsed_object; eauto|apply structureNonJsonResponse_object].
  - unfold Gen.Claude.parseContent, Gen.parse_or_throw.
    intros [->|(m & -> & ->)]; reflexivity.
  - unfold Gen.Gemini.parseResponse, Gen.parse_or_throw.
    destruct (Json.JSON_parse _) as [parsed|];
      [|apply structureNonJsonResponse_object].
    destruct (Gen.from_parsed parsed _ text) eqn:Hp;
      [eapply from_parsed_object; eauto|apply structureNonJsonResponse_object].
  - unfold Gen.Gemini.parseResponse, Gen.parse_or_throw. intros ->. reflexivity.
  - cbv zeta. unfold Gen.structureNonJsonResponse.
    rewrite structure_lines_spec. cbn [app].
    destruct (List.map Gen.strip_step_label _);
      destruct (trim (concat _)); reflexivity.
Qed.

(** A quoted JSON string literal. *)
Definition quoted (s : string) : jsstring := [34%N] ++ js s ++ [34%N].

(** [Sure! {"steps":["a"]}] *)
Definition prose_then_object : jsstring :=
  js "Sure! {" ++ quoted "steps" ++ js ":[" ++ quoted "a" ++ js "]}".

(** [{"steps":["a"]} and {"x":1}] *)
Definition two_objects : jsstring :=
  js "{" ++ quoted "steps" ++ js ":[" ++ quoted "a" ++ js "]} and {"
  ++ quoted "x" ++ js ":1}".

(** Two numbered lines. *)
Definition numbered_lines : jsstring := js "1. First" ++ [Str.NL] ++ js "2. Second".

Definition steps_a : Json.json := Json.JObj [ (js "steps", Gen.strings [js "a"]) ].

(** No client follows the three stages. On prose followed by an object the
    policy extracts and parses the object, while the Groq client returns
    its fixed placeholder and the Gemini client structures the text by
    lines; on two objects in a row the policy parses the first, while the
    Claude client takes the span from the first opening to the last closing
    brace, fails to parse it and structures the text by lines; on numbered
    lines the policy structures by lines, while the Groq client returns its
    placeholder; and on the text [null] the Groq client returns [null], not
    an answer object. *)
Lemma parsing_policy_counterexample :
  Policy.parse prose_then_object = Policy.Extracted steps_a
  /\ Json.get (js "steps") (Gen.Groq.parseResponse prose_then_object)
     = Some (Gen.strings [js "See explanation above."])
  /\ Json.get (js "steps") (Gen.Gemini.parseResponse prose_then_object)
     = Some (Gen.strings [prose_then_object])
  /\ Policy.parse two_objects = Policy.Extracted steps_a
  /\ Json.get (js "steps") (Gen.Claude.parseContent two_objects)
     = Some (Gen.strings [two_objects])
  /\ Policy.parse numbered_lines
     = Policy.Heuristic [js "1. First"; js "2. Second"] []
  /\ Json.get (js "steps") (Gen.Groq.parseResponse numbered_lines)
     = Some (Gen.strings [js "See explanation above."])
  /\ Gen.Groq.parseResponse (js "null") = Json.JNull
  /\ Json.get (js "steps") (Gen.Groq.parseResponse (js "null")) = None.
Proof. vm_compute. repeat split. Qed.

(** ** Diagram repair *)

(** *** Trimming *)

Lemma trimStart_head s c r : trimStart s = c :: r -> is_ws c = false.
Proof.
  induction s as [|d s IH]; cbn; [discriminate|].
  destruct (is_ws d) eqn:Hd; [exact IH|]. intros [= <- _]. exact Hd.
Qed.

Lemma trimStart_solid c s : is_ws c = false -> trimStart (c :: s) = c :: s.
Proof. intros H. cbn. rewrite H. reflexivity. Qed.

Lemma trimStart_idem s : trimStart (trimStart s) = trimStart s.
Proof.
  induction s as [|c s IH]; cbn; [reflexivity|].
  destruct (is_ws c) eqn:Hc; [exact IH|]. cbn. rewrite Hc. reflexivity.
Qed.

Lemma trimStart_app_solid u c v :
  is_ws c = false -> trimStart (u ++ c :: v) = trimStart u ++ c :: v.
Proof.
  intros Hc. induction u as [|d u IH]; cbn.
  - rewrite Hc. reflexivity.
  - destruct (is_ws d); [exact IH|reflexivity].
Qed.

(** A text whose last unit before [r] is not white space keeps that
    prefix when trimmed at the end. *)
Lemma trimEnd_app_solid k c r :
  is_ws c = false -> trimEnd (k ++ c :: r) = k ++ c :: trimEnd r.
Proof.
  intros Hc. unfold trimEnd.
  rewrite rev_app_distr. cbn [rev]. rewrite <- app_assoc. cbn [app].
  rewrite trimStart_app_solid by exact Hc.
  rewrite rev_app_distr. cbn [rev]. rewrite rev_involutive, <- app_assoc.
  reflexivity.
Qed.

(** What trimming removes is white space. *)
Lemma trimStart_split s :
  exists w, s = w ++ trimStart s /\ Forall (fun c => is_ws c = true) w.
Proof.
  induction s as [|c s (w & Hw & Hall)]; cbn.
  - exists []. split; [reflexivity|constructor].
  - destruct (is_ws c) eqn:Hc.
    + exists (c :: w). split; [cbn; congruence|constructor; assumption].
    + exists []. split; [reflexivity|constructor].
Qed.

Lemma trimEnd_split s :
  exists w, s = trimEnd s ++ w /\ Forall (fun c => is_ws c = true) w.
Proof.
  unfold trimEnd. destruct (trimStart_split (rev s)) as (w & Hw & Hall).
  exists (rev w). split.
  - rewrite <- rev_app_distr, <- Hw, rev_involutive. reflexivity.
  - apply List.Forall_rev. exact Hall.
Qed.

Lemma trim_idem s : trim (trim s) = trim s.
Proof.
  unfold trim.
  assert (Hstart : trimStart (trimEnd (trimStart s)) = trimEnd (trimStart s)).
  { destruct (trimStart s) as [|c r] eqn:Hs; [reflexivity|].
    apply trimStart_head in Hs.
    pose proof (trimEnd_app_solid [] c r Hs) as He. cbn [app] in He.
    rewrite He. apply trimStart_solid. exact Hs. }
  rewrite Hstart. unfold trimEnd. rewrite rev_involutive, trimStart_idem.
  reflexivity.
Qed.

(** A text that starts with a white-space-free word keeps it when
    trimmed. *)
Lemma trim_keeps_word k r :
  k <> [] -> Forall (fun c => is_ws c = false) k ->
  exists r', trim (k ++ r) = k ++ r'.
Proof.
  intros Hne Hk. unfold trim.
  destruct k as [|c k]; [contradiction|].
  rewrite <- app_comm_cons.
  rewrite trimStart_solid by (inversion Hk; assumption).
  rewrite app_comm_cons.
  destruct (exists_last Hne) as (k0 & d & Hk0). rewrite Hk0.
  rewrite <- app_assoc. cbn [app].
  assert (Hd : is_ws d = false).
  { rewrite Hk0 in Hk. apply Forall_app in Hk as [_ Hk]. inversion Hk. assumption. }
  rewrite trimEnd_app_solid by exact Hd.
  exists (trimEnd r). rewrite <- app_assoc. reflexivity.
Qed.

Lemma trim_cons_ws c l : is_ws c = true -> trim (c :: l) = trim l.
Proof. intros H. unfold trim. cbn [trimStart]. rewrite H. reflexivity. Qed.

Lemma trim_snoc_ws c l : is_ws c = true -> trim (l ++ [c]) = trim l.
Proof.
  intros Hc. induction l as [|d l IH].
  - unfold trim. cbn. rewrite Hc. reflexivity.
  - destruct (is_ws d) eqn:Hd.
    + rewrite <- app_comm_cons, !trim_cons_ws by exact Hd. exact IH.
    + unfold trim. rewrite <- app_comm_cons, !trimStart_solid by exact Hd.
      unfold trimEnd. rewrite app_comm_cons, rev_app_distr. cbn [rev app].
      cbn [trimStart]. rewrite Hc. reflexivity.
Qed.

(** *** Lines *)

Lemma split_nonempty s : exists l ls, Str.split Str.NL s = l :: ls.
Proof.
  induction s as [|c s (l & ls & IH)]; cbn; [eauto|].
  destruct (c =? Str.NL)%N; [eauto|]. rewrite IH. eauto.
Qed.

Lemma split_cons_other c s l ls :
  c <> Str.NL -> Str.split Str.NL s = l :: ls ->
  Str.split Str.NL (c :: s) = (c :: l) :: ls.
Proof.
  intros Hc Hs. cbn. rewrite Hs.
  destruct (N.eqb_spec c Str.NL); [contradiction|reflexivity].
Qed.

Lemma join_cons sep l l' ls :
  Str.join sep (l :: l' :: ls) = l ++ sep ++ Str.join sep (l' :: ls).
Proof. reflexivity. Qed.

Lemma join_split s : Str.join [Str.NL] (Str.split Str.NL s) = s.
Proof.
  induction s as [|c s IH]; [reflexivity|].
  destruct (split_nonempty s) as (l & ls & Hs). cbn [Str.split].
  rewrite Hs in *. destruct (N.eqb_spec c Str.NL) as [->|Hc].
  - rewrite join_cons, IH. reflexivity.
  - destruct ls as [|l' ls].
    + cbn in *. congruence.
    + rewrite join_cons in *. rewrite <- IH. reflexivity.
Qed.

(** A line without line feed, followed by a line feed and more text. *)
Lemma split_app_line l s :
  Forall (fun c => c <> Str.NL) l ->
  Str.split Str.NL (l ++ Str.NL :: s) = l :: Str.split Str.NL s.
Proof.
  induction 1 as [|c l Hc Hl IH]; [reflexivity|].
  rewrite <- app_comm_cons. apply split_cons_other; assumption.
Qed.

Lemma split_single l :
  Forall (fun c => c <> Str.NL) l -> Str.split Str.NL l = [l].
Proof.
  induction 1 as [|c l Hc Hl IH]; [reflexivity|].
  apply split_cons_other; assumption.
Qed.

Lemma split_lines_no_nl s :
  Forall (Forall (fun c => c <> Str.NL)) (Str.split Str.NL s).
Proof.
  induction s as [|c s IH]; [repeat constructor|].
  destruct (split_nonempty s) as (l & ls & Hs). cbn [Str.split].
  rewrite Hs in *. apply Forall_cons in IH as [Hl Hls].
  destruct (N.eqb_spec c Str.NL) as [->|Hc]; repeat constructor; assumption.
Qed.

Lemma split_join ls :
  ls <> [] -> Forall (Forall (fun c => c <> Str.NL)) ls ->
  Str.split Str.NL (Str.join [Str.NL] ls) = ls.
Proof.
  intros Hne Hall. induction Hall as [|l ls Hl Hls IH]; [contradiction|].
  destruct ls as [|l' ls].
  - cbn. apply split_single. exact Hl.
  - rewrite join_cons. cbn [app]. rewrite split_app_line by exact Hl.
    f_equal. apply IH. discriminate.
Qed.

(** Appending one unit to a text: a new empty line, or one more unit on
    the last line. *)
Fixpoint snoc_last (ls : list jsstring) (c : N) : list jsstring :=
  match ls with
  | [] => [[c]]
  | [l] => [l ++ [c]]
  | l :: ls' => l :: snoc_last ls' c
  end.

Lemma split_snoc s c :
  Str.split Str.NL (s ++ [c])
  = if (c =? Str.NL)%N then Str.split Str.NL s ++ [[]]
    else snoc_last (Str.split Str.NL s) c.
Proof.
  induction s as [|d s IH].
  - cbn. destruct (c =? Str.NL)%N; reflexivity.
  - rewrite <- app_comm_cons. cbn [Str.split]. rewrite IH.
    destruct (split_nonempty s) as (l & ls & Hs). rewrite Hs.
    destruct (c =? Str.NL)%N, (d =? Str.NL)%N; cbn; try reflexivity.
    destruct ls; reflexivity.
Qed.

Section LinePredicate.
Variable P : jsstring -> Prop.
Hypothesis P_nil : P [].
Hypothesis P_drop_first : forall c l, is_ws c = true -> P (c :: l) -> P l.
Hypothesis P_drop_last : forall c l, is_ws c = true -> P (l ++ [c]) -> P l.

Definition all_lines (s : jsstring) : Prop := Forall P (Str.split Str.NL s).

Lemma all_lines_drop_first c s : is_ws c = true -> all_lines (c :: s) -> all_lines s.
Proof.
  unfold all_lines. intros Hc. destruct (split_nonempty s) as (l & ls & Hs).
  cbn [Str.split]. rewrite Hs.
  destruct (c =? Str.NL)%N; intros H; apply Forall_cons in H as [H1 H2].
  - exact H2.
  - constructor; [eapply P_drop_first; eauto|exact H2].
Qed.

Lemma all_lines_trimStart s : all_lines s -> all_lines (trimStart s).
Proof.
  induction s as [|c s IH]; cbn; [auto|].
  destruct (is_ws c) eqn:Hc; [|auto].
  intros H. apply IH. eapply all_lines_drop_first; eauto.
Qed.

Lemma snoc_last_all ls c :
  ls <> [] -> is_ws c = true -> Forall P (snoc_last ls c) -> Forall P ls.
Proof.
  intros Hne Hc. induction ls as [|l ls IH]; [contradiction|].
  destruct ls as [|l' ls]; cbn [snoc_last]; intros H;
    apply Forall_cons in H as [H1 H2].
  - constructor; [eapply P_drop_last; eauto|constructor].
  - constructor; [exact H1|]. apply IH; [discriminate|exact H2].
Qed.

Lemma all_lines_drop_last c s : is_ws c = true -> all_lines (s ++ [c]) -> all_lines s.
Proof.
  unfold all_lines. intros Hc. rewrite split_snoc.
  destruct (c =? Str.NL)%N.
  - intros H. apply Forall_app in H as [H _]. exact H.
  - apply snoc_last_all; [|exact Hc].
    destruct (split_nonempty s) as (l & ls & ->). discriminate.
Qed.

Lemma all_lines_trimEnd s : all_lines s -> all_lines (trimEnd s).
Proof.
  destruct (trimEnd_split s) as (w & Hs & Hw).
  revert Hs. generalize (trimEnd s). intros t Hs. subst s.
  induction w as [|c w IH] using rev_ind.
  - rewrite app_nil_r. auto.
  - apply List.Forall_app in Hw as [Hw Hc]. apply List.Forall_inv in Hc.
    rewrite app_assoc. intros H. apply (IH Hw).
    eapply all_lines_drop_last; eauto.
Qed.

Lemma all_lines_trim s : all_lines s -> all_lines (trim s).
Proof. intros H. apply all_lines_trimEnd, all_lines_trimStart, H. Qed.

End LinePredicate.

(** Collapsing line feeds leaves the first line as it is and every other
    line of the result is empty or a line of the text. *)
Lemma collapse_lines s :
  (hd [] (Str.split Str.NL (Mermaid.collapse_from false s)) = hd [] (Str.split Str.NL s)
   /\ forall x, In x (tl (Str.split Str.NL (Mermaid.collapse_from false s))) ->
                x = [] \/ In x (tl (Str.split Str.NL s)))
  /\ (forall x, In x (Str.split Str.NL (Mermaid.collapse_from true s)) ->
                x = [] \/ In x (Str.split Str.NL s)).
Proof.
  induction s as [|c s ((IHhd & IHtl) & IHtrue)].
  - cbn. repeat split; auto; intros x [<-|[]]; auto.
  - destruct (split_nonempty s) as (l & ls & Hs).
    destruct (split_nonempty (Mermaid.collapse_from false s)) as (l' & ls' & Hs').
    cbn [Str.split Mermaid.collapse_from]. rewrite Hs in *. rewrite Hs' in *.
    cbn [hd tl] in *. subst l'.
    destruct (N.eqb_spec c Str.NL) as [->|Hc].
    + cbn [Str.split]. rewrite N.eqb_refl. cbn [hd tl].
      repeat split; auto.
      intros x Hx. destruct (IHtrue x Hx) as [->|Hin]; [auto|].
      right. right. exact Hin.
    + cbn [Str.split]. rewrite Hs'.
      destruct (N.eqb_spec c Str.NL); [contradiction|]. cbn [hd tl].
      repeat split; auto.
      intros x [<-|Hx]; [right; left; reflexivity|].
      destruct (IHtl x Hx) as [->|Hin]; [auto|]. right. right. exact Hin.
Qed.

Lemma all_lines_collapse (P : jsstring -> Prop) s :
  P [] -> all_lines P s -> all_lines P (Mermaid.collapse_newlines s).
Proof.
  unfold all_lines, Mermaid.collapse_newlines. intros Hnil Hall.
  destruct (collapse_lines s) as ((Hhd & Htl) & _).
  destruct (split_nonempty s) as (l & ls & Hs).
  destruct (split_nonempty (Mermaid.collapse_from false s)) as (l' & ls' & Hs').
  rewrite Hs, Hs' in *. cbn [hd tl] in *. subst l'.
  apply Forall_cons in Hall as [Hl Hls]. constructor; [exact Hl|].
  apply List.Forall_forall. intros x Hx.
  destruct (Htl x Hx) as [->|Hin]; [exact Hnil|].
  rewrite List.Forall_forall in Hls. auto.
Qed.

(** *** Lines fixed by the line filter *)

Definition stable (line : jsstring) : Prop := Mermaid.fix_line line = line.

Lemma filter_fixed {A} (f : A -> bool) (l : list A) :
  List.filter f (List.filter f l) = List.filter f l.
Proof.
  induction l as [|a l IH]; cbn; [reflexivity|].
  destruct (f a) eqn:Ha; cbn; rewrite ?Ha, IH; reflexivity.
Qed.

Lemma fix_line_stable line : stable (Mermaid.fix_line line).
Proof.
  unfold stable.
  assert (H : (Mermaid.fix_line line = line
               /\ Mermaid.blank line || Mermaid.has_diagram_type (trim line) = true)
              \/ Mermaid.fix_line line = List.filter Mermaid.allowed line).
  { unfold Mermaid.fix_line. destruct (_ || _); auto. }
  destruct H as [[-> HT]| ->]; unfold Mermaid.fix_line.
  - rewrite HT. reflexivity.
  - destruct (_ || _); [reflexivity|apply filter_fixed].
Qed.

Lemma ws_allowed c : is_ws c = true -> Mermaid.allowed c = true.
Proof. intros H. unfold Mermaid.allowed. rewrite H, orb_true_r. reflexivity. Qed.

Lemma stable_nil : stable [].
Proof. reflexivity. Qed.

Lemma stable_drop_first c l : is_ws c = true -> stable (c :: l) -> stable l.
Proof.
  intros Hc. unfold stable, Mermaid.fix_line, Mermaid.blank.
  rewrite (trim_cons_ws c l Hc).
  destruct (_ || _); [reflexivity|].
  cbn [List.filter]. rewrite (ws_allowed c Hc). congruence.
Qed.

Lemma stable_drop_last c l : is_ws c = true -> stable (l ++ [c]) -> stable l.
Proof.
  intros Hc. unfold stable, Mermaid.fix_line, Mermaid.blank.
  rewrite (trim_snoc_ws c l Hc).
  destruct (_ || _); [reflexivity|].
  rewrite List.filter_app. cbn [List.filter]. rewrite (ws_allowed c Hc).
  apply app_inv_tail.
Qed.

(** *** No two line feeds in a row *)

Fixpoint no_double (prev : bool) (s : jsstring) : bool :=
  match s with
  | [] => true
  | c :: s' =>
    if (c =? Str.NL)%N then negb prev && no_double true s'
    else no_double false s'
  end.

Lemma collapse_no_double prev s :
  no_double prev (Mermaid.collapse_from prev s) = true.
Proof.
  revert prev. induction s as [|c s IH]; intros prev; cbn; [reflexivity|].
  destruct (c =? Str.NL)%N eqn:Hc.
  - destruct prev; [apply IH|]. cbn. rewrite Hc. apply IH.
  - cbn. rewrite Hc. apply IH.
Qed.

Lemma no_double_fixed prev s :
  no_double prev s = true -> Mermaid.collapse_from prev s = s.
Proof.
  revert prev. induction s as [|c s IH]; intros prev; cbn; [reflexivity|].
  destruct (c =? Str.NL)%N.
  - destruct prev; cbn; [discriminate|]. intros H. f_equal. apply IH, H.
  - intros H. f_equal. apply IH, H.
Qed.

Lemma no_double_weaken s : no_double true s = true -> no_double false s = true.
Proof.
  destruct s as [|c s]; cbn; [reflexivity|].
  destruct (c =? Str.NL)%N; [discriminate|auto].
Qed.

Lemma no_double_prefix prev a b :
  no_double prev (a ++ b) = true -> no_double prev a = true.
Proof.
  revert prev. induction a as [|c a IH]; intros prev; cbn; [reflexivity|].
  destruct (c =? Str.NL)%N; [|apply IH].
  intros H. apply andb_prop in H as [-> H]. cbn. apply (IH _ H).
Qed.

Lemma no_double_suffix a b :
  no_double false (a ++ b) = true -> no_double false b = true.
Proof.
  induction a as [|c a IH]; cbn; [auto|].
  destruct (c =? Str.NL)%N; [|exact IH].
  cbn. intros H. apply IH, no_double_weaken, H.
Qed.

Lemma no_double_trim s : no_double false s = true -> no_double false (trim s) = true.
Proof.
  intros H. unfold trim.
  destruct (trimStart_split s) as (w & Hs & _).
  destruct (trimEnd_split (trimStart s)) as (w' & Hs' & _).
  rewrite Hs in H. apply no_double_suffix in H.
  rewrite Hs' in H. apply no_double_prefix in H. exact H.
Qed.

(** *** Units of the repaired text *)

Section Units.
Variable Q : N -> Prop.

Lemma units_trim s : Forall Q s -> Forall Q (trim s).
Proof.
  intros H. unfold trim.
  destruct (trimStart_split s) as (w & Hs & _).
  destruct (trimEnd_split (trimStart s)) as (w' & Hs' & _).
  rewrite Hs in H. apply List.Forall_app in H as [_ H].
  rewrite Hs' in H. apply List.Forall_app in H as [H _]. exact H.
Qed.

Lemma units_collapse prev s : Forall Q s -> Forall Q (Mermaid.collapse_from prev s).
Proof.
  intros H. revert prev. induction H as [|c s Hc Hs IH]; intros prev; cbn;
    [constructor|].
  destruct (c =? Str.NL)%N; [destruct prev|]; auto.
Qed.

Lemma units_filter (f : N -> bool) s : Forall Q s -> Forall Q (List.filter f s).
Proof.
  induction 1 as [|c s Hc Hs IH]; cbn; [constructor|].
  destruct (f c); auto.
Qed.

Lemma units_fix_line l : Forall Q l -> Forall Q (Mermaid.fix_line l).
Proof.
  intros H. unfold Mermaid.fix_line. destruct (_ || _); [exact H|].
  apply units_filter, H.
Qed.

Lemma units_split s : Forall Q s -> Forall (Forall Q) (Str.split Str.NL s).
Proof.
  induction 1 as [|c s Hc Hs IH]; [repeat constructor|].
  destruct (split_nonempty s) as (l & ls & Hsp). cbn [Str.split].
  rewrite Hsp in *. apply Forall_cons in IH as [Hl Hls].
  destruct (c =? Str.NL)%N; repeat constructor; assumption.
Qed.

Lemma units_join ls :
  Q Str.NL -> Forall (Forall Q) ls -> Forall Q (Str.join [Str.NL] ls).
Proof.
  intros Hnl. induction 1 as [|l ls Hl Hls IH]; [constructor|].
  destruct ls as [|l' ls]; [exact Hl|].
  rewrite join_cons. apply List.Forall_app. split; [exact Hl|].
  constructor; [exact Hnl|exact IH].
Qed.

Lemma units_replace_all pat rep skip s :
  Forall Q rep -> Forall Q s -> Forall Q (Str.replace_all_from pat rep skip s).
Proof.
  intros Hrep H. revert skip. induction H as [|c s Hc Hs IH]; intros skip; cbn;
    [constructor|].
  destruct skip; [|apply IH].
  destruct (Str.starts_with pat (c :: s)); [|auto].
  apply List.Forall_app. auto.
Qed.

End Units.

Definition no_semicolon (s : jsstring) : Prop := Forall (fun c => c <> 59%N) s.

Lemma starts_with_semicolon c s :
  Str.starts_with (js ";") (c :: s) = (c =? 59)%N.
Proof.
  unfold Str.starts_with. change (js ";") with [59%N].
  change (firstn (length [59%N]) (c :: s)) with [c].
  destruct (decide ([c] = [59%N])) as [Heq|Hne]; destruct (N.eqb_spec c 59);
    congruence.
Qed.

Lemma semicolons_replaced s :
  no_semicolon (Str.replace_all (js ";") [Str.NL] s).
Proof.
  unfold Str.replace_all, no_semicolon.
  induction s as [|c s IH]; cbn [Str.replace_all_from]; [constructor|].
  rewrite starts_with_semicolon. change (length (js ";") - 1) with 0.
  destruct (N.eqb_spec c 59); cbn [app]; constructor;
    (discriminate || assumption).
Qed.

(** *** Replacements that find nothing to replace *)

Lemma replace_all_absent pat rep s :
  Str.includes pat s = false -> Str.replace_all pat rep s = s.
Proof.
  unfold Str.replace_all. induction s as [|c s IH]; [reflexivity|].
  cbn [Str.includes Str.replace_all_from]. intros H.
  apply orb_false_elim in H as [-> H]. f_equal. apply IH, H.
Qed.

Lemma no_semicolon_absent s : no_semicolon s -> Str.includes (js ";") s = false.
Proof.
  induction 1 as [|c s Hc Hs IH]; [reflexivity|].
  cbn [Str.includes]. rewrite IH, orb_false_r, starts_with_semicolon.
  apply N.eqb_neq, Hc.
Qed.

(** *** The diagram type at the start *)

Lemma starts_with_app k r : Str.starts_with k (k ++ r) = true.
Proof.
  unfold Str.starts_with.
  destruct (decide (firstn (length k) (k ++ r) = k)) as [|Hne]; [reflexivity|].
  exfalso. apply Hne. apply take_app_length.
Qed.

Lemma starts_with_split k s : Str.starts_with k s = true -> exists r, s = k ++ r.
Proof.
  unfold Str.starts_with.
  destruct (decide (firstn (length k) s = k)) as [Heq|]; [|discriminate].
  intros _. exists (skipn (length k) s).
  rewrite <- Heq at 1. symmetry. apply firstn_skipn.
Qed.

Lemma starts_with_other_head p0 p c s :
  c <> p0 -> Str.starts_with (p0 :: p) (c :: s) = false.
Proof.
  intros Hc. unfold Str.starts_with.
  change (firstn (length (p0 :: p)) (c :: s)) with (c :: firstn (length p) s).
  destruct (decide (c :: firstn (length p) s = p0 :: p)) as [Heq|]; [|reflexivity].
  congruence.
Qed.

(** The five declarations are words without white space, and none starts
    with a backquote. *)
Lemma diagram_type_word k :
  In k Mermaid.diagram_types ->
  Forall (fun c => is_ws c = false) k /\ exists c r, k = c :: r /\ c <> 96%N.
Proof.
  intros H. cbn in H.
  repeat (destruct H as [<-|H]; [split; [repeat constructor|]|]);
    try contradiction; eexists _, _; (split; [reflexivity|discriminate]).
Qed.

Lemma collapse_keeps_word k r prev :
  k <> [] -> Forall (fun c => is_ws c = false) k ->
  Mermaid.collapse_from prev (k ++ r) = k ++ Mermaid.collapse_from false r.
Proof.
  intros Hne Hk. revert prev. induction Hk as [|c k Hc Hk IH]; intros prev;
    [contradiction|].
  assert (Hnl : (c =? Str.NL)%N = false).
  { destruct (N.eqb_spec c Str.NL) as [->|]; [discriminate Hc|reflexivity]. }
  cbn [app Mermaid.collapse_from]. rewrite Hnl. f_equal.
  destruct k as [|c' k]; [reflexivity|]. apply IH. discriminate.
Qed.

(** *** The last stages of the repair *)

Definition ensure_type (fixed : jsstring) : jsstring :=
  if Mermaid.has_diagram_type fixed then fixed
  else js "graph TD" ++ [Str.NL] ++ fixed.

Definition last_stages (fixed : jsstring) : jsstring :=
  trim (Mermaid.collapse_newlines
          (ensure_type (Str.join [Str.NL]
                          (List.map Mermaid.fix_line (Str.split Str.NL fixed))))).

Lemma repair_shape x :
  Mermaid.blank x = false ->
  exists fixed, no_semicolon fixed
    /\ Mermaid.validateAndFixMermaid x = last_stages fixed.
Proof.
  intros Hx. unfold Mermaid.validateAndFixMermaid. rewrite Hx. cbv zeta.
  match goal with
  | |- context [Str.replace_all (js ";") [Str.NL] ?u] => set (unfenced := u)
  end.
  exists (Str.replace_all (js "---") (js " --- ")
            (Str.replace_all (js "-->") (js " --> ")
               (Str.replace_all (js ";") [Str.NL] unfenced))).
  split; [|reflexivity].
  unfold no_semicolon.
  do 2 (apply units_replace_all; [repeat constructor; discriminate|]).
  apply semicolons_replaced.
Qed.

Lemma ensure_type_starts fixed :
  exists k r, In k Mermaid.diagram_types /\ ensure_type fixed = k ++ r.
Proof.
  unfold ensure_type. destruct (Mermaid.has_diagram_type fixed) eqn:H.
  - unfold Mermaid.has_diagram_type in H.
    apply List.existsb_exists in H as (k & Hk & Hs).
    apply starts_with_split in Hs as (r & ->). eauto.
  - exists (js "graph"), (js " TD" ++ [Str.NL] ++ fixed).
    split; [left; reflexivity|reflexivity].
Qed.

Section LastStages.
Variable fixed : jsstring.
Hypothesis fixed_no_semicolon : no_semicolon fixed.

Let y := last_stages fixed.

Lemma last_stages_starts :
  exists k r, In k Mermaid.diagram_types /\ y = k ++ r.
Proof.
  unfold y, last_stages.
  destruct (ensure_type_starts
              (Str.join [Str.NL] (List.map Mermaid.fix_line (Str.split Str.NL fixed))))
    as (k & r & Hk & ->).
  destruct (diagram_type_word k Hk) as (Hword & c & k' & -> & _).
  unfold Mermaid.collapse_newlines.
  rewrite collapse_keeps_word by (discriminate || exact Hword).
  destruct (trim_keeps_word (c :: k') (Mermaid.collapse_from false r))
    as (r' & ->); [discriminate|exact Hword|].
  eauto.
Qed.

Lemma last_stages_trimmed : trim y = y.
Proof. apply trim_idem. Qed.

Lemma last_stages_no_semicolon : no_semicolon y.
Proof.
  unfold y, last_stages, no_semicolon.
  apply units_trim, units_collapse.
  assert (HJ : Forall (fun c => c <> 59%N)
                 (Str.join [Str.NL]
                    (List.map Mermaid.fix_line (Str.split Str.NL fixed)))).
  { apply units_join; [discriminate|].
    apply List.Forall_map.
    eapply List.Forall_impl; [|apply units_split, fixed_no_semicolon].
    intros l. apply units_fix_line. }
  unfold ensure_type. destruct (Mermaid.has_diagram_type _); [exact HJ|].
  apply List.Forall_app. split; [repeat constructor; discriminate|].
  apply List.Forall_app. split; [repeat constructor; discriminate|exact HJ].
Qed.

Lemma last_stages_no_double : no_double false y = true.
Proof. apply no_double_trim, collapse_no_double. Qed.

Lemma last_stages_lines : all_lines stable y.
Proof.
  unfold y, last_stages.
  apply (all_lines_trim stable stable_drop_first stable_drop_last).
  apply (all_lines_collapse stable _ stable_nil).
  set (lines := List.map Mermaid.fix_line (Str.split Str.NL fixed)).
  assert (Hlines : Str.split Str.NL (Str.join [Str.NL] lines) = lines).
  { apply split_join.
    - unfold lines. destruct (split_nonempty fixed) as (l & ls & ->). discriminate.
    - unfold lines. apply List.Forall_map.
      eapply List.Forall_impl; [|apply split_lines_no_nl].
      intros l. apply units_fix_line. }
  assert (Hstable : Forall stable lines).
  { unfold lines. apply List.Forall_map, List.Forall_forall.
    intros l _. apply fix_line_stable. }
  unfold all_lines, ensure_type.
  destruct (Mermaid.has_diagram_type _); [rewrite Hlines; exact Hstable|].
  cbn [app]. rewrite split_app_line by (repeat constructor; discriminate).
  rewrite Hlines. constructor; [reflexivity|exact Hstable].
Qed.

(** A repaired text without arrow is repaired to itself. *)
Lemma last_stages_fixed_point :
  Str.includes (js "-->") y = false ->
  Str.includes (js "---") y = false ->
  Mermaid.validateAndFixMermaid y = y.
Proof.
  intros Harrow Hline.
  destruct last_stages_starts as (k & r & Hk & Hy).
  destruct (diagram_type_word k Hk) as (Hword & c & k' & -> & Hc).
  pose proof last_stages_trimmed as Htrim.
  assert (Hblank : Mermaid.blank y = false).
  { unfold Mermaid.blank. rewrite Htrim, Hy. reflexivity. }
  assert (Hfence1 : Str.starts_with (Mermaid.fence ++ js "mermaid") y = false).
  { rewrite Hy. apply starts_with_other_head. exact Hc. }
  assert (Hfence2 : Str.starts_with Mermaid.fence y = false).
  { rewrite Hy. apply (starts_with_other_head 96%N [96%N; 96%N]). exact Hc. }
  assert (Hsemi : Str.replace_all (js ";") [Str.NL] y = y).
  { apply replace_all_absent, no_semicolon_absent, last_stages_no_semicolon. }
  assert (Hmap : List.map Mermaid.fix_line (Str.split Str.NL y) = Str.split Str.NL y).
  { pose proof last_stages_lines as Hl. unfold all_lines in Hl.
    induction Hl as [|l ls Hl Hls IH]; [reflexivity|].
    cbn [List.map]. rewrite Hl, IH. reflexivity. }
  assert (Htype : Mermaid.has_diagram_type y = true).
  { unfold Mermaid.has_diagram_type. apply List.existsb_exists.
    exists (c :: k'). split; [exact Hk|]. rewrite Hy. apply starts_with_app. }
  unfold Mermaid.validateAndFixMermaid. rewrite Hblank. cbv zeta.
  rewrite Htrim, Hfence1, Hfence2, Hsemi.
  rewrite (replace_all_absent _ _ _ Harrow), (replace_all_absent _ _ _ Hline).
  rewrite Hmap, join_split, Htype.
  unfold Mermaid.collapse_newlines.
  rewrite (no_double_fixed false y last_stages_no_double). exact Htrim.
Qed.

End LastStages.

Lemma trim_all_ws x : Forall (fun c => is_ws c = true) x -> trim x = [].
Proof.
  intros H. unfold trim.
  replace (trimStart x) with (@nil N); [reflexivity|].
  induction H as [|c x Hc Hx IH]; cbn; [reflexivity|]. rewrite Hc. exact IH.
Qed.

(** C5, as the code has it. The repair is a total function on strings; an
    empty or white-space-only text is repaired to the empty string; and a
    repaired text that contains neither arrow token is a fixed point of the
    repair. (A repaired text with an arrow is not: every further pass pads
    the arrow with more spaces.) *)
Theorem repair_blank_and_fixed_point (x : jsstring) :
  (Forall (fun c => is_ws c = true) x -> Mermaid.validateAndFixMermaid x = [])
  /\ (Str.includes (js "-->") (Mermaid.validateAndFixMermaid x) = false ->
      Str.includes (js "---") (Mermaid.validateAndFixMermaid x) = false ->
      Mermaid.validateAndFixMermaid (Mermaid.validateAndFixMermaid x)
      = Mermaid.validateAndFixMermaid x).
Proof.
  split.
  - intros H. unfold Mermaid.validateAndFixMermaid, Mermaid.blank.
    rewrite (trim_all_ws x H). reflexivity.
  - destruct (Mermaid.blank x) eqn:Hx.
    + assert (Hr : Mermaid.validateAndFixMermaid x = []).
      { unfold Mermaid.validateAndFixMermaid. rewrite Hx. reflexivity. }
      rewrite Hr. reflexivity.
    + destruct (repair_shape x Hx) as (fixed & Hsemi & ->).
      apply last_stages_fixed_point. exact Hsemi.
Qed.

Example repair_fenced_diagram :
  Mermaid.validateAndFixMermaid
    (js "```mermaid" ++ [Str.NL] ++ js "graph TD" ++ [Str.NL] ++ js "A-->B"
     ++ [Str.NL] ++ js "```")
  = js "graph TD" ++ [Str.NL] ++ js "A --> B".
Proof. vm_compute. reflexivity. Qed.

(** The repair of [A-->B] is [graph TD / A --> B]; repairing that again
    gives [graph TD / A  -->  B], with two spaces around the arrow. *)
Lemma repair_idempotence_counterexample :
  let x := js "A-->B" in
  Mermaid.validateAndFixMermaid x = js "graph TD" ++ [Str.NL] ++ js "A --> B"
  /\ Mermaid.validateAndFixMermaid (Mermaid.validateAndFixMermaid x)
     = js "graph TD" ++ [Str.NL] ++ js "A  -->  B"
  /\ Mermaid.validateAndFixMermaid (Mermaid.validateAndFixMermaid x)
     <> Mermaid.validateAndFixMermaid x.
Proof.
  cbv zeta. split; [vm_compute; reflexivity|].
  split; [vm_compute; reflexivity|].
  vm_compute. discriminate.
Qed.

(** * Further properties *)

(** ** Chunker: the shape of the chunks *)

(** The distance between the start indices of two successive windows. *)
Definition stride (e : Embedder.t) : Z :=
  (Embedder.chunkSizeChars e - Embedder.overlapChars e)%Z.

(** A text with a unit that is not white space is not trimmed away. *)
Lemma in_trim_nonempty (s : jsstring) (u : N) :
  In u s -> is_ws u = false -> trim s <> [].
Proof.
  intros Hin Hu Hnil.
  destruct (trimStart_split s) as (w1 & Hs & Hw1).
  destruct (trimEnd_split (trimStart s)) as (w2 & Ht & Hw2).
  change (trimEnd (trimStart s)) with (trim s) in Ht. rewrite Hnil in Ht.
  rewrite Ht in Hs. rewrite Hs in Hin. simpl in Hin.
  apply in_app_or in Hin as [Hin|Hin].
  - rewrite List.Forall_forall in Hw1. specialize (Hw1 _ Hin). congruence.
  - rewrite List.Forall_forall in Hw2. specialize (Hw2 _ Hin). congruence.
Qed.

Lemma substring_whole (s : jsstring) :
  substring s 0 (Z.of_nat (length s)) = s.
Proof.
  unfold substring. cbv zeta.
  replace (Z.min (Z.max 0 0) (Z.of_nat (length s))) with 0%Z by lia.
  replace (Z.min (Z.max (Z.of_nat (length s)) 0) (Z.of_nat (length s)))
    with (Z.of_nat (length s)) by lia.
  replace (Z.min 0 (Z.of_nat (length s))) with 0%Z by lia.
  replace (Z.max 0 (Z.of_nat (length s))) with (Z.of_nat (length s)) by lia.
  rewrite Z.sub_0_r, Nat2Z.id. simpl. apply firstn_all.
Qed.

(** The unit at an index of the window is a unit of the substring. *)
Lemma substring_In (s : jsstring) (a b : Z) (n : nat) (u : N) :
  (0 <= a)%Z -> (a <= Z.of_nat n < b)%Z -> (b <= Z.of_nat (length s))%Z ->
  s !! n = Some u -> In u (substring s a b).
Proof.
  intros Ha Hn Hb Hu. unfold substring. cbv zeta.
  replace (Z.min (Z.max a 0) (Z.of_nat (length s))) with a by lia.
  replace (Z.min (Z.max b 0) (Z.of_nat (length s))) with b by lia.
  replace (Z.min a b) with a by lia.
  replace (Z.max a b) with b by lia.
  apply list_elem_of_In.
  apply (list_elem_of_lookup_2 _ (n - Z.to_nat a)).
  rewrite lookup_take_lt by lia. rewrite lookup_drop.
  replace (Z.to_nat a + (n - Z.to_nat a)) with n by lia. exact Hu.
Qed.

Lemma StronglySorted_snoc {A} (R : A -> A -> Prop) (l : list A) (x : A) :
  StronglySorted R l -> Forall (fun a => R a x) l -> StronglySorted R (l ++ [x]).
Proof.
  induction 1 as [|a l Hs IH Ha]; intros Hx; simpl.
  - constructor; constructor.
  - apply Forall_cons in Hx as [Hax Hx]. constructor; [auto|].
    apply Forall_app. split; [exact Ha|]. constructor; [exact Hax|constructor].
Qed.

Section ChunkerStructure.
Context {M : Type}.
Variable e : Embedder.t.
Hypothesis overlap_nonneg : (0 <= Embedder.overlapChars e)%Z.
Hypothesis size_above_overlap :
  (Embedder.overlapChars e < Embedder.chunkSizeChars e)%Z.
Variable txt : jsstring.
Variable meta : M.

(** What holds of every chunk: the caller's metadata, a non-empty window
    of at most [chunkSize] characters that starts at a multiple of the
    stride, and as text the trimmed window, which is not empty. *)
Definition chunk_ok (c : Embedder.Chunk M) : Prop :=
  Embedder.metadata c = meta
  /\ (0 <= Embedder.startChar c < Embedder.endChar c)%Z
  /\ Embedder.endChar c
     = Z.min (Embedder.startChar c + Embedder.chunkSizeChars e) (Z.of_nat (length txt))
  /\ Embedder.text c
     = trim (substring txt (Embedder.startChar c) (Embedder.endChar c))
  /\ Embedder.text c <> []
  /\ (stride e | Embedder.startChar c)%Z.

(** Each chunk carries its position in the sequence. *)
Definition positional (chunks : list (Embedder.Chunk M)) : Prop :=
  forall i c, chunks !! i = Some c -> Embedder.chunkIndex c = i.

Definition starts_before (a b : Embedder.Chunk M) : Prop :=
  (Embedder.startChar a < Embedder.startChar b)%Z.

(** Every unit before [upto] that is not white space lies in the window
    of some chunk. *)
Definition covered (upto : Z) (chunks : list (Embedder.Chunk M)) : Prop :=
  forall n u, (Z.of_nat n < upto)%Z -> txt !! n = Some u -> is_ws u = false ->
    exists c, In c chunks
      /\ (Embedder.startChar c <= Z.of_nat n < Embedder.endChar c)%Z.

Lemma chunk_loop_structure :
  forall fuel s cov chunks out,
    (0 <= s <= cov)%Z -> (cov <= s + Embedder.overlapChars e)%Z ->
    (cov <= Z.of_nat (length txt))%Z ->
    (stride e | s)%Z ->
    Forall chunk_ok chunks ->
    Forall (fun c => (Embedder.startChar c < s)%Z) chunks ->
    positional chunks ->
    StronglySorted starts_before chunks ->
    covered cov chunks ->
    Embedder.chunk_loop e fuel txt meta s chunks = Some out ->
    Forall chunk_ok out /\ positional out /\ StronglySorted starts_before out
    /\ covered (Z.of_nat (length txt)) out.
Proof.
  induction fuel as [|fuel IH];
    intros s cov chunks out Hs Hcov Hlen Hdiv Hok Hlt Hpos Hsorted Hcovered Hloop;
    cbn [Embedder.chunk_loop] in Hloop; [discriminate|].
  destruct (Z.ltb_spec s (Z.of_nat (length txt))) as [Hin|Hout].
  2:{ injection Hloop as <-. repeat split; try assumption.
      intros n u Hn. apply Hcovered. lia. }
  set (endIndex := Z.min (s + Embedder.chunkSizeChars e) (Z.of_nat (length txt))) in *.
  set (piece := trim (substring txt s endIndex)) in *.
  set (new := {| Embedder.text := piece; Embedder.metadata := meta;
                 Embedder.chunkIndex := length chunks;
                 Embedder.startChar := s; Embedder.endChar := endIndex |}) in *.
  set (chunks' := if (0 <? length piece)%nat then chunks ++ [new] else chunks) in *.
  assert (Hstride : (0 < stride e)%Z) by (unfold stride; lia).
  assert (Hend : (s < endIndex /\ cov <= endIndex
                  /\ endIndex <= Z.of_nat (length txt))%Z)
    by (unfold endIndex; lia).
  assert (A : Forall chunk_ok chunks'
              /\ Forall (fun c => (Embedder.startChar c < s + stride e)%Z) chunks'
              /\ positional chunks' /\ StronglySorted starts_before chunks'
              /\ covered endIndex chunks').
  { unfold chunks'. destruct (Nat.ltb_spec 0 (length piece)) as [Hne|He].
    - split; [|split; [|split; [|split]]].
      + apply Forall_app. split; [exact Hok|]. constructor; [|constructor].
        unfold chunk_ok. cbn. repeat split; try lia; try assumption.
        intros Hnil. rewrite Hnil in Hne. simpl in Hne. lia.
      + apply Forall_app. split.
        * eapply Forall_impl; [exact Hlt|]. cbn. intros c Hc. lia.
        * constructor; [cbn; lia|constructor].
      + intros i c Hi. apply lookup_snoc_Some in Hi as [[_ Hi]|[-> <-]];
          [apply Hpos, Hi|reflexivity].
      + apply StronglySorted_snoc; [exact Hsorted|]. exact Hlt.
      + intros n u Hn Hu Hws.
        destruct (Z.ltb_spec (Z.of_nat n) cov) as [Hold|Hnew].
        * destruct (Hcovered n u Hold Hu Hws) as (c & Hc & Hrange).
          exists c. split; [apply in_or_app; left; exact Hc|exact Hrange].
        * exists new. split; [apply in_or_app; right; left; reflexivity|].
          cbn. lia.
    - split; [exact Hok|]. split.
      { eapply Forall_impl; [exact Hlt|]. cbn. intros c Hc. lia. }
      split; [exact Hpos|]. split; [exact Hsorted|].
      intros n u Hn Hu Hws.
      destruct (Z.ltb_spec (Z.of_nat n) cov) as [Hold|Hnew];
        [exact (Hcovered n u Hold Hu Hws)|].
      exfalso. apply (in_trim_nonempty (substring txt s endIndex) u); [|exact Hws|].
      + apply (substring_In txt s endIndex n u); [lia|lia|lia|exact Hu].
      + fold piece. destruct piece; [reflexivity|simpl in He; lia]. }
  destruct A as (Hok' & Hlt' & Hpos' & Hsorted' & Hcovered').
  destruct (Z.geb_spec (endIndex - Embedder.overlapChars e)
                       (Z.of_nat (length txt) - Embedder.overlapChars e))
    as [Hstop|Hgo].
  - injection Hloop as <-.
    replace (Z.of_nat (length txt)) with endIndex by lia. auto.
  - assert (Heq : endIndex = (s + Embedder.chunkSizeChars e)%Z)
      by (unfold endIndex in *; lia).
    assert (Hnext : (endIndex - Embedder.overlapChars e = s + stride e)%Z)
      by (unfold stride; lia).
    rewrite Hnext in Hloop.
    apply (IH (s + stride e)%Z endIndex chunks' out); try assumption; try lia.
    apply Z.divide_add_r; [exact Hdiv|apply Z.divide_refl].
Qed.

(** [chunkText] returns chunks with all of the above. *)
Lemma chunkText_structure :
  exists chunks,
    Embedder.chunkText e (S (length txt)) txt meta = Some chunks
    /\ Forall chunk_ok chunks /\ positional chunks
    /\ StronglySorted starts_before chunks
    /\ covered (Z.of_nat (length txt)) chunks.
Proof.
  destruct (chunk_loop_returns e overlap_nonneg size_above_overlap txt meta
              (length txt) 0%Z []) as (out & Hout & _); [lia|lia|constructor|].
  exists out. split; [exact Hout|].
  apply (chunk_loop_structure (S (length txt)) 0%Z 0%Z [] out);
    try lia; try constructor; try assumption.
  - apply Z.divide_0_r.
  - intros i c Hi. rewrite lookup_nil in Hi. discriminate.
  - intros n u Hn. lia.
Qed.

(** X1. With a non-negative overlap below the chunk size, the chunks
    come in text order and are numbered by position:
    [chunkIndex] is the index in the returned array, the start indices are
    strictly increasing multiples of the stride (chunk size minus overlap,
    in characters), each window ends [chunkSize] characters after its start
    or at the end of the text, and every chunk carries the caller's
    metadata. *)
Theorem chunkText_indices_and_offsets :
  exists chunks,
    Embedder.chunkText e (S (length txt)) txt meta = Some chunks
    /\ (forall i c, chunks !! i = Some c ->
          Embedder.chunkIndex c = i
          /\ Embedder.metadata c = meta
          /\ (stride e | Embedder.startChar c)%Z
          /\ Embedder.endChar c
             = Z.min (Embedder.startChar c + Embedder.chunkSizeChars e)
                     (Z.of_nat (length txt)))
    /\ StronglySorted starts_before chunks.
Proof.
  destruct chunkText_structure as (chunks & Hrun & Hok & Hpos & Hsorted & _).
  exists chunks. split; [exact Hrun|]. split; [|exact Hsorted].
  intros i c Hi. split; [apply Hpos, Hi|].
  rewrite List.Forall_forall in Hok.
  destruct (Hok c) as (Hmeta & _ & Hend & _ & _ & Hdiv).
  { apply list_elem_of_In. eapply list_elem_of_lookup_2. exact Hi. }
  auto.
Qed.

(** X2. With a non-negative overlap below the chunk size, the text of
    every chunk is its window of the document
    ([startChar] to [endChar], inside the text and not empty) with the
    white space at both ends removed; it is never empty and has no white
    space left at either end. *)
Theorem chunkText_texts_are_trimmed_windows :
  exists chunks,
    Embedder.chunkText e (S (length txt)) txt meta = Some chunks
    /\ Forall
         (fun c =>
            (0 <= Embedder.startChar c < Embedder.endChar c)%Z
            /\ (Embedder.endChar c <= Z.of_nat (length txt))%Z
            /\ Embedder.text c
               = trim (substring txt (Embedder.startChar c) (Embedder.endChar c))
            /\ Embedder.text c <> []
            /\ trim (Embedder.text c) = Embedder.text c)
         chunks.
Proof.
  destruct chunkText_structure as (chunks & Hrun & Hok & _).
  exists chunks. split; [exact Hrun|].
  eapply Forall_impl; [exact Hok|]. cbn.
  intros c (_ & Hrange & Hend & Htext & Hne & _).
  split; [exact Hrange|]. split; [lia|]. split; [exact Htext|].
  split; [exact Hne|]. rewrite Htext. apply trim_idem.
Qed.

(** X3. With a non-negative overlap below the chunk size, nothing but
    white space is lost: every character of the document that is not white
    space lies in the window of at least one chunk. *)
Theorem chunkText_covers_text :
  exists chunks,
    Embedder.chunkText e (S (length txt)) txt meta = Some chunks
    /\ forall n u, txt !! n = Some u -> is_ws u = false ->
         exists c, In c chunks
           /\ (Embedder.startChar c <= Z.of_nat n < Embedder.endChar c)%Z.
Proof.
  destruct chunkText_structure as (chunks & Hrun & _ & _ & _ & Hcov).
  exists chunks. split; [exact Hrun|].
  intros n u Hu Hws. apply (Hcov n u); [|exact Hu|exact Hws].
  apply lookup_lt_Some in Hu. lia.
Qed.

End ChunkerStructure.

(** A text of 2000 characters: two chunks, at 0 and at 1400. *)
Lemma chunkText_indices_and_offsets_witness :
  exists chunks,
    Embedder.chunkText Embedder.default (S (length (repeat 97%N 2000)))
      (repeat 97%N 2000) tt = Some chunks
    /\ (forall i c, chunks !! i = Some c ->
          Embedder.chunkIndex c = i
          /\ Embedder.metadata c = tt
          /\ (stride Embedder.default | Embedder.startChar c)%Z
          /\ Embedder.endChar c
             = Z.min (Embedder.startChar c + Embedder.chunkSizeChars Embedder.default)
                     (Z.of_nat (length (repeat 97%N 2000))))
    /\ StronglySorted starts_before chunks.
Proof.
  apply (chunkText_indices_and_offsets Embedder.default); vm_compute; congruence.
Defined.

Lemma chunkText_texts_are_trimmed_windows_witness :
  exists chunks,
    Embedder.chunkText Embedder.default
      (S (length (js "  Force equals mass times acceleration.  ")))
      (js "  Force equals mass times acceleration.  ") tt = Some chunks
    /\ Forall
         (fun c =>
            (0 <= Embedder.startChar c < Embedder.endChar c)%Z
            /\ (Embedder.endChar c
                <= Z.of_nat (length (js "  Force equals mass times acceleration.  ")))%Z
            /\ Embedder.text c
               = trim (substring (js "  Force equals mass times acceleration.  ")
                         (Embedder.startChar c) (Embedder.endChar c))
            /\ Embedder.text c <> []
            /\ trim (Embedder.text c) = Embedder.text c)
         chunks.
Proof.
  apply (chunkText_texts_are_trimmed_windows Embedder.default); vm_compute; congruence.
Defined.

Lemma chunkText_covers_text_witness :
  exists chunks,
    Embedder.chunkText Embedder.default (S (length (repeat 97%N 2000)))
      (repeat 97%N 2000) tt = Some chunks
    /\ forall n u, repeat 97%N 2000 !! n = Some u -> is_ws u = false ->
         exists c, In c chunks
           /\ (Embedder.startChar c <= Z.of_nat n < Embedder.endChar c)%Z.
Proof.
  apply (chunkText_covers_text Embedder.default); vm_compute; congruence.
Defined.

(** X4. A document no longer than one chunk gives a single chunk, the
    whole text trimmed, with index 0 and the window from 0 to the length
    of the text; and no chunk at all when the text is empty or only white
    space. *)
Theorem chunkText_short_text {M : Type} (e : Embedder.t) (fuel : nat)
    (txt : jsstring) (meta : M) :
  (Z.of_nat (length txt) <= Embedder.chunkSizeChars e)%Z ->
  Embedder.chunkText e (S fuel) txt meta
  = Some match trim txt with
         | [] => []
         | t => [ {| Embedder.text := t; Embedder.metadata := meta;
                     Embedder.chunkIndex := 0; Embedder.startChar := 0;
                     Embedder.endChar := Z.of_nat (length txt) |} ]
         end.
Proof.
  intros Hshort. unfold Embedder.chunkText. cbn [Embedder.chunk_loop].
  destruct (Z.ltb_spec 0 (Z.of_nat (length txt))) as [Hpos|Hzero].
  - replace (Z.min (0 + Embedder.chunkSizeChars e) (Z.of_nat (length txt)))
      with (Z.of_nat (length txt)) by lia.
    rewrite substring_whole.
    destruct (Z.geb_spec (Z.of_nat (length txt) - Embedder.overlapChars e)
                (Z.of_nat (length txt) - Embedder.overlapChars e)); [|lia].
    destruct (trim txt); reflexivity.
  - destruct txt; [reflexivity|simpl in Hzero; lia].
Qed.

Lemma chunkText_short_text_witness :
  Embedder.chunkText Embedder.default 1 (js "  What is osmosis?  ") tt
  = Some [ {| Embedder.text := js "What is osmosis?"; Embedder.metadata := tt;
              Embedder.chunkIndex := 0; Embedder.startChar := 0;
              Embedder.endChar := 20 |} ].
Proof.
  apply (chunkText_short_text Embedder.default 0 (js "  What is osmosis?  ") tt).
  vm_compute. congruence.
Defined.

(** ** Embedding of chunks and queries *)

(** X5. [embedChunks] is all or nothing: it returns exactly when the
    embedding of every chunk returns, and then gives the same chunks in the
    same order, each with the embedding of its text; it throws exactly
    when the embedding of some chunk throws. *)
Theorem embedChunks_all_or_nothing {M Vec : Type}
    (client : jsstring -> Result Vec) (chunks : list (Embedder.Chunk M)) :
  (forall out,
     Embedding.embedChunks client chunks = Returned out
     <-> Forall2 (fun c x => Embedding.chunk x = c
                             /\ client (Embedder.text c)
                                = Returned (Embedding.embedding x)) chunks out)
  /\ (threw (Embedding.embedChunks client chunks) = true
      <-> Exists (fun c => threw (client (Embedder.text c)) = true) chunks).
Proof.
  induction chunks as [|c rest [IHr IHt]]; cbn [Embedding.embedChunks].
  - split.
    + intros out. split.
      * intros [= <-]. constructor.
      * intros H. inversion H. reflexivity.
    + split; [discriminate|]. intros H. inversion H.
  - unfold Embedding.generateEmbedding.
    destruct (client (Embedder.text c)) as [v|err] eqn:Hc.
    + destruct (Embedding.embedChunks client rest) as [out'|err] eqn:Hrest.
      * split.
        -- intros out. split.
           ++ intros [= <-]. constructor; [split; [reflexivity|exact Hc]|].
              apply IHr. reflexivity.
           ++ intros H. inversion H as [|c0 x l0 out0 [Hx Hv] Hall]; subst.
              apply IHr in Hall. injection Hall as <-.
              rewrite Hc in Hv. injection Hv as ->.
              destruct x; reflexivity.
        -- split; [discriminate|]. intros H.
           apply List.Exists_cons in H as [H|H]; [rewrite Hc in H; discriminate H|].
           apply IHt in H. discriminate H.
      * split.
        -- intros out. split; [discriminate|].
           intros H. inversion H as [|c0 x l0 out0 _ Hall]; subst.
           apply IHr in Hall. discriminate Hall.
        -- split; [|reflexivity]. intros _. apply List.Exists_cons_tl.
           apply IHt. reflexivity.
    + split.
      * intros out. split; [discriminate|].
        intros H. inversion H as [|c0 x l0 out0 [_ Hv] _]; subst.
        rewrite Hc in Hv. discriminate Hv.
      * split; [|reflexivity]. intros _. apply List.Exists_cons_hd.
        rewrite Hc. reflexivity.
Qed.

(** With the provider the embedder imports, nothing throws and every
    embedding is the same vector. *)
Lemma embedChunks_mock {M : Type} (chunks : list (Embedder.Chunk M)) :
  Embedding.embedChunks (fun t => Returned (Gen.Groq.generateEmbedding t)) chunks
  = Returned (List.map (fun c => {| Embedding.chunk := c;
                                    Embedding.embedding := repeat Num.zero 768 |})
                       chunks).
Proof.
  induction chunks as [|c rest IH]; [reflexivity|].
  cbn [Embedding.embedChunks]. rewrite IH. reflexivity.
Qed.

(** X6. With the embedding provider the embedder imports, whose
    [generateEmbedding] is a mock, [processDocument] never throws and
    returns one embedded chunk per chunk of [chunkText], and every
    embedding, the one of a query included, is the vector of 768 zeros:
    it does not depend on the text and has not the 1536 entries the
    vector collection is created with. *)
Theorem embeddings_are_zero_vectors {M : Type} (txt : jsstring) (meta : M)
    (query : jsstring) :
  let client := fun t => Returned (Gen.Groq.generateEmbedding t) in
  (exists chunks out,
     Embedder.chunkText Embedder.default (S (length txt)) txt meta = Some chunks
     /\ Embedding.processDocument Embedder.default client (S (length txt)) txt meta
        = Some (Returned out)
     /\ List.map Embedding.chunk out = chunks
     /\ Forall (fun x => Embedding.embedding x = repeat Num.zero 768) out)
  /\ Embedding.embedQuery client query = Returned (repeat Num.zero 768)
  /\ length (repeat Num.zero 768) = 768
  /\ Qdrant.vectorSize = 1536.
Proof.
  intros client. split; [|repeat split].
  destruct (chunk_loop_returns Embedder.default
              ltac:(vm_compute; congruence) ltac:(vm_compute; congruence)
              txt meta (length txt) 0%Z []) as (chunks & Hrun & _);
    [lia|lia|constructor|].
  exists chunks. eexists. split; [exact Hrun|]. split.
  - unfold Embedding.processDocument, Embedder.chunkText. rewrite Hrun.
    unfold client. rewrite embedChunks_mock. reflexivity.
  - split.
    + rewrite List.map_map. cbn. apply List.map_id.
    + apply List.Forall_forall. intros x Hx.
      apply List.in_map_iff in Hx as (c & <- & _). reflexivity.
Qed.

(** ** Retrieval with the embedding provider in use *)

(** X7. With the embedding provider the embedder imports, retrieval does
    not depend on the question: every question is embedded as the same
    vector of zeros, so [retrieve] gives the same result for any two
    questions, namely what the vector index returns for that vector,
    filtered by the score floor. *)
Theorem retrieval_ignores_the_question {M Filter : Type}
    (client_search : list Num.number -> nat -> option Filter ->
                     Result (list (Retriever.ScoredPoint M)))
    (question question' : jsstring) (topK : option nat) (filter : option Filter) :
  let embedQuery :=
    Embedding.embedQuery (fun t => Returned (Gen.Groq.generateEmbedding t)) in
  Retriever.retrieve embedQuery client_search question topK filter
  = Retriever.retrieve embedQuery client_search question' topK filter
  /\ Retriever.retrieve embedQuery client_search question topK filter
     = match Retriever.search client_search (repeat Num.zero 768) (requested topK) filter with
       | Returned results =>
         List.filter (fun h => Num.geb (Retriever.score h) Retriever.minScore) results
       | Threw _ => []
       end.
Proof. split; reflexivity. Qed.

(** ** Generation clients: what a call can result in *)

Lemma fallback_objects question :
  is_answer_object (js "Fallback response") (Gen.Gemini.getFallbackResponse question)
  /\ is_answer_object (js "Fallback response due to empty Claude output")
       (Gen.Claude.getFallbackResponse question).
Proof. split; eexists _, _, _; reflexivity. Qed.

Lemma gemini_parseResponse_object text :
  is_answer_object text (Gen.Gemini.parseResponse text).
Proof.
  unfold Gen.Gemini.parseResponse.
  destruct (Gen.parse_or_throw _) as [parsed|];
    [|apply structureNonJsonResponse_object].
  destruct (Gen.from_parsed parsed _ text) as [a|] eqn:Ha;
    [|apply structureNonJsonResponse_object].
  eapply from_parsed_object. exact Ha.
Qed.

Lemma claude_parseContent_object text :
  is_answer_object text (Gen.Claude.parseContent text).
Proof.
  unfold Gen.Claude.parseContent.
  destruct (Gen.Claude.jsonMatch text) as [m|];
    [|apply structureNonJsonResponse_object].
  destruct (Gen.parse_or_throw m) as [parsed|];
    [|apply structureNonJsonResponse_object].
  destruct (Gen.from_parsed parsed _ text) as [a|] eqn:Ha;
    [|apply structureNonJsonResponse_object].
  eapply from_parsed_object. exact Ha.
Qed.

(** The comparison of a model identifier with the last one of the list. *)
Ltac decide_last_model :=
  repeat match goal with
  | |- context [decide (?x = ?y)] =>
    let H := fresh "H" in
    destruct (decide (x = y)) as [H|H];
      [try (vm_compute in H; discriminate H)
      |try (exfalso; apply H; vm_compute; reflexivity)]
  end.

Section GeminiOutcomes.
Context {Ctx : Type}.
Variable buildPrompt : jsstring -> list Ctx -> jsstring.
Variable generate : jsstring -> jsstring -> Result jsstring.

(** X8. The Gemini client answers with the first model of its list whose
    call returns: when every model before it throws, the result is the
    parsed text of that model, and the models after it play no part. *)
Theorem gemini_first_success (question : jsstring) (context : list Ctx)
    (before : list jsstring) (modelName : jsstring) (after : list jsstring)
    (text : jsstring) :
  Gen.Gemini.modelsToTry = before ++ modelName :: after ->
  (forall m, In m before ->
     threw (generate m (buildPrompt question context)) = true) ->
  generate modelName (buildPrompt question context) = Returned text ->
  Gen.Gemini.askWithContext buildPrompt generate question context
  = Some (Gen.Gemini.parseResponse text).
Proof.
  intros Hsplit Hfail Hok.
  unfold Gen.Gemini.askWithContext. rewrite Hsplit.
  assert (Hlast : last (before ++ modelName :: after) = last Gen.Gemini.modelsToTry)
    by (rewrite Hsplit; reflexivity).
  rewrite Hlast. clear Hlast.
  assert (Hnot : forall m, In m before -> Some m <> last Gen.Gemini.modelsToTry).
  { intros m Hm Heq.
    assert (Hnd : NoDup Gen.Gemini.modelsToTry)
      by (unfold Gen.Gemini.modelsToTry; repeat constructor;
          rewrite ?list_elem_of_In; cbn; intuition discriminate).
    rewrite Hsplit in Hnd, Heq.
    apply NoDup_app in Hnd as (_ & Hdisj & _).
    apply (Hdisj m); [apply list_elem_of_In, Hm|].
    rewrite last_app_cons in Heq. symmetry in Heq.
    apply last_Some_elem_of. exact Heq. }
  clear Hsplit. induction before as [|m before IH]; cbn [app Gen.Gemini.try_models].
  - rewrite Hok. reflexivity.
  - assert (Hm : threw (generate m (buildPrompt question context)) = true)
      by (apply Hfail; left; reflexivity).
    destruct (generate m (buildPrompt question context)); [discriminate Hm|].
    destruct (decide (Some m = last Gen.Gemini.modelsToTry)) as [Heq|_].
    + exfalso. apply (Hnot m); [left; reflexivity|exact Heq].
    + apply IH.
      * intros m' Hm'. apply Hfail. right. exact Hm'.
      * intros m' Hm'. apply Hnot. right. exact Hm'.
Qed.

(** X9. The Gemini client always answers: whatever the calls do, it
    returns (never [undefined], never an exception) an object with steps,
    finalAnswer, confidence and rawResponse. *)
Theorem gemini_always_answers (question : jsstring) (context : list Ctx) :
  exists a raw,
    Gen.Gemini.askWithContext buildPrompt generate question context = Some a
    /\ is_answer_object raw a.
Proof.
  unfold Gen.Gemini.askWithContext, Gen.Gemini.modelsToTry.
  cbn [Gen.Gemini.try_models].
  repeat match goal with
  | |- context [generate ?m ?p] =>
    destruct (generate m p) as [?text|?err];
      [eexists _, _; split; [reflexivity|apply gemini_parseResponse_object]|]
  end.
  decide_last_model.
  eexists _, _. split; [reflexivity|apply fallback_objects].
Qed.

End GeminiOutcomes.

Lemma gemini_first_success_witness :
  let generate := fun (m : jsstring) (_ : jsstring) =>
    if decide (m = js "gemini-1.5-flash") then Returned (js "1. Water moves")
    else Threw {| message := js "404 Not Found" |} in
  Gen.Gemini.askWithContext (fun q (_ : list unit) => q) generate
    (js "What is osmosis?") []
  = Some (Gen.Gemini.parseResponse (js "1. Water moves")).
Proof.
  intros generate.
  apply (gemini_first_success (fun q (_ : list unit) => q) generate
           (js "What is osmosis?") [] [js "gemini-1.5-flash-001"]
           (js "gemini-1.5-flash") [js "gemini-pro"; js "gemini-1.0-pro"]).
  - reflexivity.
  - intros m [<-|[]]. reflexivity.
  - reflexivity.
Defined.

(** ** The Claude client *)

Section ClaudeOutcomes.
Context {Ctx : Type}.
Variable buildPrompt : jsstring -> list Ctx -> jsstring.
Variable create : jsstring -> Result (option (list (option jsstring))).

(** The text of the first content block, when the response has one that
    is not blank. *)
Definition first_text (r : option (list (option jsstring))) : option jsstring :=
  match r with
  | Some (Some content :: _) =>
    if Nat.eqb (length (trim content)) 0 then None else Some content
  | _ => None
  end.

(** X10. The Claude client throws only when the API call throws with a
    message that does not mention [model output must contain], and then
    rethrows that error; for an error with that message, and for a
    response without a first text block or with a blank one, it returns
    its fallback answer; otherwise it returns the parsed content. Whatever
    it returns is an object with steps, finalAnswer, confidence and
    rawResponse. *)
Theorem claude_askWithContext_outcomes (question : jsstring) (context : list Ctx) :
  let prompt := buildPrompt question context in
  let result := Gen.Claude.askWithContext buildPrompt create question context in
  (forall e, create prompt = Threw e ->
     result = if Str.includes (js "model output must contain") (message e)
              then Returned (Gen.Claude.getFallbackResponse question)
              else Threw e)
  /\ (forall r, create prompt = Returned r ->
        result = Returned match first_text r with
                          | Some content => Gen.Claude.parseContent content
                          | None => Gen.Claude.getFallbackResponse question
                          end)
  /\ (forall a, result = Returned a -> exists raw, is_answer_object raw a).
Proof.
  cbv zeta. unfold Gen.Claude.askWithContext.
  destruct (create (buildPrompt question context)) as [r|e0].
  - split; [discriminate|]. split.
    + intros r' [= <-]. unfold first_text.
      destruct r as [[|[content|] rest]|]; try reflexivity.
      destruct (Nat.eqb (length (trim content)) 0); reflexivity.
    + intros a. destruct r as [[|[content|] rest]|];
        try (intros [= <-]; eexists; apply fallback_objects).
      destruct (Nat.eqb (length (trim content)) 0); intros [= <-]; eexists;
        [apply fallback_objects|apply claude_parseContent_object].
  - split; [|split; [discriminate|]].
    + intros e [= <-]. reflexivity.
    + intros a. destruct (Str.includes _ _); [|discriminate].
      intros [= <-]. eexists. apply fallback_objects.
Qed.

End ClaudeOutcomes.

(** ** The span the Claude client parses *)

Lemma upto_last_close_None s :
  Gen.Claude.upto_last_close s = None <-> ~ In 125%N s.
Proof.
  induction s as [|c s IH]; cbn; [tauto|].
  destruct (Gen.Claude.upto_last_close s) as [m|].
  - split; [discriminate|]. intros H. exfalso.
    assert (Hin : In 125%N s).
    { destruct (in_dec N.eq_dec 125%N s) as [Hi|Hi]; [exact Hi|].
      apply IH in Hi. discriminate Hi. }
    tauto.
  - destruct (N.eqb_spec c 125) as [->|Hne].
    + split; [discriminate|]. intros H. exfalso. apply H. left. reflexivity.
    + split; [|reflexivity]. intros _ [H|H]; [congruence|].
      apply (proj1 IH); [reflexivity|exact H].
Qed.

Lemma upto_last_close_Some s m :
  Gen.Claude.upto_last_close s = Some m ->
  exists mid post, s = mid ++ 125%N :: post /\ m = mid ++ [125%N] /\ ~ In 125%N post.
Proof.
  revert m. induction s as [|c s IH]; intros m; cbn; [discriminate|].
  destruct (Gen.Claude.upto_last_close s) as [m'|] eqn:Hs.
  - intros [= <-]. destruct (IH m' eq_refl) as (mid & post & -> & -> & Hpost).
    exists (c :: mid), post. auto.
  - destruct (N.eqb_spec c 125) as [->|Hne]; [|discriminate].
    intros [= <-]. exists [], s. split; [reflexivity|]. split; [reflexivity|].
    apply upto_last_close_None. exact Hs.
Qed.

Lemma upto_last_close_app mid post :
  ~ In 125%N post ->
  Gen.Claude.upto_last_close (mid ++ 125%N :: post) = Some (mid ++ [125%N]).
Proof.
  intros Hpost. induction mid as [|c mid IH]; cbn.
  - apply upto_last_close_None in Hpost. rewrite Hpost. reflexivity.
  - rewrite IH. reflexivity.
Qed.

(** X11. What the Claude client hands to the JSON parser is the longest
    brace-delimited span: [jsonMatch] finds a span exactly when the text
    has an opening brace with a closing brace somewhere after it, and the
    span then runs from the first opening brace of the text to its last
    closing brace. *)
Theorem jsonMatch_first_to_last_brace (content m : jsstring) :
  Gen.Claude.jsonMatch content = Some m
  <-> exists before mid after,
        content = before ++ 123%N :: mid ++ 125%N :: after
        /\ m = 123%N :: mid ++ [125%N]
        /\ ~ In 123%N before /\ ~ In 125%N after.
Proof.
  split.
  - revert m. induction content as [|c s IH]; intros m; cbn; [discriminate|].
    destruct (N.eqb_spec c 123) as [->|Hne].
    + destruct (Gen.Claude.upto_last_close s) as [m'|] eqn:Hs; [|discriminate].
      intros [= <-]. apply upto_last_close_Some in Hs as (mid & post & -> & -> & Hpost).
      exists [], mid, post. auto.
    + intros H. destruct (IH m H) as (before & mid & post & -> & -> & Hb & Hp).
      exists (c :: before), mid, post. repeat split; try assumption.
      intros [Hc|Hin]; [congruence|exact (Hb Hin)].
  - intros (before & mid & post & -> & -> & Hb & Hp).
    induction before as [|c before IH]; cbn.
    + rewrite upto_last_close_app by exact Hp. reflexivity.
    + destruct (N.eqb_spec c 123) as [->|Hne].
      * exfalso. apply Hb. left. reflexivity.
      * apply IH. intros Hin. apply Hb. right. exact Hin.
Qed.

(** ** Diagram repair: the shape of a repaired text *)

Lemma filter_id_Forall {A} (f : A -> bool) (l : list A) :
  List.filter f l = l -> Forall (fun a => f a = true) l.
Proof.
  induction l as [|a l IH]; simpl; [constructor|].
  destruct (f a) eqn:Hfa.
  - intros [= H]. constructor; [exact Hfa|apply IH, H].
  - intros H. pose proof (filter_length_le f l) as Hlen.
    rewrite H in Hlen. simpl in Hlen. lia.
Qed.

(** A line the line filter leaves alone: blank, a diagram declaration, or
    made of allowed characters only. *)
Definition clean_line (line : jsstring) : Prop :=
  Mermaid.blank line = true
  \/ Mermaid.has_diagram_type (trim line) = true
  \/ Forall (fun c => Mermaid.allowed c = true) line.

Lemma stable_clean line : stable line -> clean_line line.
Proof.
  unfold stable, clean_line, Mermaid.fix_line.
  destruct (Mermaid.blank line); [auto|].
  destruct (Mermaid.has_diagram_type (trim line)); [auto|].
  cbn [orb]. intros H. right. right. apply filter_id_Forall. exact H.
Qed.

(** X12. Whatever the input, the repaired diagram text has no white space
    at either end, no semicolon and no empty line inside (no two line feeds
    in a row), and each of its lines is blank, a diagram declaration, or
    made only of the characters the repair allows. It is empty exactly for
    an empty or white-space-only input; otherwise it begins with one of
    the five diagram declarations. *)
Theorem validateAndFixMermaid_output_shape (x : jsstring) :
  let y := Mermaid.validateAndFixMermaid x in
  (Mermaid.blank x = true -> y = [])
  /\ (Mermaid.blank x = false ->
      exists k r, In k Mermaid.diagram_types /\ y = k ++ r)
  /\ trim y = y
  /\ no_semicolon y
  /\ no_double false y = true
  /\ Forall clean_line (Str.split Str.NL y).
Proof.
  cbv zeta. destruct (Mermaid.blank x) eqn:Hx.
  - assert (Hy : Mermaid.validateAndFixMermaid x = [])
      by (unfold Mermaid.validateAndFixMermaid; rewrite Hx; reflexivity).
    rewrite Hy. split; [reflexivity|]. split; [discriminate|].
    split; [reflexivity|]. split; [constructor|]. split; [reflexivity|].
    constructor; [left; reflexivity|constructor].
  - destruct (repair_shape x Hx) as (fixed & Hfixed & ->).
    split; [discriminate|]. split; [intros _; apply last_stages_starts|].
    split; [apply last_stages_trimmed|].
    split; [apply last_stages_no_semicolon; exact Hfixed|].
    split; [apply last_stages_no_double|].
    eapply Forall_impl; [apply last_stages_lines; exact Hfixed|].
    intros l. apply stable_clean.
Qed.

(** ** Answer orchestrator: the success path *)

Section AskSuccess.
Context {Ctx User Filter : Type}.
Variable retrieve : jsstring -> nat -> option Filter -> Result (list Ctx).
Variable askWithContext : jsstring -> list Ctx -> Result (option AskService.Answer).
Variable create : nat -> AskService.Doubt Ctx User -> option Error.


(** X14. A failure of the retrieval does not fail the question: when the
    retriever throws, [askTextQuestion] behaves exactly as if it had
    returned no context. *)
Theorem askTextQuestion_retrieval_failure_tolerated (q : jsstring) (user : User)
    (options : AskService.Options Filter)
    (doubts : list (AskService.Doubt Ctx User)) :
  (forall k f, threw (retrieve q k f) = true) ->
  AskService.askTextQuestion retrieve askWithContext create q user options doubts
  = AskService.askTextQuestion (fun _ _ _ => Returned []) askWithContext create
      q user options doubts
  /\ (forall d a doubts',
        AskService.askTextQuestion retrieve askWithContext create q user options doubts
        = (Returned (d, a), doubts') ->
        AskService.retrievedContext d = []
        /\ askWithContext q [] = Returned (Some a)).
Proof.
  intros Hfail.
  assert (Hctx : forall k f,
            match retrieve q k f with Returned c => c | Threw _ => [] end = []).
  { intros k f. specialize (Hfail k f).
    destruct (retrieve q k f); [discriminate Hfail|reflexivity]. }
  split.
  - unfold AskService.askTextQuestion, AskService.pipeline. rewrite Hctx. reflexivity.
  - intros d a doubts'.
    unfold AskService.askTextQuestion, AskService.pipeline. rewrite Hctx.
    destruct (askWithContext q []) as [[answer|]|e0] eqn:Hask; try discriminate.
    destruct (AskService.steps answer) as [answer_steps|]; try discriminate.
    destruct (create 0 _) as [e1|]; [discriminate|].
    intros [= <- <- _]. split; reflexivity.
Qed.

End AskSuccess.


Lemma askTextQuestion_retrieval_failure_tolerated_witness :
  let retrieve := fun (_ : jsstring) (_ : nat) (_ : option unit) =>
                    @Threw (list unit) {| message := js "connect ECONNREFUSED" |} in
  let a := {| AskService.steps := Some [js "Light scatters."];
              AskService.explanation := None;
              AskService.finalAnswer := Some (js "Rayleigh scattering.");
              AskService.confidence := Num.dec 9 1;
              AskService.mermaidCode := None;
              AskService.code := None |} in
  let ask := fun (_ : jsstring) (_ : list unit) => Returned (Some a) in
  let create := fun (_ : nat) (_ : AskService.Doubt unit nat) => @None Error in
  let options : AskService.Options unit :=
    {| AskService.topK := None; AskService.filter := None;
       AskService.o_tags := None |} in
  AskService.askTextQuestion retrieve ask create (js "Why is the sky blue?") 7 options []
  = AskService.askTextQuestion (fun _ _ _ => Returned []) ask create
      (js "Why is the sky blue?") 7 options []
  /\ (forall d a' doubts',
        AskService.askTextQuestion retrieve ask create (js "Why is the sky blue?") 7
          options []
        = (Returned (d, a'), doubts') ->
        AskService.retrievedContext d = []
        /\ ask (js "Why is the sky blue?") [] = Returned (Some a')).
Proof.
  intros retrieve a ask create options.
  apply (askTextQuestion_retrieval_failure_tolerated retrieve ask create
           (js "Why is the sky blue?") 7 options []).
  intros k f. reflexivity.
Defined.

(** ** Streak and points *)

Section StreakProofs.
Variable startOfDay : Z -> Z.

(** One update: the points gained, the new streak, the new date. *)
Lemma streak_update_step (user : AskService.UserDoc) (now later : Z) :
  let user' := AskService.streak_update startOfDay user now later in
  (10 <= AskService.points user' - AskService.points user <= 265)%Z
  /\ (AskService.streak user' = 1%Z
      \/ AskService.streak user' = AskService.streak user
      \/ AskService.streak user' = (AskService.streak user + 1)%Z)
  /\ (AskService.lastActiveDate user = None -> AskService.streak user' = 1%Z)
  /\ AskService.lastActiveDate user' = Some later.
Proof.
  cbv zeta. unfold AskService.streak_update. cbv zeta.
  set (streak1 := match AskService.lastActiveDate user with
                  | Some d => _ | None => 1%Z end).
  cbn [AskService.points AskService.streak AskService.lastActiveDate].
  split; [|split; [|split]].
  - destruct (1 <? streak1)%Z, (Z.rem streak1 7 =? 0)%Z, (Z.rem streak1 30 =? 0)%Z; lia.
  - unfold streak1. destruct (AskService.lastActiveDate user) as [d|]; [|auto].
    destruct (_ =? _)%Z; [auto|]. destruct (_ =? _)%Z; auto.
  - unfold streak1. intros ->. reflexivity.
  - reflexivity.
Qed.

(** X15. Every update of a user's streak awards points, whatever the
    document held before: at least 10 and at most 265 of them, exactly 10
    when the streak is (re)started at 1; the streak restarts at 1, stays,
    or grows by one; and the last active date becomes the instant of the
    update. *)
Theorem streak_update_awards (user : AskService.UserDoc) (now later : Z) :
  let user' := AskService.streak_update startOfDay user now later in
  let gain := (AskService.points user' - AskService.points user)%Z in
  (10 <= gain <= 265)%Z
  /\ (AskService.streak user' = 1%Z -> gain = 10%Z)
  /\ (AskService.streak user' = 1%Z
      \/ AskService.streak user' = AskService.streak user
      \/ AskService.streak user' = (AskService.streak user + 1)%Z)
  /\ (AskService.lastActiveDate user = None -> AskService.streak user' = 1%Z)
  /\ AskService.lastActiveDate user' = Some later.
Proof.
  cbv zeta.
  destruct (streak_update_step user now later) as (Hgain & Hcases & Hfirst & Hlast).
  split; [exact Hgain|]. split; [|auto].
  unfold AskService.streak_update. cbv zeta.
  cbn [AskService.points AskService.streak AskService.lastActiveDate].
  intros ->. change (1 <? 1)%Z with false.
  change (Z.rem 1 7 =? 0)%Z with false. change (Z.rem 1 30 =? 0)%Z with false.
  lia.
Qed.

(** The document of a user who started with the schema defaults, after a
    sequence of updates at the given pairs of instants. *)
Definition after_updates (times : list (Z * Z)) : AskService.UserDoc :=
  fold_left (fun user t => AskService.streak_update startOfDay user (fst t) (snd t))
    times AskService.new_user.

Lemma after_updates_snoc times t :
  after_updates (times ++ [t])
  = AskService.streak_update startOfDay (after_updates times) (fst t) (snd t).
Proof. unfold after_updates. rewrite fold_left_app. reflexivity. Qed.

(** X16. For a user created with the schema defaults, after any number
    [n] of updates, at whatever instants: the streak is at most [n] and,
    from the first update on, at least 1; the points are between [10 n]
    and [265 n]; and the last active date is set exactly when [n > 0]. *)
Theorem streak_and_points_bounds (times : list (Z * Z)) :
  let user := after_updates times in
  let n := Z.of_nat (length times) in
  (AskService.streak user <= n)%Z
  /\ (times <> [] -> 1 <= AskService.streak user)%Z
  /\ (10 * n <= AskService.points user <= 265 * n)%Z
  /\ (AskService.lastActiveDate user = None <-> times = []).
Proof.
  cbv zeta. induction times as [|t times IH] using rev_ind.
  - cbn. repeat split; try lia; try congruence.
  - rewrite after_updates_snoc, length_app, Nat2Z.inj_add. cbn [length].
    destruct IH as (Hle & Hge & Hpts & Hdate).
    pose proof (streak_update_step (after_updates times) (fst t) (snd t)) as H.
    cbv zeta in H. destruct H as (Hgain & Hcases & Hfirst & Hlast).
    set (user' := AskService.streak_update startOfDay (after_updates times)
                    (fst t) (snd t)) in *.
    split; [|split; [|split]].
    + destruct times as [|t0 times']; [|lia].
      cbn [length] in *. rewrite Hfirst by (apply Hdate; reflexivity). lia.
    + intros _. destruct times as [|t0 times'].
      * rewrite Hfirst by (apply Hdate; reflexivity). lia.
      * specialize (Hge ltac:(discriminate)). lia.
    + lia.
    + rewrite Hlast. split; [discriminate|]. intros H.
      destruct times; discriminate H.
Qed.

(** The stored documents: only the addressed user's can change, and only
    to the updated document, when the store accepts it. *)
Lemma updateUserStreak_store (save : AskService.UserDoc -> option Error)
    (users : gmap positive AskService.UserDoc) (userId : positive) (now later : Z) :
  let users' := AskService.updateUserStreak startOfDay save users userId now later in
  (forall j, j <> userId -> users' !! j = users !! j)
  /\ (users' = users
      \/ exists user, users !! userId = Some user
           /\ save (AskService.streak_update startOfDay user now later) = None
           /\ users' !! userId
              = Some (AskService.streak_update startOfDay user now later)).
Proof.
  cbv zeta. unfold AskService.updateUserStreak.
  destruct (users !! userId) as [user|] eqn:Hu; [|auto].
  cbv zeta. destruct (save _) eqn:Hs; [auto|]. split.
  - intros j Hj. apply lookup_insert_ne. congruence.
  - right. exists user. split; [reflexivity|]. split; [exact Hs|].
    apply lookup_insert_eq.
Qed.

End StreakProofs.

(** ** Requests on stored doubts *)

Section DoubtProofs.
Context {Ctx User : Type} `{EqDecision User}.
Variable save : positive -> AskService.Stored Ctx User -> option Error.
Variable askRaw : jsstring -> Result jsstring.
Variable diagramPrompt : jsstring -> AskService.Stored Ctx User -> jsstring.

Abbreviation Collection := (gmap positive (AskService.Stored Ctx User)).

(** The four requests that write a doubt, as functions of the collection
    alone. *)
Inductive Mutation :=
| ToggleBookmark
| RateDoubt (r : Num.number)
| DeleteDoubt
| GenerateDiagram (diagramType : jsstring).

Definition mutate (m : Mutation) (doubts : Collection) (doubtId : positive)
    (user : User) : bool * Collection :=
  match m with
  | ToggleBookmark =>
    let '(r, c) := AskService.toggleBookmark save doubts doubtId user in (threw r, c)
  | RateDoubt rating =>
    let '(r, c) := AskService.rateDoubt save doubts doubtId user rating in (threw r, c)
  | DeleteDoubt =>
    let '(r, c) := AskService.deleteDoubt doubts doubtId user in (threw r, c)
  | GenerateDiagram diagramType =>
    let '(r, c) :=
      AskService.generateDiagram save askRaw diagramPrompt doubts doubtId user
        diagramType in
    (threw r, c)
  end.

(** X17. The requests that write a doubt (bookmark, rating, deletion,
    diagram) are scoped to the caller's own doubt: on an unknown doubt or
    on the doubt of another user each of them throws and leaves the
    collection as it was; in every case all other doubts stay as they
    were, the owner of the addressed doubt never changes, and when the
    request throws nothing at all has changed. *)
Theorem doubt_mutations_owner_scoped (m : Mutation) (doubts : Collection)
    (doubtId : positive) (user : User) :
  let result := mutate m doubts doubtId user in
  (AskService.findOne doubts doubtId user = None -> result = (true, doubts))
  /\ (forall j, j <> doubtId -> snd result !! j = doubts !! j)
  /\ (forall d', snd result !! doubtId = Some d' ->
        exists d, doubts !! doubtId = Some d
          /\ AskService.userId (AskService.doc d') = AskService.userId (AskService.doc d))
  /\ (fst result = true -> snd result = doubts).
Proof.
  cbv zeta. unfold mutate.
  destruct m as [|r| |diagramType];
    unfold AskService.toggleBookmark, AskService.rateDoubt, AskService.deleteDoubt,
      AskService.generateDiagram;
    (destruct (AskService.findOne doubts doubtId user) as [doubt|] eqn:Hfind;
     [|cbn; repeat split; try congruence; eauto]).
  all: assert (Hd : doubts !! doubtId = Some doubt)
    by (unfold AskService.findOne in Hfind;
        destruct (doubts !! doubtId) as [d0|]; [|discriminate];
        destruct (decide _); [congruence|discriminate]).
  all: split; [discriminate|].
  - destruct (save doubtId _); cbn; [eauto 6|].
    split; [intros j Hj; apply lookup_insert_ne; congruence|].
    split; [|discriminate].
    intros d'. rewrite lookup_insert_eq. intros [= <-]. eauto.
  - destruct (Num.ltb r Num.one || Num.gtb r (Num.of_Z 5)); [cbn; eauto 6|].
    destruct (save doubtId _); cbn; [eauto 6|].
    split; [intros j Hj; apply lookup_insert_ne; congruence|].
    split; [|discriminate].
    intros d'. rewrite lookup_insert_eq. intros [= <-]. eauto.
  - cbn. split; [intros j Hj; apply lookup_delete_ne; congruence|].
    split; [|discriminate].
    intros d'. rewrite lookup_delete_eq. discriminate.
  - destruct (askRaw _); [|cbn; eauto 6].
    destruct (save doubtId _); cbn; [eauto 6|].
    split; [intros j Hj; apply lookup_insert_ne; congruence|].
    split; [|discriminate].
    intros d'. rewrite lookup_insert_eq. intros [= <-]. eauto.
Qed.

(** X18. Toggling a bookmark twice restores the collection: with a store
    that accepts the document, the second [toggleBookmark] of the owner
    undoes the first. *)
Theorem toggleBookmark_twice (doubts : Collection) (doubtId : positive)
    (user : User) (d : AskService.Stored Ctx User) :
  doubts !! doubtId = Some d ->
  AskService.userId (AskService.doc d) = user ->
  (forall d', save doubtId d' = None) ->
  let once := AskService.toggleBookmark save doubts doubtId user in
  let twice := AskService.toggleBookmark save (snd once) doubtId user in
  (exists d1, fst once = Returned d1
     /\ AskService.isBookmarked d1 = negb (AskService.isBookmarked d)
     /\ snd once !! doubtId = Some d1)
  /\ fst twice = Returned d
  /\ snd twice = doubts.
Proof.
  intros Hd Howner Hsave. cbv zeta.
  assert (Hfind : forall (c : Collection) d0, c !! doubtId = Some d0 ->
            AskService.userId (AskService.doc d0) = user ->
            AskService.findOne c doubtId user = Some d0).
  { intros c d0 Hc Ho. unfold AskService.findOne. rewrite Hc.
    rewrite decide_True by exact Ho. reflexivity. }
  set (d1 := {| AskService.doc := AskService.doc d;
                AskService.isBookmarked := negb (AskService.isBookmarked d);
                AskService.rating := AskService.rating d |}).
  assert (Honce : AskService.toggleBookmark save doubts doubtId user
                  = (Returned d1, <[doubtId := d1]> doubts)).
  { unfold AskService.toggleBookmark.
    rewrite (Hfind doubts d Hd Howner), Hsave. reflexivity. }
  rewrite Honce. cbn [fst snd].
  split; [exists d1; split; [reflexivity|]; split; [reflexivity|apply lookup_insert_eq]|].
  unfold AskService.toggleBookmark.
  rewrite (Hfind _ d1 (lookup_insert_eq _ _ _) Howner), Hsave. cbn [fst snd].
  unfold d1. cbn [AskService.doc AskService.isBookmarked AskService.rating].
  rewrite negb_involutive. destruct d as [doc b r]. cbn.
  split; [reflexivity|].
  rewrite insert_insert_eq. apply insert_id. exact Hd.
Qed.

(** X19. [generateDiagram] stores what it returns: when it returns, the
    result is the repair of the content the model gave for the caller's
    own doubt (of the empty text when the model gave no content), that
    diagram is now the doubt's [mermaidCode], and nothing else of the
    doubt has changed. When the model call throws, the error is rethrown
    and the collection is as it was. *)
Theorem generateDiagram_stores_repaired (create : jsstring -> Result (option jsstring))
    (doubts : Collection) (doubtId : positive) (user : User) (diagramType : jsstring) :
  let result :=
    AskService.generateDiagram save (Gen.Groq.askRaw create) diagramPrompt doubts
      doubtId user diagramType in
  (forall code, fst result = Returned code ->
     exists d content,
       AskService.findOne doubts doubtId user = Some d
       /\ create (diagramPrompt diagramType d) = Returned content
       /\ code = Mermaid.validateAndFixMermaid
                   (match content with Some c => c | None => [] end)
       /\ snd result
          = <[doubtId :=
                {| AskService.doc := AskService.with_mermaidCode (AskService.doc d) code;
                   AskService.isBookmarked := AskService.isBookmarked d;
                   AskService.rating := AskService.rating d |}]> doubts)
  /\ (forall d e, AskService.findOne doubts doubtId user = Some d ->
        create (diagramPrompt diagramType d) = Threw e ->
        result = (Threw e, doubts)).
Proof.
  cbv zeta. unfold AskService.generateDiagram, Gen.Groq.askRaw. cbv zeta.
  destruct (AskService.findOne doubts doubtId user) as [d|];
    [|split; [intros code Hc; discriminate Hc|intros d e Hd; discriminate Hd]].
  destruct (create (diagramPrompt diagramType d)) as [[content|]|e0] eqn:Hask.
  - split; [|intros d' e [= <-] Hc; rewrite Hask in Hc; discriminate Hc].
    destruct (save doubtId _); cbn [fst snd]; [intros code Hc; discriminate Hc|].
    intros code [= <-]. exists d, (Some content). auto.
  - split; [|intros d' e [= <-] Hc; rewrite Hask in Hc; discriminate Hc].
    destruct (save doubtId _); cbn [fst snd]; [intros code Hc; discriminate Hc|].
    intros code [= <-]. exists d, None. auto.
  - split; [intros code Hc; discriminate Hc|].
    intros d' e [= <-] Hc. rewrite Hask in Hc. injection Hc as <-. reflexivity.
Qed.

End DoubtProofs.

Lemma toggleBookmark_twice_witness :
  let save := fun (_ : positive) (_ : AskService.Stored unit nat) => @None Error in
  let d := {| AskService.doc := AskService.failed_doubt (js "Why is the sky blue?") 7;
              AskService.isBookmarked := false; AskService.rating := None |} in
  let doubts : gmap positive (AskService.Stored unit nat) := {[ 1%positive := d ]} in
  let once := AskService.toggleBookmark save doubts 1%positive 7 in
  let twice := AskService.toggleBookmark save (snd once) 1%positive 7 in
  (exists d1, fst once = Returned d1
     /\ AskService.isBookmarked d1 = negb (AskService.isBookmarked d)
     /\ snd once !! 1%positive = Some d1)
  /\ fst twice = Returned d
  /\ snd twice = doubts.
Proof.
  intros save d doubts.
  apply (toggleBookmark_twice save doubts 1%positive 7 d).
  - reflexivity.
  - reflexivity.
  - intros d'. reflexivity.
Defined.

(** ** Ownership and identity of frames *)

(** What never changes on a frame once it is created. *)
Definition same_identity (f f' : Media.Frame) : Prop :=
  Media.createdBy f' = Media.createdBy f
  /\ Media.sourceType f' = Media.sourceType f
  /\ Media.sourceUrl f' = Media.sourceUrl f
  /\ Media.cropUrl f' = Media.cropUrl f
  /\ Media.pdfId f' = Media.pdfId f
  /\ Media.pageNumber f' = Media.pageNumber f.

Lemma same_identity_refl f : same_identity f f.
Proof. repeat split. Qed.

Lemma same_identity_trans f g h :
  same_identity f g -> same_identity g h -> same_identity f h.
Proof.
  unfold same_identity. intros (?&?&?&?&?&?) (?&?&?&?&?&?).
  repeat split; congruence.
Qed.

(** The ids in use are below the next fresh one, so are the parents
    referred to, and a frame has the owner of the parent it refers to. *)
Record Own (st : Media.Store) : Prop := {
  own_known : forall id f, Media.frames st !! id = Some f ->
    (id < Media.next_id st)%positive;
  own_ref : forall id f p, Media.frames st !! id = Some f ->
    Media.pdfId f = Some p -> (p < Media.next_id st)%positive;
  own_parent : forall id f p g, Media.frames st !! id = Some f ->
    Media.pdfId f = Some p -> Media.frames st !! p = Some g ->
    Media.createdBy g = Media.createdBy f
}.

Lemma Own_empty : Own Media.empty_store.
Proof.
  constructor; intros id f; cbn; rewrite lookup_empty; discriminate.
Qed.

Lemma Own_insertOne st f :
  Own st ->
  (forall p, Media.pdfId f = Some p ->
     (p < Media.next_id st)%positive
     /\ forall g, Media.frames st !! p = Some g ->
          Media.createdBy g = Media.createdBy f) ->
  Own (snd (Media.insertOne st f)).
Proof.
  intros HO Hf. constructor; cbn.
  - intros id g Hg. destruct (decide (Media.next_id st = id)) as [<-|Hne]; [lia|].
    rewrite lookup_insert_ne in Hg by exact Hne.
    pose proof (own_known st HO id g Hg). lia.
  - intros id g p Hg Hp. destruct (decide (Media.next_id st = id)) as [<-|Hne].
    + rewrite lookup_insert_eq in Hg. injection Hg as <-.
      destruct (Hf p Hp) as [Hlt _]. lia.
    + rewrite lookup_insert_ne in Hg by exact Hne.
      pose proof (own_ref st HO id g p Hg Hp). lia.
  - intros id g p h Hg Hp Hh.
    destruct (decide (Media.next_id st = id)) as [<-|Hne].
    + rewrite lookup_insert_eq in Hg. injection Hg as <-.
      destruct (Hf p Hp) as [Hlt Hparent].
      rewrite lookup_insert_ne in Hh by lia. apply Hparent, Hh.
    + rewrite lookup_insert_ne in Hg by exact Hne.
      pose proof (own_ref st HO id g p Hg Hp) as Hlt.
      rewrite lookup_insert_ne in Hh by lia.
      exact (own_parent st HO id g p h Hg Hp Hh).
Qed.

(** Stores with the same ids in use, the same next id, and frames of the
    same identity satisfy the invariant together. *)
Lemma Own_same_shape st st' :
  Own st -> Media.next_id st' = Media.next_id st ->
  (forall j f', Media.frames st' !! j = Some f' ->
     exists f, Media.frames st !! j = Some f /\ same_identity f f') ->
  Own st'.
Proof.
  intros HO Hn Hshape. constructor.
  - intros id f' Hf'. destruct (Hshape id f' Hf') as (f & Hf & _).
    rewrite Hn. exact (own_known st HO id f Hf).
  - intros id f' p Hf' Hp. destruct (Hshape id f' Hf') as (f & Hf & Hid).
    rewrite Hn. apply (own_ref st HO id f p Hf).
    destruct Hid as (_ & _ & _ & _ & <- & _). exact Hp.
  - intros id f' p g' Hf' Hp Hg'.
    destruct (Hshape id f' Hf') as (f & Hf & Hid).
    destruct (Hshape p g' Hg') as (g & Hg & Hidg).
    destruct Hid as (Hc & _ & _ & _ & Hpdf & _).
    destruct Hidg as (Hcg & _). rewrite Hc, Hcg.
    apply (own_parent st HO id f p g Hf); [rewrite <- Hpdf; exact Hp|exact Hg].
Qed.

Lemma with_status_identity f s : same_identity f (Media.with_status f s).
Proof. repeat split. Qed.
Lemma with_failure_identity f m : same_identity f (Media.with_failure f m).
Proof. repeat split. Qed.
Lemma with_ocr_identity f r : same_identity f (Media.with_ocr f r).
Proof. repeat split. Qed.
Lemma with_concepts_identity f c : same_identity f (Media.with_concepts f c).
Proof. repeat split. Qed.

(** [processImageImmediately] writes the addressed frame only, and keeps
    its identity. *)
Lemma processImageImmediately_frames env st (id : Media.FrameId) url :
  let st' := fst (Media.processImageImmediately env st id url) in
  Media.next_id st' = Media.next_id st
  /\ Media.pending st' = Media.pending st
  /\ (forall j, j <> id -> Media.frames st' !! j = Media.frames st !! j)
  /\ match Media.frames st !! id with
     | Some f => exists f', Media.frames st' !! id = Some f' /\ same_identity f f'
     | None => Media.frames st' !! id = None
     end.
Proof.
  cbv zeta. unfold Media.processImageImmediately.
  destruct (Media.frames st !! id) as [frame|] eqn:Hframe; [|cbn; rewrite Hframe; auto].
  assert (Hcaught : forall st1 error,
            Media.next_id st1 = Media.next_id st ->
            Media.pending st1 = Media.pending st ->
            (forall j, j <> id -> Media.frames st1 !! j = Media.frames st !! j) ->
            (exists f1, Media.frames st1 !! id = Some f1 /\ same_identity frame f1) ->
            let st' := Media.findByIdAndUpdate st1 id
                         (fun f => Media.with_failure f (message error)) in
            Media.next_id st' = Media.next_id st
            /\ Media.pending st' = Media.pending st
            /\ (forall j, j <> id -> Media.frames st' !! j = Media.frames st !! j)
            /\ exists f', Media.frames st' !! id = Some f' /\ same_identity frame f').
  { intros st1 error Hn Hp Hother (f1 & Hf1 & Hsame). cbv zeta.
    unfold Media.findByIdAndUpdate. rewrite Hf1. cbn.
    split; [exact Hn|]. split; [exact Hp|]. split.
    - intros j Hj. rewrite lookup_insert_ne by congruence. apply Hother, Hj.
    - rewrite lookup_insert_eq. eexists. split; [reflexivity|].
      eapply same_identity_trans; [exact Hsame|apply with_failure_identity]. }
  destruct (Media.save env st id (Media.with_status frame Media.processing))
    as [st1|error] eqn:Hsave; cbn [fst];
    [|apply Hcaught; try reflexivity; exists frame; split;
        [exact Hframe|apply same_identity_refl]].
  apply save_Returned in Hsave as [_ ->].
  set (st1 := Media.updateOne st id (Media.with_status frame Media.processing)).
  assert (Hother1 : forall j, j <> id -> Media.frames st1 !! j = Media.frames st !! j).
  { intros j Hj. unfold st1. cbn. apply lookup_insert_ne. congruence. }
  assert (Hf1 : exists f1, Media.frames st1 !! id = Some f1 /\ same_identity frame f1).
  { eexists. split; [unfold st1; cbn; apply lookup_insert_eq|].
    apply with_status_identity. }
  destruct (Media.extractText env (Some url)) as [ocrResult|error]; cbn [fst];
    [|apply Hcaught; auto].
  match goal with
  | |- context [Media.save env st1 id ?f] =>
    destruct (Media.save env st1 id f) as [st2|error] eqn:Hsave; cbn [fst];
      [|apply Hcaught; auto]
  end.
  apply save_Returned in Hsave as [_ ->].
  cbn. repeat split.
  - intros j Hj. rewrite !lookup_insert_ne by congruence. reflexivity.
  - rewrite lookup_insert_eq. eexists. split; [reflexivity|].
    eapply same_identity_trans; [apply with_ocr_identity|apply with_concepts_identity].
Qed.

Lemma Own_processImageImmediately env st id url :
  Own st -> Own (fst (Media.processImageImmediately env st id url)).
Proof.
  intros HO.
  destruct (processImageImmediately_frames env st id url) as (Hn & _ & Hother & Hid).
  apply (Own_same_shape st); [exact HO|exact Hn|].
  intros j f' Hf'. destruct (decide (j = id)) as [->|Hne].
  - destruct (Media.frames st !! id) as [f|] eqn:Hf.
    + destruct Hid as (f'' & Hf'' & Hsame).
      pose proof (eq_trans (eq_sym Hf') Hf'') as Heq. injection Heq as ->.
      exists f. split; [exact Hf|exact Hsame].
    + pose proof (eq_trans (eq_sym Hf') Hid) as Heq. discriminate Heq.
  - rewrite Hother in Hf' by exact Hne. exists f'. split; [exact Hf'|].
    apply same_identity_refl.
Qed.

Lemma Own_findByIdAndUpdate st id upd :
  Own st -> (forall f, same_identity f (upd f)) ->
  Own (Media.findByIdAndUpdate st id upd).
Proof.
  intros HO Hupd. unfold Media.findByIdAndUpdate.
  destruct (Media.frames st !! id) as [f|] eqn:Hf; [|exact HO].
  apply (Own_same_shape st); [exact HO|reflexivity|].
  intros j f'. cbn. destruct (decide (id = j)) as [<-|Hne].
  - rewrite lookup_insert_eq. intros [= <-]. eauto.
  - rewrite lookup_insert_ne by exact Hne. intros Hf'. exists f'.
    split; [exact Hf'|apply same_identity_refl].
Qed.

(** The page loop creates and writes fresh frames only. *)
Lemma process_pages_frames env (pid : Media.FrameId) user pages :
  forall st acc,
    Own st -> (pid < Media.next_id st)%positive ->
    (forall g, Media.frames st !! pid = Some g -> Media.createdBy g = user) ->
    let st' := fst (Media.process_pages env st pid user pages acc) in
    Own st'
    /\ (Media.next_id st <= Media.next_id st')%positive
    /\ Media.pending st' = Media.pending st
    /\ (forall j, (j < Media.next_id st)%positive ->
          Media.frames st' !! j = Media.frames st !! j).
Proof.
  induction pages as [|page rest IH]; intros st acc HO Hpid Hparent;
    cbn [Media.process_pages].
  - cbn [fst]. split; [exact HO|]. split; [lia|]. split; reflexivity.
  - destruct (Media.upload env _ _) as [url|e];
      [|cbn [fst]; split; [exact HO|]; split; [lia|]; split; reflexivity].
    set (f := Media.new_frame user Media.pdf_page url None (Some pid)
                (Some (Media.p_pageNumber page)) Media.queued).
    unfold Media.create. destruct (Media.valid f);
      [|cbn [fst]; split; [exact HO|]; split; [lia|]; split; reflexivity].
    change (Media.insertOne st f) with (Media.next_id st, snd (Media.insertOne st f)).
    cbv iota beta.
    set (st1 := snd (Media.insertOne st f)).
    assert (HO1 : Own st1).
    { apply Own_insertOne; [exact HO|]. intros p [= <-]. split; [exact Hpid|].
      intros g Hg. cbn. apply Hparent, Hg. }
    destruct (processImageImmediately_frames env st1 (Media.next_id st) url)
      as (Hn2 & Hp2 & Hother2 & _).
    pose proof (Own_processImageImmediately env st1 (Media.next_id st) url HO1) as HO2.
    destruct (Media.processImageImmediately env st1 (Media.next_id st) url)
      as [st2 processed]. cbn [fst] in *.
    assert (Hold : forall j, (j < Media.next_id st)%positive ->
              Media.frames st2 !! j = Media.frames st !! j).
    { intros j Hj. rewrite Hother2 by lia. unfold st1. cbn.
      apply lookup_insert_ne. lia. }
    assert (Hn1 : Media.next_id st2 = Pos.succ (Media.next_id st))
      by (rewrite Hn2; reflexivity).
    destruct (IH st2 (acc ++ [(Media.next_id st, processed)]) HO2) as (HO3 & Hn3 & Hp3 & Hold3).
    + rewrite Hn1. lia.
    + intros g. rewrite Hold by exact Hpid. apply Hparent.
    + split; [exact HO3|]. split.
      { etransitivity; [|exact Hn3]. rewrite Hn1. lia. }
      split.
      * etransitivity; [exact Hp3|]. etransitivity; [exact Hp2|]. reflexivity.
      * intros j Hj. etransitivity; [apply Hold3; rewrite Hn1; lia|apply Hold, Hj].
Qed.

Lemma processPdfImmediately_frames env st (pid : Media.FrameId) buffer user :
  Own st -> (pid < Media.next_id st)%positive ->
  (forall g, Media.frames st !! pid = Some g -> Media.createdBy g = user) ->
  let st' := fst (Media.processPdfImmediately env st pid buffer user) in
  Own st'
  /\ (Media.next_id st <= Media.next_id st')%positive
  /\ Media.pending st' = Media.pending st
  /\ (forall j, (j < Media.next_id st)%positive -> j <> pid ->
        Media.frames st' !! j = Media.frames st !! j)
  /\ match Media.frames st !! pid with
     | Some f => exists f', Media.frames st' !! pid = Some f' /\ same_identity f f'
     | None => Media.frames st' !! pid = None
     end.
Proof.
  intros HO Hpid Hparent.
  assert (Hupd : forall st1 (upd : Media.Frame -> Media.Frame),
            Own st1 -> (Media.next_id st <= Media.next_id st1)%positive ->
            Media.pending st1 = Media.pending st ->
            (forall j : Media.FrameId, (j < Media.next_id st)%positive ->
               Media.frames st1 !! j = Media.frames st !! j) ->
            (forall f, same_identity f (upd f)) ->
            let st' := Media.findByIdAndUpdate st1 pid upd in
            Own st'
            /\ (Media.next_id st <= Media.next_id st')%positive
            /\ Media.pending st' = Media.pending st
            /\ (forall j, (j < Media.next_id st)%positive -> j <> pid ->
                  Media.frames st' !! j = Media.frames st !! j)
            /\ match Media.frames st !! pid with
               | Some f => exists f', Media.frames st' !! pid = Some f'
                                      /\ same_identity f f'
               | None => Media.frames st' !! pid = None
               end).
  { intros st1 upd HO1 Hn1 Hp1 Hold1 Hid. cbv zeta.
    split; [apply Own_findByIdAndUpdate; assumption|].
    pose proof (Hold1 pid Hpid) as Hsame.
    unfold Media.findByIdAndUpdate.
    destruct (Media.frames st1 !! pid) as [f1|] eqn:Hf1.
    - cbn. split; [exact Hn1|]. split; [exact Hp1|]. split.
      + intros j Hj Hne. rewrite lookup_insert_ne by congruence. apply Hold1, Hj.
      + rewrite <- Hsame. rewrite lookup_insert_eq. eauto.
    - split; [exact Hn1|]. split; [exact Hp1|]. split.
      + intros j Hj _. apply Hold1, Hj.
      + rewrite <- Hsame. exact Hf1. }
  unfold Media.processPdfImmediately.
  destruct (Media.convertToImages env buffer) as [pages|e].
  - destruct (process_pages_frames env pid user pages st [] HO Hpid Hparent)
      as (HO1 & Hn1 & Hp1 & Hold1).
    destruct (Media.process_pages env st pid user pages []) as [st1 [pageFrames|e]];
      cbn [fst] in *.
    + apply Hupd; try assumption. intros f. apply with_status_identity.
    + apply Hupd; try assumption. intros f. apply with_failure_identity.
  - cbn [fst]. apply Hupd; try assumption; [lia|reflexivity|reflexivity|].
    intros f. apply with_failure_identity.
Qed.

(** *** What a request can do to the frames that existed before it *)

(** A frame slot is as it was, or it held a frame of one of the owners
    [who] that was deleted or was updated without change of identity. *)
Definition kept_or (who : Media.User -> Prop) (old new : option Media.Frame) : Prop :=
  new = old
  \/ exists f, old = Some f /\ who (Media.createdBy f)
       /\ (new = None \/ exists f', new = Some f' /\ same_identity f f').

Lemma kept_or_weaken (who who' : Media.User -> Prop) old new :
  (forall u, who u -> who' u) -> kept_or who old new -> kept_or who' old new.
Proof.
  intros Hw [H|(f & Hf & Hu & H)]; [left; exact H|].
  right. exists f. auto.
Qed.

Lemma kept_or_trans who a b c :
  kept_or who a b -> kept_or who b c -> kept_or who a c.
Proof.
  intros [->|(f & -> & Hu & Hb)] Hbc; [exact Hbc|].
  destruct Hbc as [->|(g & Hg & Hug & Hc)].
  - right. exists f. auto.
  - destruct Hb as [->|(f' & -> & Hsame)]; [discriminate Hg|].
    injection Hg as <-. right. exists f. split; [reflexivity|]. split; [exact Hu|].
    destruct Hc as [->|(f'' & -> & Hsame')]; [left; reflexivity|].
    right. exists f''. split; [reflexivity|].
    eapply same_identity_trans; eassumption.
Qed.

(** The ids in use before the request are those below [Media.next_id]. *)
Definition acts (who : Media.User -> Prop) (st st' : Media.Store) : Prop :=
  (Media.next_id st <= Media.next_id st')%positive
  /\ forall j : Media.FrameId, (j < Media.next_id st)%positive ->
       kept_or who (Media.frames st !! j) (Media.frames st' !! j).

Lemma acts_refl who st : acts who st st.
Proof. split; [lia|]. intros j _. left. reflexivity. Qed.

Lemma acts_trans who st st' st'' :
  acts who st st' -> acts who st' st'' -> acts who st st''.
Proof.
  intros [Hn H] [Hn' H']. split; [lia|].
  intros j Hj. eapply kept_or_trans; [apply H, Hj|apply H'; lia].
Qed.

(** The owners a request acts for: the caller; any for the run of a
    processing left pending. *)
Definition who_of (op : Media.Op) : Media.User -> Prop :=
  match op with
  | Media.UploadImage _ user _ | Media.UploadPdf _ user _
  | Media.ExtractCrop _ user _ _ | Media.ExtractRegion _ user _ _
  | Media.DeleteFrame user _ => fun u => u = user
  | Media.RunPending _ _ => fun _ => True
  end.

Lemma findOne_Some st (id : Media.FrameId) user f :
  Media.findOne st id user = Some f ->
  Media.frames st !! id = Some f /\ Media.createdBy f = user.
Proof.
  unfold Media.findOne. destruct (Media.frames st !! id) as [g|]; [|discriminate].
  destruct (decide (Media.createdBy g = user)); [|discriminate].
  intros [= <-]. auto.
Qed.

Lemma step_acts st op :
  Own st -> Own (Media.step st op) /\ acts (who_of op) st (Media.step st op).
Proof.
  intros HO. destruct op as [env user file|env user file
    |env user frameId rect|env user frameId rect|user id|env n];
    cbn [Media.step who_of].
  - (* uploadImage *)
    unfold Media.uploadImage.
    destruct file as [buffer|]; [|split; [exact HO|apply acts_refl]].
    destruct (Media.upload env _ _) as [url|e]; [|split; [exact HO|apply acts_refl]].
    set (f := Media.new_frame user Media.image url None None None Media.queued).
    unfold Media.create.
    destruct (Media.valid f); [|split; [exact HO|apply acts_refl]].
    change (Media.insertOne st f) with (Media.next_id st, snd (Media.insertOne st f)).
    cbv iota beta. set (st1 := snd (Media.insertOne st f)).
    assert (HO1 : Own st1) by (apply Own_insertOne; [exact HO|discriminate]).
    destruct (processImageImmediately_frames env st1 (Media.next_id st) url)
      as (Hn2 & _ & Hother2 & _).
    pose proof (Own_processImageImmediately env st1 (Media.next_id st) url HO1) as HO2.
    destruct (Media.processImageImmediately env st1 (Media.next_id st) url)
      as [st2 processed]. cbn [fst] in *.
    split; [exact HO2|]. split; [rewrite Hn2; cbn; lia|].
    intros j Hj. left. etransitivity; [apply Hother2; lia|].
    unfold st1. cbn. apply lookup_insert_ne. lia.
  - (* uploadPdf *)
    unfold Media.uploadPdf.
    destruct file as [buffer|]; [|split; [exact HO|apply acts_refl]].
    destruct (Media.upload env _ _) as [url|e]; [|split; [exact HO|apply acts_refl]].
    destruct (Media.getMetadata env buffer) as [_|e];
      [|split; [exact HO|apply acts_refl]].
    set (f := Media.new_frame user Media.pdf_page url None None None Media.processing).
    unfold Media.create.
    destruct (Media.valid f); [|split; [exact HO|apply acts_refl]].
    change (Media.insertOne st f) with (Media.next_id st, snd (Media.insertOne st f)).
    cbv iota beta. set (st1 := snd (Media.insertOne st f)).
    assert (HO1 : Own st1) by (apply Own_insertOne; [exact HO|discriminate]).
    destruct (processPdfImmediately_frames env st1 (Media.next_id st) buffer user HO1)
      as (HO2 & Hn2 & _ & Hother2 & _).
    { unfold st1. cbn. lia. }
    { unfold st1. cbn. rewrite lookup_insert_eq. intros g [= <-]. reflexivity. }
    destruct (Media.processPdfImmediately env st1 (Media.next_id st) buffer user)
      as [st2 pageFrames]. cbn [fst] in *.
    split; [exact HO2|]. split.
    { etransitivity; [|exact Hn2]. unfold st1. cbn. lia. }
    intros j Hj. left. etransitivity; [apply Hother2; [unfold st1; cbn; lia|lia]|].
    unfold st1. cbn. apply lookup_insert_ne. lia.
  - (* extractCrop *)
    unfold Media.extractCrop.
    destruct frameId as [frameId|]; [|split; [exact HO|apply acts_refl]].
    destruct (Media.r_x rect); [|split; [exact HO|apply acts_refl]].
    destruct (Media.r_y rect); [|split; [exact HO|apply acts_refl]].
    destruct (Media.falsy _ || Media.falsy _); [split; [exact HO|apply acts_refl]|].
    destruct (Media.findOne st frameId user) as [sourceFrame|] eqn:Hfind;
      [|split; [exact HO|apply acts_refl]].
    apply findOne_Some in Hfind as [Hsource Howner].
    destruct (Media.download env _) as [imageBuffer|];
      [|split; [exact HO|apply acts_refl]].
    destruct (Media.cropImage env _ _) as [croppedBuffer|];
      [|split; [exact HO|apply acts_refl]].
    destruct (Media.upload env _ _) as [url|e]; [|split; [exact HO|apply acts_refl]].
    set (f := Media.new_frame user Media.crop (Media.sourceUrl sourceFrame) (Some url)
                (Some frameId) None Media.queued).
    unfold Media.create.
    destruct (Media.valid f); [|split; [exact HO|apply acts_refl]].
    change (Media.insertOne st f) with (Media.next_id st, snd (Media.insertOne st f)).
    cbv iota beta. cbn [fst].
    assert (HO1 : Own (snd (Media.insertOne st f))).
    { apply Own_insertOne; [exact HO|]. intros p [= <-]. split.
      - exact (own_known st HO frameId sourceFrame Hsource).
      - intros g Hg. cbn. pose proof (eq_trans (eq_sym Hsource) Hg) as Heq.
        injection Heq as <-. exact Howner. }
    split.
    + apply (Own_same_shape (snd (Media.insertOne st f))); [exact HO1|reflexivity|].
      intros j g Hg. exists g. split; [exact Hg|apply same_identity_refl].
    + split; [cbn; lia|]. intros j Hj. left. cbn. apply lookup_insert_ne. lia.
  - (* extractTextFromRegion *)
    unfold Media.extractTextFromRegion.
    destruct frameId as [frameId|]; [|split; [exact HO|apply acts_refl]].
    destruct (Media.r_x rect); [|split; [exact HO|apply acts_refl]].
    destruct (Media.r_y rect); [|split; [exact HO|apply acts_refl]].
    destruct (Media.r_width rect); [|split; [exact HO|apply acts_refl]].
    destruct (Media.r_height rect); [|split; [exact HO|apply acts_refl]].
    destruct (Media.frames st !! frameId) as [frame|] eqn:Hframe;
      [|split; [exact HO|apply acts_refl]].
    destruct (bool_decide (Media.createdBy frame = user)) eqn:Howner;
      cbn [negb]; [|split; [exact HO|apply acts_refl]].
    apply bool_decide_eq_true_1 in Howner.
    destruct (Media.has_words frame); [split; [exact HO|apply acts_refl]|].
    destruct (Media.extractText env None) as [ocrResult|e];
      [|split; [exact HO|apply acts_refl]].
    unfold Media.save.
    destruct (Media.valid (Media.with_ocr frame ocrResult));
      [|split; [exact HO|apply acts_refl]].
    cbn [fst]. split.
    + apply (Own_same_shape st); [exact HO|reflexivity|].
      intros j g. cbn. destruct (decide (frameId = j)) as [<-|Hne].
      * rewrite lookup_insert_eq. intros [= <-]. exists frame.
        split; [exact Hframe|apply with_ocr_identity].
      * rewrite lookup_insert_ne by exact Hne. intros Hg. exists g.
        split; [exact Hg|apply same_identity_refl].
    + split; [cbn; lia|]. intros j Hj. cbn.
      destruct (decide (frameId = j)) as [<-|Hne].
      * right. exists frame. split; [exact Hframe|]. split; [exact Howner|].
        right. eexists. split; [apply lookup_insert_eq|apply with_ocr_identity].
      * left. apply lookup_insert_ne. exact Hne.
  - (* deleteFrame *)
    unfold Media.deleteFrame.
    destruct (Media.findOne st id user) as [frame|] eqn:Hfind;
      [|split; [exact HO|apply acts_refl]].
    apply findOne_Some in Hfind as [Hframe Howner].
    cbn [fst]. unfold Media.findByIdAndDelete.
    destruct (bool_decide _ && negb _);
      cbn [Media.deleteMany_pdfId Media.frames Media.next_id Media.pending Media.writes].
    + split.
      * apply (Own_same_shape st); [exact HO|reflexivity|].
        intros j g Hg. cbn in Hg. apply lookup_delete_Some in Hg as [_ Hg].
        apply map_lookup_filter_Some in Hg as [Hg _].
        exists g. split; [exact Hg|apply same_identity_refl].
      * split; [cbn; lia|]. intros j Hj. cbn.
        destruct (decide (id = j)) as [<-|Hne].
        { right. exists frame. split; [exact Hframe|]. split; [exact Howner|].
          left. apply lookup_delete_eq. }
        rewrite lookup_delete_ne by exact Hne.
        destruct (Media.frames st !! j) as [g|] eqn:Hg.
        -- destruct (decide (Media.pdfId g = Some id)) as [Hchild|Hnot].
           ++ right. exists g. split; [reflexivity|]. split.
              ** rewrite <- Howner. symmetry.
                 exact (own_parent st HO j g id frame Hg Hchild Hframe).
              ** left. apply map_lookup_filter_None. right.
                 intros g' Hg'. cbn. pose proof (eq_trans (eq_sym Hg) Hg') as Heq.
                 injection Heq as <-. tauto.
           ++ left. apply map_lookup_filter_Some. split; [exact Hg|exact Hnot].
        -- left. apply map_lookup_filter_None. left. exact Hg.
    + split.
      * apply (Own_same_shape st); [exact HO|reflexivity|].
        intros j g Hg. cbn in Hg. apply lookup_delete_Some in Hg as [_ Hg].
        exists g. split; [exact Hg|apply same_identity_refl].
      * split; [cbn; lia|]. intros j Hj. cbn.
        destruct (decide (id = j)) as [<-|Hne].
        { right. exists frame. split; [exact Hframe|]. split; [exact Howner|].
          left. apply lookup_delete_eq. }
        left. apply lookup_delete_ne. exact Hne.
  - (* runPending *)
    unfold Media.runPending.
    destruct (Media.pending st !! n) as [[id url]|]; [|split; [exact HO|apply acts_refl]].
    set (st0 := {| Media.frames := Media.frames st; Media.next_id := Media.next_id st;
                   Media.pending := delete n (Media.pending st);
                   Media.writes := Media.writes st |}).
    assert (HO0 : Own st0).
    { apply (Own_same_shape st); [exact HO|reflexivity|].
      intros j g Hg. exists g. split; [exact Hg|apply same_identity_refl]. }
    destruct (processImageImmediately_frames env st0 id url) as (Hn & _ & Hother & Hid).
    split; [apply Own_processImageImmediately; exact HO0|].
    split; [rewrite Hn; cbn; lia|].
    intros j Hj. destruct (decide (j = id)) as [->|Hne].
    + change (Media.frames st !! id) with (Media.frames st0 !! id).
      destruct (Media.frames st0 !! id) as [g|] eqn:Hg.
      * destruct Hid as (g' & Hg' & Hsame). right. exists g.
        split; [reflexivity|]. split; [exact I|]. right. eauto.
      * left. exact Hid.
    + left. apply Hother. exact Hne.
Qed.

Lemma run_Own ops : Own (Media.run ops).
Proof.
  unfold Media.run. generalize Own_empty. generalize Media.empty_store.
  induction ops as [|op ops IH]; intros st HO; cbn; [exact HO|].
  apply IH. apply step_acts. exact HO.
Qed.

(** Any further requests after a reachable store. *)
Lemma steps_acts ops' : forall st,
  Own st -> acts (fun _ => True) st (fold_left Media.step ops' st).
Proof.
  induction ops' as [|op ops' IH]; intros st HO; cbn; [apply acts_refl|].
  destruct (step_acts st op HO) as [HO' Hact].
  eapply acts_trans; [|apply IH, HO'].
  split; [apply Hact|]. intros j Hj.
  eapply kept_or_weaken; [|apply Hact, Hj]. auto.
Qed.

(** The user a request is made by; the run of a pending processing has
    none. *)
Definition caller (op : Media.Op) : option Media.User :=
  match op with
  | Media.UploadImage _ user _ | Media.UploadPdf _ user _
  | Media.ExtractCrop _ user _ _ | Media.ExtractRegion _ user _ _
  | Media.DeleteFrame user _ => Some user
  | Media.RunPending _ _ => None
  end.

Lemma run_app ops ops' :
  Media.run (ops ++ ops') = fold_left Media.step ops' (Media.run ops).
Proof. unfold Media.run. apply fold_left_app. Qed.

(** X20. No request changes a frame of another user: after any sequence
    of requests, a request made by a user (upload, crop, region
    extraction, deletion with its cascade) leaves every frame created by
    someone else exactly as it was. *)
Theorem requests_leave_foreign_frames (ops : list Media.Op) (op : Media.Op)
    (user : Media.User) (id : Media.FrameId) (f : Media.Frame) :
  caller op = Some user ->
  Media.frames (Media.run ops) !! id = Some f ->
  Media.createdBy f <> user ->
  Media.frames (Media.step (Media.run ops) op) !! id = Some f.
Proof.
  intros Hcaller Hf Hforeign.
  pose proof (run_Own ops) as HO.
  destruct (step_acts (Media.run ops) op HO) as [_ [_ Hact]].
  destruct (Hact id (own_known _ HO id f Hf)) as [Hsame|(g & Hg & Hwho & _)].
  - etransitivity; [exact Hsame|exact Hf].
  - exfalso. pose proof (eq_trans (eq_sym Hf) Hg) as Heq. injection Heq as <-.
    apply Hforeign. destruct op; cbn in Hcaller, Hwho; congruence.
Qed.

(** X21. A frame id is never used again: once a frame that existed is
    gone, no later sequence of requests brings a frame back under its
    id. *)
Theorem deleted_frames_stay_deleted (ops1 ops2 ops3 : list Media.Op)
    (id : Media.FrameId) (f : Media.Frame) :
  Media.frames (Media.run ops1) !! id = Some f ->
  Media.frames (Media.run (ops1 ++ ops2)) !! id = None ->
  Media.frames (Media.run (ops1 ++ ops2 ++ ops3)) !! id = None.
Proof.
  intros Hf Hgone.
  pose proof (own_known _ (run_Own ops1) id f Hf) as Hknown.
  rewrite app_assoc, (run_app (ops1 ++ ops2) ops3).
  destruct (steps_acts ops2 (Media.run ops1) (run_Own ops1)) as [Hn _].
  rewrite <- run_app in Hn.
  destruct (steps_acts ops3 (Media.run (ops1 ++ ops2)) (run_Own _)) as [_ Hact].
  destruct (Hact id ltac:(lia)) as [Hsame|(g & Hg & _)].
  - etransitivity; [exact Hsame|exact Hgone].
  - pose proof (eq_trans (eq_sym Hgone) Hg) as Heq. discriminate Heq.
Qed.

(** X22. The identity of a frame is fixed at its creation: whatever
    requests follow, as long as the frame exists its owner, source type,
    source URL, crop URL, parent and page number are those it was created
    with. *)
Theorem frame_identity_is_immutable (ops1 ops2 : list Media.Op)
    (id : Media.FrameId) (f f' : Media.Frame) :
  Media.frames (Media.run ops1) !! id = Some f ->
  Media.frames (Media.run (ops1 ++ ops2)) !! id = Some f' ->
  Media.createdBy f' = Media.createdBy f
  /\ Media.sourceType f' = Media.sourceType f
  /\ Media.sourceUrl f' = Media.sourceUrl f
  /\ Media.cropUrl f' = Media.cropUrl f
  /\ Media.pdfId f' = Media.pdfId f
  /\ Media.pageNumber f' = Media.pageNumber f.
Proof.
  intros Hf Hf'. rewrite run_app in Hf'.
  pose proof (own_known _ (run_Own ops1) id f Hf) as Hknown.
  destruct (steps_acts ops2 (Media.run ops1) (run_Own ops1)) as [_ Hact].
  destruct (Hact id Hknown) as [Hsame|(g & Hg & _ & [Hnone|(g' & Hg' & Hid)])].
  - pose proof (eq_trans (eq_sym Hf') (eq_trans Hsame Hf)) as Heq.
    injection Heq as <-. apply same_identity_refl.
  - pose proof (eq_trans (eq_sym Hf') Hnone) as Heq. discriminate Heq.
  - pose proof (eq_trans (eq_sym Hf) Hg) as Heq. injection Heq as <-.
    pose proof (eq_trans (eq_sym Hf') Hg') as Heq. injection Heq as <-.
    exact Hid.
Qed.

(** X23. After any sequence of requests every frame in the collection has
    an id below the next fresh one, refers through [pdfId] only to an id
    already handed out, and has the same owner as the frame it refers to,
    when that one is still there. *)
Theorem frame_references_invariant (ops : list Media.Op) :
  let st := Media.run ops in
  (forall id f, Media.frames st !! id = Some f -> (id < Media.next_id st)%positive)
  /\ (forall id f p, Media.frames st !! id = Some f -> Media.pdfId f = Some p ->
        (p < Media.next_id st)%positive)
  /\ (forall id f p g, Media.frames st !! id = Some f -> Media.pdfId f = Some p ->
        Media.frames st !! p = Some g -> Media.createdBy g = Media.createdBy f).
Proof.
  cbv zeta. destruct (run_Own ops) as [H1 H2 H3]. auto.
Qed.

Lemma requests_leave_foreign_frames_witness :
  let ops := [ Media.UploadPdf quiet_env 7%positive (Some (js "pdf bytes")) ] in
  exists f,
    Media.frames (Media.run ops) !! 2%positive = Some f
    /\ Media.frames (Media.step (Media.run ops) (Media.DeleteFrame 8%positive 1%positive))
       !! 2%positive = Some f.
Proof.
  intros ops. eexists. split; [vm_compute; reflexivity|].
  apply (requests_leave_foreign_frames ops (Media.DeleteFrame 8%positive 1%positive)
           8%positive 2%positive).
  - reflexivity.
  - vm_compute. reflexivity.
  - vm_compute. discriminate.
Defined.

Lemma deleted_frames_stay_deleted_witness :
  Media.frames
    (Media.run ([ Media.UploadImage quiet_env 7%positive (Some (js "image bytes")) ]
                ++ [ Media.DeleteFrame 7%positive 1%positive ]
                ++ [ Media.UploadImage quiet_env 7%positive (Some (js "image bytes")) ]))
    !! 1%positive = None.
Proof.
  eapply (deleted_frames_stay_deleted
            [ Media.UploadImage quiet_env 7%positive (Some (js "image bytes")) ]
            [ Media.DeleteFrame 7%positive 1%positive ]
            [ Media.UploadImage quiet_env 7%positive (Some (js "image bytes")) ]
            1%positive).
  - vm_compute. reflexivity.
  - vm_compute. reflexivity.
Defined.

Lemma frame_identity_is_immutable_witness :
  let ops1 := [ Media.UploadImage quiet_env 7%positive (Some (js "image bytes"));
                Media.ExtractCrop quiet_env 7%positive (Some 1%positive) whole_page ] in
  let ops2 := [ Media.RunPending quiet_env 0 ] in
  exists f f',
    Media.frames (Media.run ops1) !! 2%positive = Some f
    /\ Media.frames (Media.run (ops1 ++ ops2)) !! 2%positive = Some f'
    /\ Media.status f = Media.queued /\ Media.status f' = Media.completed
    /\ Media.createdBy f' = Media.createdBy f
    /\ Media.sourceType f' = Media.sourceType f
    /\ Media.sourceUrl f' = Media.sourceUrl f
    /\ Media.cropUrl f' = Media.cropUrl f
    /\ Media.pdfId f' = Media.pdfId f
    /\ Media.pageNumber f' = Media.pageNumber f.
Proof.
  intros ops1 ops2. eexists _, _.
  split; [vm_compute; reflexivity|]. split; [vm_compute; reflexivity|].
  split; [reflexivity|]. split; [reflexivity|].
  apply (frame_identity_is_immutable ops1 ops2 2%positive); vm_compute; reflexivity.
Defined.

(** ** Uploads: what the reply and the collection hold afterwards *)

(** The concepts kept for a frame: those of the vision collaborator, or
    the defaults when it throws. *)
Definition concepts_for (env : Media.Env) (url text : jsstring) : Media.Concepts :=
  match Media.extractConcepts env url text with
  | Returned c => c
  | Threw _ => Media.default_concepts
  end.

(** The document [processImageImmediately] hands to its last
    [frame.save()], once the OCR has returned [r]. *)
Definition candidate (env : Media.Env) (f : Media.Frame) (url : jsstring)
    (r : Media.OcrResult) : Media.Frame :=
  Media.with_concepts (Media.with_ocr f r) (concepts_for env url (Media.o_text r)).

(** The schema validators accept the confidence of the OCR and the
    difficulty of the concepts. *)
Definition accepted (r : Media.OcrResult) (c : Media.Concepts) : bool :=
  Num.in_unit (Media.o_confidence r)
  && bool_decide (Media.c_difficulty c ∈ Media.difficulties).

Lemma valid_candidate env f url r :
  Media.valid f = true ->
  Media.valid (candidate env f url r)
  = accepted r (concepts_for env url (Media.o_text r)).
Proof.
  unfold Media.valid, candidate, accepted. cbn.
  destruct (negb _); [|discriminate]. intros _. reflexivity.
Qed.

(** The frame as [processImageImmediately] leaves a valid frame: the
    first [frame.save()] goes through, the frame being valid as stored,
    so the [catch] finds it in [processing]. *)
Definition processed_frame (env : Media.Env) (f : Media.Frame) (url : jsstring)
  : Media.Frame :=
  let caught (e : Error) :=
    Media.with_failure (Media.with_status f Media.processing) (message e) in
  match Media.extractText env (Some url) with
  | Returned r =>
    if accepted r (concepts_for env url (Media.o_text r)) then candidate env f url r
    else caught (Media.validationError env (candidate env f url r))
  | Threw e => caught e
  end.

(** The value it resolves to: the frame when it was stored completed. *)
Definition processed_value (env : Media.Env) (f : Media.Frame) (url : jsstring)
  : option Media.Frame :=
  match Media.extractText env (Some url) with
  | Returned r =>
    if accepted r (concepts_for env url (Media.o_text r))
    then Some (candidate env f url r) else None
  | Threw _ => None
  end.

Lemma processImageImmediately_found env st (id : Media.FrameId) url f :
  Media.frames st !! id = Some f ->
  Media.valid f = true ->
  let r := Media.processImageImmediately env st id url in
  snd r = processed_value env f url
  /\ Media.frames (fst r) = <[id := processed_frame env f url]> (Media.frames st)
  /\ Media.next_id (fst r) = Media.next_id st
  /\ Media.pending (fst r) = Media.pending st.
Proof.
  intros Hf Hvalid. cbv zeta.
  unfold Media.processImageImmediately, processed_value, processed_frame.
  rewrite Hf. unfold Media.save.
  change (Media.valid (Media.with_status f Media.processing)) with (Media.valid f).
  rewrite Hvalid.
  destruct (Media.extractText env (Some url)) as [r|e]; cbn [fst snd].
  - fold (concepts_for env url (Media.o_text r)). fold (candidate env f url r).
    rewrite (valid_candidate env f url r Hvalid).
    destruct (accepted r _); cbn [fst snd].
    + cbn. repeat split. apply insert_insert_eq.
    + unfold Media.findByIdAndUpdate. cbn [Media.updateOne Media.frames].
      rewrite lookup_insert_eq. cbn. repeat split. apply insert_insert_eq.
  - unfold Media.findByIdAndUpdate. cbn [Media.updateOne Media.frames].
    rewrite lookup_insert_eq. cbn. repeat split. apply insert_insert_eq.
Qed.

(** A frame just inserted, then processed. *)
Lemma insertOne_then_process env st f url :
  Media.valid f = true ->
  let id := Media.next_id st in
  let r := Media.processImageImmediately env (snd (Media.insertOne st f)) id url in
  snd r = processed_value env f url
  /\ Media.frames (fst r) = <[id := processed_frame env f url]> (Media.frames st)
  /\ Media.next_id (fst r) = Pos.succ id
  /\ Media.pending (fst r) = Media.pending st.
Proof.
  intros Hvalid. cbv zeta.
  destruct (processImageImmediately_found env (snd (Media.insertOne st f))
              (Media.next_id st) url f) as (H1 & H2 & H3 & H4).
  { cbn. apply lookup_insert_eq. }
  { exact Hvalid. }
  split; [exact H1|]. split; [|split; [exact H3|exact H4]].
  etransitivity; [exact H2|]. cbn. apply insert_insert_eq.
Qed.

Lemma processed_frame_identity env f url : same_identity f (processed_frame env f url).
Proof.
  unfold processed_frame, candidate. cbv zeta.
  destruct (Media.extractText env (Some url)) as [r|e]; [destruct (accepted r _)|];
    first [ eapply same_identity_trans;
              [apply with_ocr_identity|apply with_concepts_identity]
          | eapply same_identity_trans;
              [apply with_status_identity|apply with_failure_identity] ].
Qed.

(** How the processing of a valid frame ends: completed with the data of
    the OCR and the concepts when the OCR returned and the schema accepts
    them; failed otherwise, with the message of the OCR error or of the
    validation error, the OCR fields remaining as they were. *)
Definition outcome (env : Media.Env) (f0 f : Media.Frame) (url : jsstring) : Prop :=
  match Media.extractText env (Some url) with
  | Returned r =>
    let c := concepts_for env url (Media.o_text r) in
    if accepted r c then
      Media.status f = Media.completed
      /\ Media.processingError f = Media.processingError f0
      /\ Media.ocrText f = Media.o_text r
      /\ Media.ocrWords f = Some (Media.o_words r)
      /\ Media.ocrConfidence f = Media.o_confidence r
      /\ Media.conceptTags f = Media.c_conceptTags c
      /\ Media.difficulty f = Media.c_difficulty c
    else
      Media.status f = Media.failed
      /\ Media.processingError f
         = Some (message (Media.validationError env (candidate env f0 url r)))
      /\ Media.ocrText f = Media.ocrText f0
      /\ Media.ocrWords f = Media.ocrWords f0
      /\ Media.ocrConfidence f = Media.ocrConfidence f0
      /\ Media.conceptTags f = Media.conceptTags f0
      /\ Media.difficulty f = Media.difficulty f0
  | Threw e =>
    Media.status f = Media.failed
    /\ Media.processingError f = Some (message e)
    /\ Media.ocrText f = Media.ocrText f0
    /\ Media.ocrWords f = Media.ocrWords f0
    /\ Media.ocrConfidence f = Media.ocrConfidence f0
    /\ Media.conceptTags f = Media.conceptTags f0
    /\ Media.difficulty f = Media.difficulty f0
  end.

Lemma processed_frame_outcome env f url : outcome env f (processed_frame env f url) url.
Proof.
  unfold outcome, processed_frame.
  destruct (Media.extractText env (Some url)) as [r|e]; [|repeat split].
  cbv zeta. destruct (accepted r _); repeat split.
Qed.

(** The reply has the frame exactly when it was stored completed. *)
Lemma processed_value_cases env f url :
  (Media.status (processed_frame env f url) = Media.completed
   /\ processed_value env f url = Some (processed_frame env f url))
  \/ (Media.status (processed_frame env f url) = Media.failed
      /\ processed_value env f url = None).
Proof.
  unfold processed_value, processed_frame.
  destruct (Media.extractText env (Some url)) as [r|e]; [|right; split; reflexivity].
  destruct (accepted r _); [left|right]; split; reflexivity.
Qed.

(** The storage gave a URL: it returned, and not with the empty string,
    which the required [sourceUrl] of the schema does not admit. *)
Definition gave_url (r : Result jsstring) (url : jsstring) : Prop :=
  r = Returned url /\ url <> [].

Lemma new_frame_valid user ty url crop_url parent page s :
  url <> [] -> Media.valid (Media.new_frame user ty url crop_url parent page s) = true.
Proof. intros Hurl. destruct url; [contradiction|reflexivity]. Qed.

(** X24. Once the storage upload has given a URL, [uploadImage] replies
    201 whatever the OCR does, with the frame as stored under the fresh
    id. That frame is completed, with the text, words and confidence of
    the OCR and the concepts of the vision collaborator (the defaults when
    that one throws), when the OCR returned and the schema accepts its
    confidence and the difficulty of the concepts; it is failed with the
    message of the OCR error when the OCR threw, and failed with the
    message of the validation error, without OCR data, when the schema
    rejected the document. No other frame is touched. *)
Theorem uploadImage_outcome (env : Media.Env) (st : Media.Store) (user : Media.User)
    (buffer url : jsstring) :
  gave_url (Media.upload env buffer (js "ayursetu/images")) url ->
  let id := Media.next_id st in
  let result := Media.uploadImage env st user (Some buffer) in
  exists f,
    snd result = Media.Success 201 (Some f)
    /\ Media.frames (fst result) = <[id := f]> (Media.frames st)
    /\ Media.next_id (fst result) = Pos.succ id
    /\ Media.createdBy f = user
    /\ Media.sourceType f = Media.image
    /\ Media.sourceUrl f = url
    /\ Media.pdfId f = None
    /\ outcome env (Media.new_frame user Media.image url None None None Media.queued)
         f url.
Proof.
  intros [Hup Hurl]. cbv zeta. unfold Media.uploadImage. rewrite Hup.
  set (f0 := Media.new_frame user Media.image url None None None Media.queued).
  assert (Hvalid : Media.valid f0 = true) by (apply new_frame_valid, Hurl).
  unfold Media.create. rewrite Hvalid.
  change (Media.insertOne st f0) with (Media.next_id st, snd (Media.insertOne st f0)).
  cbv iota beta.
  destruct (insertOne_then_process env st f0 url Hvalid) as (_ & Hframes & Hnext & _).
  destruct (Media.processImageImmediately env (snd (Media.insertOne st f0))
              (Media.next_id st) url) as [st2 processed]. cbn [fst snd] in *.
  exists (processed_frame env f0 url).
  split; [f_equal; rewrite Hframes; apply lookup_insert_eq|].
  split; [exact Hframes|]. split; [exact Hnext|].
  destruct (processed_frame_identity env f0 url) as (-> & -> & -> & _ & -> & _).
  repeat (split; [reflexivity|]).
  apply processed_frame_outcome.
Qed.

Lemma uploadImage_outcome_witness :
  let env := odd_difficulty_env in
  let st := Media.empty_store in
  let user := 7%positive in
  let buffer := js "image bytes" in
  let url := js "https://cdn/file" in
  let id := Media.next_id st in
  let result := Media.uploadImage env st user (Some buffer) in
  gave_url (Media.upload env buffer (js "ayursetu/images")) url
  /\ exists f,
       snd result = Media.Success 201 (Some f)
       /\ Media.frames (fst result) = <[id := f]> (Media.frames st)
       /\ Media.next_id (fst result) = Pos.succ id
       /\ Media.createdBy f = user
       /\ Media.sourceType f = Media.image
       /\ Media.sourceUrl f = url
       /\ Media.pdfId f = None
       /\ outcome env (Media.new_frame user Media.image url None None None Media.queued)
            f url.
Proof.
  intros env st user buffer url id result.
  assert (H : gave_url (Media.upload env buffer (js "ayursetu/images")) url)
    by (split; [reflexivity|discriminate]).
  split; [exact H|].
  exact (uploadImage_outcome env st user buffer url H).
Defined.

(** The three ways an image upload can end. *)
Example uploadImage_samples :
  let stored env :=
    Media.frames (fst (Media.uploadImage env Media.empty_store 7%positive
                         (Some (js "image bytes")))) !! 1%positive in
  (Media.status <$> stored quiet_env, Media.ocrText <$> stored quiet_env)
  = (Some Media.completed, Some (js "force"))
  /\ (Media.status <$> stored failing_ocr_env,
      Media.processingError <$> stored failing_ocr_env)
     = (Some Media.failed, Some (Some (js "Tesseract OCR failed: network error")))
  /\ (Media.status <$> stored odd_difficulty_env,
      Media.processingError <$> stored odd_difficulty_env,
      Media.ocrText <$> stored odd_difficulty_env,
      Media.difficulty <$> stored odd_difficulty_env)
     = (Some Media.failed, Some (Some (js "Frame validation failed")), Some [],
        Some (js "unknown")).
Proof. vm_compute. repeat split. Qed.

Lemma findByIdAndUpdate_found st (id : Media.FrameId) upd f :
  Media.frames st !! id = Some f ->
  Media.findByIdAndUpdate st id upd = Media.updateOne st id (upd f).
Proof. intros Hf. unfold Media.findByIdAndUpdate. rewrite Hf. reflexivity. Qed.

Lemma Forall2_refine {A B} (P P' : A -> B -> Prop) (Q : B -> Prop) l k :
  Forall2 P l k -> Forall Q k -> (forall x y, P x y -> Q y -> P' x y) ->
  Forall2 P' l k.
Proof.
  intros H. induction H as [|x y l k Hxy _ IH]; intros HQ Himp; [constructor|].
  apply Forall_cons in HQ as [Hy HQ]. constructor; auto.
Qed.

(** *** The pages of a document *)

(** What the reply holds for a page, and the collection for its frame:
    the frame refers to the parent, carries the page number and the URL
    the page image was stored under, and has been processed from the OCR
    of that image; the reply has the frame when it is completed, and no
    frame when it is failed. *)
Definition page_entry (env : Media.Env) (st' : Media.Store) (pid : Media.FrameId)
    (user : Media.User) (page : Media.Page)
    (entry : Media.FrameId * option Media.Frame) : Prop :=
  exists url f,
    Media.upload env (Media.p_imageBuffer page) (js "ayursetu/pdf-pages") = Returned url
    /\ Media.frames st' !! fst entry = Some f
    /\ Media.createdBy f = user
    /\ Media.sourceType f = Media.pdf_page
    /\ Media.sourceUrl f = url
    /\ Media.pdfId f = Some pid
    /\ Media.pageNumber f = Some (Media.p_pageNumber page)
    /\ outcome env (Media.new_frame user Media.pdf_page url None (Some pid)
                      (Some (Media.p_pageNumber page)) Media.queued) f url
    /\ ((Media.status f = Media.completed /\ snd entry = Some f)
        \/ (Media.status f = Media.failed /\ snd entry = None)).

(** The storage gives a URL for every page image. *)
Definition pages_stored (env : Media.Env) (pages : list Media.Page) : Prop :=
  forall page, In page pages ->
    exists url,
      gave_url (Media.upload env (Media.p_imageBuffer page) (js "ayursetu/pdf-pages")) url.

Lemma process_pages_spec env (pid : Media.FrameId) user pages :
  forall st acc,
    pages_stored env pages ->
    exists st' new,
      Media.process_pages env st pid user pages acc = (st', Returned (acc ++ new))
      /\ (Media.next_id st <= Media.next_id st')%positive
      /\ (forall j : Media.FrameId, (j < Media.next_id st)%positive ->
            Media.frames st' !! j = Media.frames st !! j)
      /\ Forall2 (page_entry env st' pid user) pages new
      /\ Forall (fun entry => (Media.next_id st <= fst entry)%positive) new
      /\ NoDup (List.map fst new).
Proof.
  induction pages as [|page rest IH]; intros st acc Hup; cbn [Media.process_pages].
  - exists st, []. rewrite app_nil_r. repeat split; try constructor. lia.
  - destruct (Hup page (or_introl eq_refl)) as (url & Hurl & Hne).
    rewrite Hurl.
    set (f := Media.new_frame user Media.pdf_page url None (Some pid)
                (Some (Media.p_pageNumber page)) Media.queued).
    assert (Hvalid : Media.valid f = true) by (apply new_frame_valid, Hne).
    unfold Media.create. rewrite Hvalid.
    change (Media.insertOne st f) with (Media.next_id st, snd (Media.insertOne st f)).
    cbv iota beta.
    destruct (insertOne_then_process env st f url Hvalid) as (Hv & Hframes & Hnext & _).
    destruct (Media.processImageImmediately env (snd (Media.insertOne st f))
                (Media.next_id st) url) as [st2 processed]. cbn [fst snd] in *.
    destruct (IH st2 (acc ++ [(Media.next_id st, processed)]))
      as (st' & new & Hrun & Hn & Hold & Hall & Hids & Hnd).
    { intros p Hp. apply Hup. right. exact Hp. }
    exists st', ((Media.next_id st, processed) :: new).
    split; [rewrite <- app_assoc in Hrun; exact Hrun|].
    split; [rewrite Hnext in Hn; lia|]. split.
    { intros j Hj. etransitivity; [apply Hold; rewrite Hnext; lia|].
      rewrite Hframes. apply lookup_insert_ne. lia. }
    split.
    { constructor; [|exact Hall]. exists url, (processed_frame env f url).
      split; [exact Hurl|]. cbn [fst snd]. split.
      { etransitivity; [apply Hold; rewrite Hnext; lia|].
        rewrite Hframes. apply lookup_insert_eq. }
      destruct (processed_frame_identity env f url) as (-> & -> & -> & _ & -> & ->).
      repeat (split; [reflexivity|]).
      split; [apply processed_frame_outcome|].
      rewrite Hv. apply processed_value_cases. }
    split.
    { constructor; [cbn; lia|]. eapply Forall_impl; [exact Hids|].
      cbn. intros entry. rewrite Hnext. lia. }
    cbn. apply NoDup_cons. split; [|exact Hnd].
    intros Hin. apply list_elem_of_In, List.in_map_iff in Hin as (entry & Heq & Hin).
    rewrite List.Forall_forall in Hids. specialize (Hids entry Hin).
    destruct entry as [i v]. cbn in Heq, Hids. subst i.
    rewrite Hnext in Hids. lia.
Qed.

(** X25. A document upload fans out into one frame per page. When the
    storage gives a URL for the document and for every page image and the
    rasterizer returns, [uploadPdf] replies 201 with one entry per page,
    in page order and under distinct fresh ids; each page frame refers to
    the parent, carries its page number and is completed or failed by the
    processing of that page alone (failed when its OCR threw or when the
    schema rejected its OCR confidence or the difficulty of its
    concepts), a failed page not stopping the others; the parent frame
    ends [completed] whatever happened to the pages; and no frame that
    existed before is touched. *)
Theorem uploadPdf_fan_out (env : Media.Env) (st : Media.Store) (user : Media.User)
    (buffer url : jsstring) (pages : list Media.Page) :
  gave_url (Media.upload env buffer (js "ayursetu/pdfs")) url ->
  threw (Media.getMetadata env buffer) = false ->
  Media.convertToImages env buffer = Returned pages ->
  pages_stored env pages ->
  let pid := Media.next_id st in
  let result := Media.uploadPdf env st user (Some buffer) in
  exists pageFrames,
    snd result = Media.Success 201 (pid, pageFrames)
    /\ Media.frames (fst result) !! pid
       = Some (Media.new_frame user Media.pdf_page url None None None Media.completed)
    /\ Forall2 (page_entry env (fst result) pid user) pages pageFrames
    /\ NoDup (List.map fst pageFrames)
    /\ Forall (fun entry => (pid < fst entry)%positive) pageFrames
    /\ (forall j : Media.FrameId, (j < pid)%positive ->
          Media.frames (fst result) !! j = Media.frames st !! j).
Proof.
  intros [Hup Hurl] Hmeta Hpages Hall. cbv zeta. unfold Media.uploadPdf. rewrite Hup.
  destruct (Media.getMetadata env buffer) as [m|e]; [|discriminate Hmeta].
  set (f := Media.new_frame user Media.pdf_page url None None None Media.processing).
  assert (Hvalid : Media.valid f = true) by (apply new_frame_valid, Hurl).
  unfold Media.create. rewrite Hvalid.
  change (Media.insertOne st f) with (Media.next_id st, snd (Media.insertOne st f)).
  cbv iota beta. set (st1 := snd (Media.insertOne st f)).
  unfold Media.processPdfImmediately. rewrite Hpages.
  destruct (process_pages_spec env (Media.next_id st) user pages st1 [] Hall)
    as (st' & new & Hrun & Hn & Hold & Hentries & Hids & Hnd).
  rewrite Hrun. cbn [app fst snd].
  assert (Hparent : Media.frames st' !! Media.next_id st = Some f).
  { etransitivity; [apply Hold; unfold st1; cbn; lia|].
    unfold st1. cbn. apply lookup_insert_eq. }
  rewrite (findByIdAndUpdate_found st' (Media.next_id st) _ f Hparent). cbn [fst snd].
  assert (Hfresh : Forall (fun entry : Media.FrameId * option Media.Frame =>
                             (Media.next_id st < fst entry)%positive) new).
  { eapply Forall_impl; [exact Hids|]. intros entry Hle.
    eapply Pos.lt_le_trans; [|exact Hle]. unfold st1. cbn. lia. }
  exists new. split; [reflexivity|]. split; [cbn; apply lookup_insert_eq|].
  split.
  { apply (Forall2_refine _ _ _ _ _ Hentries Hfresh).
    intros page entry (u & g & Hu & Hg & Hrest) Hlt. exists u, g.
    split; [exact Hu|]. split; [|exact Hrest].
    cbn. rewrite lookup_insert_ne by lia. exact Hg. }
  split; [exact Hnd|]. split; [exact Hfresh|].
  intros j Hj. cbn. rewrite lookup_insert_ne by lia.
  etransitivity; [apply Hold; unfold st1; cbn; lia|].
  unfold st1. cbn. apply lookup_insert_ne. lia.
Qed.

(** A store and OCR where the second page of a document cannot be read,
    and a vision collaborator that grades the first page outside the
    enumeration of the schema. *)
Definition second_page_unreadable : Media.Env :=
  {| Media.upload := fun buffer _ => Returned (js "https://cdn/" ++ buffer);
     Media.extractText := fun url =>
       if decide (url = Some (js "https://cdn/page 2"))
       then Threw {| message := js "Tesseract OCR failed: no text" |}
       else Media.extractText quiet_env url;
     Media.extractConcepts := Media.extractConcepts quiet_env;
     Media.getMetadata := Media.getMetadata quiet_env;
     Media.convertToImages := Media.convertToImages quiet_env;
     Media.download := Media.download quiet_env;
     Media.cropImage := Media.cropImage quiet_env;
     Media.validationError := Media.validationError quiet_env |}.

Lemma uploadPdf_fan_out_witness :
  let env := second_page_unreadable in
  let st := Media.empty_store in
  let user := 7%positive in
  let buffer := js "pdf bytes" in
  let url := js "https://cdn/pdf bytes" in
  let pages := [ {| Media.p_pageNumber := 1; Media.p_imageBuffer := js "page 1" |};
                 {| Media.p_pageNumber := 2; Media.p_imageBuffer := js "page 2" |} ] in
  let pid := Media.next_id st in
  let result := Media.uploadPdf env st user (Some buffer) in
  exists pageFrames,
    snd result = Media.Success 201 (pid, pageFrames)
    /\ Media.frames (fst result) !! pid
       = Some (Media.new_frame user Media.pdf_page url None None None Media.completed)
    /\ Forall2 (page_entry env (fst result) pid user) pages pageFrames
    /\ NoDup (List.map fst pageFrames)
    /\ Forall (fun entry => (pid < fst entry)%positive) pageFrames
    /\ (forall j : Media.FrameId, (j < pid)%positive ->
          Media.frames (fst result) !! j = Media.frames st !! j).
Proof.
  intros env st user buffer url pages pid result.
  apply (uploadPdf_fan_out env st user buffer url pages).
  - split; [reflexivity|discriminate].
  - reflexivity.
  - reflexivity.
  - intros page _. eexists. split; [reflexivity|discriminate].
Defined.

Example second_page_fails_alone :
  let st := Media.run [ Media.UploadPdf second_page_unreadable 7%positive
                          (Some (js "pdf bytes")) ] in
  Media.status <$> (Media.frames st !! 1%positive) = Some Media.completed
  /\ Media.status <$> (Media.frames st !! 2%positive) = Some Media.completed
  /\ Media.status <$> (Media.frames st !! 3%positive) = Some Media.failed.
Proof. vm_compute. repeat split. Qed.

(** ** Requests that fail *)

(** X26. A request that is answered with an error status (400, 403, 404
    or 500) has changed nothing: for each of the five handlers that write
    to the collection, a failure reply comes with the store exactly as it
    was before the request. *)
Theorem failed_requests_change_nothing (env : Media.Env) (st : Media.Store)
    (user : Media.User) (file : option jsstring) (frameId : option Media.FrameId)
    (rect : Media.Rect) (id : Media.FrameId) (code : nat) :
  (snd (Media.uploadImage env st user file) = Media.Failure code ->
   fst (Media.uploadImage env st user file) = st)
  /\ (snd (Media.uploadPdf env st user file) = Media.Failure code ->
      fst (Media.uploadPdf env st user file) = st)
  /\ (snd (Media.extractCrop env st user frameId rect) = Media.Failure code ->
      fst (Media.extractCrop env st user frameId rect) = st)
  /\ (snd (Media.extractTextFromRegion env st user frameId rect) = Media.Failure code ->
      fst (Media.extractTextFromRegion env st user frameId rect) = st)
  /\ (snd (Media.deleteFrame st user id) = Media.Failure code ->
      fst (Media.deleteFrame st user id) = st).
Proof.
  split; [|split; [|split; [|split]]].
  - unfold Media.uploadImage. destruct file as [buffer|]; [|reflexivity].
    destruct (Media.upload env _ _) as [url|e]; [|reflexivity].
    destruct (Media.create env st _) as [[i st1]|e]; [|reflexivity].
    destruct (Media.processImageImmediately env st1 i url) as [st2 p].
    discriminate.
  - unfold Media.uploadPdf. destruct file as [buffer|]; [|reflexivity].
    destruct (Media.upload env _ _) as [url|e]; [|reflexivity].
    destruct (Media.getMetadata env buffer) as [m|e]; [|reflexivity].
    destruct (Media.create env st _) as [[i st1]|e]; [|reflexivity].
    destruct (Media.processPdfImmediately env st1 i buffer user) as [st2 p].
    discriminate.
  - unfold Media.extractCrop. destruct frameId as [i|]; [|reflexivity].
    destruct (Media.r_x rect); [|reflexivity].
    destruct (Media.r_y rect); [|reflexivity].
    destruct (Media.falsy _ || Media.falsy _); [reflexivity|].
    destruct (Media.findOne st i user) as [sourceFrame|]; [|reflexivity].
    destruct (Media.download env _); [|reflexivity].
    destruct (Media.cropImage env _ _); [|reflexivity].
    destruct (Media.upload env _ _); [|reflexivity].
    destruct (Media.create env st _) as [[i1 st1]|e]; [discriminate|reflexivity].
  - unfold Media.extractTextFromRegion. destruct frameId as [i|]; [|reflexivity].
    destruct (Media.r_x rect); [|reflexivity].
    destruct (Media.r_y rect); [|reflexivity].
    destruct (Media.r_width rect); [|reflexivity].
    destruct (Media.r_height rect); [|reflexivity].
    destruct (Media.frames st !! i) as [frame|]; [|reflexivity].
    destruct (negb _); [reflexivity|].
    destruct (Media.has_words frame); [discriminate|].
    destruct (Media.extractText env None); [|reflexivity].
    destruct (Media.save env st i _); [discriminate|reflexivity].
  - unfold Media.deleteFrame.
    destruct (Media.findOne st id user); [discriminate|reflexivity].
Qed.

(** ** Crops *)

(** The run of the processing registered last. *)
Lemma runPending_last env st (id : Media.FrameId) (url : jsstring)
    (pd : list (Media.FrameId * jsstring)) :
  Media.pending st = pd ++ [(id, url)] ->
  Media.runPending env st (length pd)
  = fst (Media.processImageImmediately env
           {| Media.frames := Media.frames st; Media.next_id := Media.next_id st;
              Media.pending := pd; Media.writes := Media.writes st |} id url).
Proof.
  intros Hpd. unfold Media.runPending. rewrite Hpd.
  rewrite (list_lookup_middle pd [] (id, url) (length pd) eq_refl).
  rewrite (delete_middle pd [] (id, url)), app_nil_r. reflexivity.
Qed.

(** X27. A crop request that succeeds stores, under a fresh id, a crop
    frame in status [queued] that keeps the source frame's URL, holds the
    URL of the cropped image and refers to the caller's source frame, and
    it leaves the processing of that frame pending. When the pending
    processing runs, the OCR is applied to the cropped image and the crop
    ends completed with the OCR data when the OCR returned and the schema
    accepts the result, failed with the message of the OCR error or of
    the validation error otherwise; the pending list is back to what it
    was and no other frame has changed. *)
Theorem extractCrop_then_processing (env env' : Media.Env) (st st1 : Media.Store)
    (user : Media.User) (frameId id : Media.FrameId) (rect : Media.Rect) :
  Media.extractCrop env st user (Some frameId) rect = (st1, Media.Success 201 id) ->
  exists source url,
    Media.findOne st frameId user = Some source
    /\ id = Media.next_id st
    /\ Media.frames st1
       = <[id := Media.new_frame user Media.crop (Media.sourceUrl source) (Some url)
                   (Some frameId) None Media.queued]> (Media.frames st)
    /\ Media.pending st1 = Media.pending st ++ [(id, url)]
    /\ let st2 := Media.runPending env' st1 (length (Media.pending st)) in
       Media.pending st2 = Media.pending st
       /\ exists crop,
            Media.frames st2 = <[id := crop]> (Media.frames st)
            /\ Media.sourceType crop = Media.crop
            /\ Media.sourceUrl crop = Media.sourceUrl source
            /\ Media.cropUrl crop = Some url
            /\ Media.pdfId crop = Some frameId
            /\ outcome env'
                 (Media.new_frame user Media.crop (Media.sourceUrl source) (Some url)
                    (Some frameId) None Media.queued) crop url.
Proof.
  unfold Media.extractCrop.
  destruct (Media.r_x rect); [|discriminate].
  destruct (Media.r_y rect); [|discriminate].
  destruct (Media.falsy _ || Media.falsy _); [discriminate|].
  destruct (Media.findOne st frameId user) as [source|]; [|discriminate].
  destruct (Media.download env _) as [imageBuffer|]; [|discriminate].
  destruct (Media.cropImage env _ _) as [croppedBuffer|]; [|discriminate].
  destruct (Media.upload env _ _) as [url|e]; [|discriminate].
  set (f := Media.new_frame user Media.crop (Media.sourceUrl source) (Some url)
              (Some frameId) None Media.queued).
  unfold Media.create. destruct (Media.valid f) eqn:Hvalid; [|discriminate].
  change (Media.insertOne st f) with (Media.next_id st, snd (Media.insertOne st f)).
  cbv iota beta. intros [= <- <-].
  exists source, url. split; [reflexivity|]. split; [reflexivity|].
  split; [reflexivity|]. split; [reflexivity|]. cbv zeta.
  match goal with
  | |- context [Media.runPending env' ?s _] =>
    rewrite (runPending_last env' s (Media.next_id st) url (Media.pending st) eq_refl)
  end.
  cbn [Media.pending Media.frames Media.next_id Media.writes Media.insertOne snd].
  match goal with
  | |- context [Media.processImageImmediately env' ?s (Media.next_id st) url] =>
    destruct (processImageImmediately_found env' s (Media.next_id st) url f)
      as (_ & Hframes & _ & Hpending);
      [cbn; apply lookup_insert_eq|exact Hvalid|]
  end.
  split; [exact Hpending|].
  exists (processed_frame env' f url). split.
  { etransitivity; [exact Hframes|]. cbn. apply insert_insert_eq. }
  destruct (processed_frame_identity env' f url) as (_ & -> & -> & -> & -> & _).
  repeat (split; [reflexivity|]).
  apply processed_frame_outcome.
Qed.

Lemma extractCrop_then_processing_witness :
  let env := quiet_env in
  let env' := failing_ocr_env in
  let st := Media.run [ Media.UploadImage quiet_env 7%positive (Some (js "image bytes")) ] in
  let user := 7%positive in
  let frameId := 1%positive in
  let id := 2%positive in
  let rect := whole_page in
  let st1 := fst (Media.extractCrop env st user (Some frameId) rect) in
  Media.extractCrop env st user (Some frameId) rect = (st1, Media.Success 201 id)
  /\ exists source url,
       Media.findOne st frameId user = Some source
       /\ id = Media.next_id st
       /\ Media.frames st1
          = <[id := Media.new_frame user Media.crop (Media.sourceUrl source) (Some url)
                      (Some frameId) None Media.queued]> (Media.frames st)
       /\ Media.pending st1 = Media.pending st ++ [(id, url)]
       /\ let st2 := Media.runPending env' st1 (length (Media.pending st)) in
          Media.pending st2 = Media.pending st
          /\ exists crop,
               Media.frames st2 = <[id := crop]> (Media.frames st)
               /\ Media.sourceType crop = Media.crop
               /\ Media.sourceUrl crop = Media.sourceUrl source
               /\ Media.cropUrl crop = Some url
               /\ Media.pdfId crop = Some frameId
               /\ outcome env'
                    (Media.new_frame user Media.crop (Media.sourceUrl source) (Some url)
                       (Some frameId) None Media.queued) crop url.
Proof.
  intros env env' st user frameId id rect st1.
  assert (H : Media.extractCrop env st user (Some frameId) rect
              = (st1, Media.Success 201 id)) by (vm_compute; reflexivity).
  split; [exact H|].
  exact (extractCrop_then_processing env env' st st1 user frameId id rect H).
Defined.

(** ** OCR service *)

Section OcrProofs.
Variable recognize : option jsstring -> Result Ocr.EngineData.
Variable config : Ocr.Config.

(** X28. The vision enhancement of the OCR service never takes part:
    [extractWithVision] answers [null] for every configuration (without
    key it gives up, the Claude branch only logs, and the branch of the
    other key calls a method the class does not define), so [extractText]
    is exactly the result of the recognition engine. It throws exactly
    when the engine throws, with the engine's message prefixed; otherwise
    the text is the engine's text trimmed, and the confidences of the
    result and of each word are the engine's percentages divided by 100,
    word for word with the engine's bounding boxes. *)
Theorem extractText_is_recognition_only (image : option jsstring) :
  (forall url, Ocr.extractWithVision config url = None)
  /\ Ocr.extractText recognize config image = Ocr.extractWithTesseract recognize image
  /\ (forall e, recognize image = Threw e ->
        Ocr.extractText recognize config image
        = Threw {| message := js "Tesseract OCR failed: " ++ message e |})
  /\ (forall data, recognize image = Returned data ->
        exists r,
          Ocr.extractText recognize config image = Returned r
          /\ Media.o_text r = trim (Ocr.d_text data)
          /\ Media.o_confidence r = Num.div (Ocr.d_confidence data) Num.hundred
          /\ Forall2
               (fun w ew =>
                  Media.w_text w = Ocr.ew_text ew
                  /\ Media.w_confidence w = Num.div (Ocr.ew_confidence ew) Num.hundred
                  /\ Media.bbox w = Ocr.ew_bbox ew)
               (Media.o_words r)
               (match Ocr.d_words data with Some ws => ws | None => [] end)).
Proof.
  assert (Hvision : forall url, Ocr.extractWithVision config url = None).
  { intros url. unfold Ocr.extractWithVision, Ocr.extractWithGPT4V.
    destruct (negb _); [reflexivity|]. destruct (Ocr.is_set _); reflexivity. }
  assert (Heq : Ocr.extractText recognize config image
                = Ocr.extractWithTesseract recognize image).
  { unfold Ocr.extractText.
    destruct (Ocr.extractWithTesseract recognize image) as [t|e]; [|reflexivity].
    destruct image as [url|]; [|reflexivity].
    destruct (_ && _); [|reflexivity]. rewrite Hvision. reflexivity. }
  split; [exact Hvision|]. split; [exact Heq|]. rewrite Heq.
  unfold Ocr.extractWithTesseract. split.
  - intros e ->. reflexivity.
  - intros data ->. eexists. split; [reflexivity|]. cbn.
    split; [reflexivity|]. split; [reflexivity|].
    induction (match Ocr.d_words data with Some ws => ws | None => [] end)
      as [|ew ws IH]; cbn; constructor; auto.
Qed.

End OcrProofs.

(** ** Region extraction: what it can answer from *)

(** X29. With an OCR that rejects a call without image, as the
    recognition engine does, the region extraction only reads: whatever
    the request, the collection is left exactly as it was. It answers
    with a selection only for a frame of the caller that already holds
    OCR words; for a frame of the caller without them, a request with all
    its parameters is answered with 500, since the on-demand OCR is
    called on [frame.previewUrl], which the schema does not have. *)
Theorem extractTextFromRegion_only_reads (env : Media.Env) (st : Media.Store)
    (user : Media.User) (frameId : option Media.FrameId) (rect : Media.Rect) :
  threw (Media.extractText env None) = true ->
  let result := Media.extractTextFromRegion env st user frameId rect in
  fst result = st
  /\ (forall code data, snd result = Media.Success code data ->
        exists id frame,
          frameId = Some id /\ Media.frames st !! id = Some frame
          /\ Media.createdBy frame = user /\ Media.has_words frame = true)
  /\ (forall id frame x y width height,
        frameId = Some id ->
        rect = {| Media.r_x := Some x; Media.r_y := Some y;
                  Media.r_width := Some width; Media.r_height := Some height |} ->
        Media.frames st !! id = Some frame ->
        Media.createdBy frame = user ->
        Media.has_words frame = false ->
        snd result = Media.Failure 500).
Proof.
  intros Hocr. cbv zeta.
  split; [apply extractTextFromRegion_reads, Hocr|]. split.
  - intros code data. unfold Media.extractTextFromRegion.
    destruct frameId as [id|]; [|discriminate].
    destruct (Media.r_x rect); [|discriminate].
    destruct (Media.r_y rect); [|discriminate].
    destruct (Media.r_width rect); [|discriminate].
    destruct (Media.r_height rect); [|discriminate].
    destruct (Media.frames st !! id) as [frame|] eqn:Hframe; [|discriminate].
    destruct (bool_decide (Media.createdBy frame = user)) eqn:Howner;
      cbn [negb]; [|discriminate].
    apply bool_decide_eq_true_1 in Howner.
    destruct (Media.has_words frame) eqn:Hwords.
    + intros _. exists id, frame. auto.
    + destruct (Media.extractText env None); [discriminate Hocr|discriminate].
  - intros id frame x y width height -> -> Hframe Howner Hwords.
    unfold Media.extractTextFromRegion.
    cbn [Media.r_x Media.r_y Media.r_width Media.r_height].
    rewrite Hframe. rewrite bool_decide_eq_true_2 by exact Howner. cbn [negb].
    rewrite Hwords.
    destruct (Media.extractText env None); [discriminate Hocr|reflexivity].
Qed.

Lemma extractTextFromRegion_only_reads_witness :
  let env := quiet_env in
  let st := Media.run [ Media.UploadImage failing_ocr_env 7%positive
                          (Some (js "image bytes")) ] in
  let user := 7%positive in
  let frameId := Some 1%positive in
  let rect := whole_page in
  let result := Media.extractTextFromRegion env st user frameId rect in
  threw (Media.extractText env None) = true
  /\ snd result = Media.Failure 500
  /\ fst result = st
  /\ (forall code data, snd result = Media.Success code data ->
        exists id frame,
          frameId = Some id /\ Media.frames st !! id = Some frame
          /\ Media.createdBy frame = user /\ Media.has_words frame = true)
  /\ (forall id frame x y width height,
        frameId = Some id ->
        rect = {| Media.r_x := Some x; Media.r_y := Some y;
                  Media.r_width := Some width; Media.r_height := Some height |} ->
        Media.frames st !! id = Some frame ->
        Media.createdBy frame = user ->
        Media.has_words frame = false ->
        snd result = Media.Failure 500).
Proof.
  intros env st user frameId rect result.
  split; [reflexivity|]. split; [vm_compute; reflexivity|].
  apply (extractTextFromRegion_only_reads env st user frameId rect). reflexivity.
Defined.
